(** * file_methods: persistence layer of the Pupil recording tools

    A shallow embedding of [pupil_src/shared_modules/file_methods.py]:
    the session-settings store [Persistent_Dict], the whole-object codec
    [save_object] / [load_object], the record log reader and writer
    [load_pupil_data_file] / [save_pupil_data_file] and the lazily decoded
    record [Serialized_Dict] with its class-wide decode cache.

    The Python module delegates the byte format to the msgpack library.
    Module [msgpack] below models that library's wire format for the value
    universe [pyval], with the keyword arguments the source passes
    ([use_bin_type], [raw], [use_list], [object_hook], [default]). *)

From Stdlib Require Import ZArith Lia List String Ascii DecimalString.
From Stdlib.Strings Require Import Byte.
From stdpp Require Import gmap strings list fin_maps sorting.

Local Open Scope Z_scope.

(** ** Bytes and big-endian integers *)

Module Bytes.

#[global] Instance byte_eq_dec : EqDecision byte := Byte.byte_eq_dec.

Definition Z_of_byte (b : byte) : Z := Z.of_N (Byte.to_N b).

Definition byte_of_Z (z : Z) : byte :=
  match Byte.of_N (Z.to_N (z mod 256)) with
  | Some b => b
  | None => x00
  end.

(** [n] bytes of [z], most significant first (struct.pack(">...")). *)
Fixpoint be_bytes (n : nat) (z : Z) : list byte :=
  match n with
  | O => []
  | S n' => byte_of_Z (Z.shiftr z (8 * Z.of_nat n')) :: be_bytes n' z
  end.

Fixpoint be_value_from (acc : Z) (bs : list byte) : Z :=
  match bs with
  | [] => acc
  | b :: bs' => be_value_from (acc * 256 + Z_of_byte b) bs'
  end.

Definition be_value (bs : list byte) : Z := be_value_from 0 bs.

(** Two's complement reading of a [w]-bit unsigned value. *)
Definition to_signed (w : Z) (u : Z) : Z :=
  if u <? 2 ^ (w - 1) then u else u - 2 ^ w.

End Bytes.
Import Bytes.

(** ** Python values and exceptions *)

(** The values that travel through the module.  A [str] is held as the
    bytes of its UTF-8 form, a [float] as the 64 bits of its IEEE-754
    binary64 form, a [dict] as its items in insertion order.  Mappings have
    [str] keys: the settings are passed on as keyword arguments and the
    records are indexed by field name.  [PFrozenDict] is an instance of
    [Serialized_Dict.FrozenDict].  A numpy array is given by what its
    [tolist()] returns: [PNdarray] an array of one or more dimensions by
    the items of that list, [PNdarray0] an array of no dimension by the
    one item, which [tolist()] returns as it is. *)
#[warnings="-register-all"]
Inductive pyval : Type :=
| PNone
| PBool (b : bool)
| PInt (z : Z)
| PFloat (bits : Z)
| PStr (s : string)
| PBytes (b : list byte)
| PList (l : list pyval)
| PTuple (l : list pyval)
| PDict (d : list (string * pyval))
| PFrozenDict (d : list (string * pyval))
| PNdarray (tolist : list pyval)
| PNdarray0 (item : pyval).

Inductive exn : Type :=
| IOError            (* open() on a missing file *)
| KeyError
| TypeError
| ValueError
| AttributeError
| IndexError
| OverflowError
| NotImplementedError
| OutOfData          (* msgpack: the input ends inside an object *)
| ExtraData          (* msgpack.unpackb: bytes left after the object *)
| FormatError        (* msgpack: a byte that starts no object *)
| StackError         (* msgpack: nesting deeper than the unpacker allows *)
| NotModelled        (* outside the model, as msgpack float32 and ext objects *)
| UnpicklingError
| Exception_.        (* a plain Exception(...) *)

Inductive result (A : Type) : Type :=
| Ok (a : A)
| Raise (e : exn).
Arguments Ok {A} a.
Arguments Raise {A} e.

#[global] Instance result_ret : MRet result := fun A a => Ok a.
#[global] Instance result_bind : MBind result := fun A B k r =>
  match r with
  | Ok a => k a
  | Raise e => Raise e
  end.

Definition is_Ok {A} (r : result A) : bool :=
  match r with Ok _ => true | Raise _ => false end.

(** Python truth value, as tested by [if not x]. *)
Fixpoint truthy (v : pyval) : bool :=
  match v with
  | PNone => false
  | PBool b => b
  | PInt z => negb (z =? 0)
  | PFloat bits => negb ((bits =? 0) || (bits =? 2 ^ 63))
  | PStr s => negb (String.eqb s "")
  | PBytes b => negb (length b =? 0)%nat
  | PList l | PTuple l | PNdarray l => negb (length l =? 0)%nat
  | PDict d | PFrozenDict d => negb (length d =? 0)%nat
  | PNdarray0 x => truthy x
  end.

(** *** dict operations on the item list *)

Fixpoint dict_get {A} (d : list (string * A)) (k : string) : option A :=
  match d with
  | [] => None
  | (k', v) :: d' => if String.eqb k' k then Some v else dict_get d' k
  end.

(** [d[k] = v]: replace in place when the key is present, else append. *)
Fixpoint dict_set {A} (d : list (string * A)) (k : string) (v : A) : list (string * A) :=
  match d with
  | [] => [(k, v)]
  | (k', v') :: d' =>
      if String.eqb k' k then (k', v) :: d' else (k', v') :: dict_set d' k v
  end.

Fixpoint dict_del {A} (d : list (string * A)) (k : string) : list (string * A) :=
  match d with
  | [] => []
  | (k', v') :: d' => if String.eqb k' k then d' else (k', v') :: dict_del d' k
  end.

(** [d.update(other)] *)
Definition dict_update {A} (d other : list (string * A)) : list (string * A) :=
  fold_left (fun acc kv => dict_set acc (fst kv) (snd kv)) other d.

Definition dict_keys {A} (d : list (string * A)) : list string := map fst d.

(** ** The msgpack wire format *)

(** msgpack is a library the module imports.  What follows is its format
    for the values of [pyval], as the msgpack specification lays it out
    and as the Python binding chooses among the encodings (the shortest
    one; [str8] and [bin] because of [use_bin_type=True]).  Left out, and
    answered by [NotModelled] when met in the input: float32, the ext
    types and maps with a key that is no str.  Whether the bytes of a str
    are valid UTF-8 is not looked at. *)
Module msgpack.

(** *** Packer (use_bin_type=True) *)

Definition pack_int (z : Z) : result (list byte) :=
  if z <? - 2 ^ 63 then Raise OverflowError
  else if z <? - 2 ^ 31 then Ok (xd3 :: be_bytes 8 z)
  else if z <? - 2 ^ 15 then Ok (xd2 :: be_bytes 4 z)
  else if z <? - 2 ^ 7 then Ok (xd1 :: be_bytes 2 z)
  else if z <? - 32 then Ok (xd0 :: be_bytes 1 z)
  else if z <? 2 ^ 7 then Ok (be_bytes 1 z)
  else if z <? 2 ^ 8 then Ok (xcc :: be_bytes 1 z)
  else if z <? 2 ^ 16 then Ok (xcd :: be_bytes 2 z)
  else if z <? 2 ^ 32 then Ok (xce :: be_bytes 4 z)
  else if z <? 2 ^ 64 then Ok (xcf :: be_bytes 8 z)
  else Raise OverflowError.

Definition pack_str_header (n : Z) : result (list byte) :=
  if n <? 32 then Ok (be_bytes 1 (0xa0 + n))
  else if n <? 2 ^ 8 then Ok (xd9 :: be_bytes 1 n)
  else if n <? 2 ^ 16 then Ok (xda :: be_bytes 2 n)
  else if n <? 2 ^ 32 then Ok (xdb :: be_bytes 4 n)
  else Raise ValueError.

Definition pack_bin_header (n : Z) : result (list byte) :=
  if n <? 2 ^ 8 then Ok (xc4 :: be_bytes 1 n)
  else if n <? 2 ^ 16 then Ok (xc5 :: be_bytes 2 n)
  else if n <? 2 ^ 32 then Ok (xc6 :: be_bytes 4 n)
  else Raise ValueError.

Definition pack_array_header (n : Z) : result (list byte) :=
  if n <? 16 then Ok (be_bytes 1 (0x90 + n))
  else if n <? 2 ^ 16 then Ok (xdc :: be_bytes 2 n)
  else if n <? 2 ^ 32 then Ok (xdd :: be_bytes 4 n)
  else Raise ValueError.

Definition pack_map_header (n : Z) : result (list byte) :=
  if n <? 16 then Ok (be_bytes 1 (0x80 + n))
  else if n <? 2 ^ 16 then Ok (xde :: be_bytes 2 n)
  else if n <? 2 ^ 32 then Ok (xdf :: be_bytes 4 n)
  else Raise ValueError.

Definition pack_str (s : string) : result (list byte) :=
  let raw := list_byte_of_string s in
  h ← pack_str_header (Z.of_nat (length raw)); Ok (h ++ raw).

Definition pack_bin (b : list byte) : result (list byte) :=
  h ← pack_bin_header (Z.of_nat (length b)); Ok (h ++ b).

Definition pack_seq (f : pyval -> result (list byte))
  : list pyval -> result (list byte) :=
  fix go l :=
    match l with
    | [] => Ok []
    | x :: l' => a ← f x; b ← go l'; Ok (a ++ b)
    end.

Definition pack_items (fk : string -> result (list byte))
    (f : pyval -> result (list byte))
  : list (string * pyval) -> result (list byte) :=
  fix go d :=
    match d with
    | [] => Ok []
    | (k, v) :: d' => a ← fk k; b ← f v; c ← go d'; Ok (a ++ b ++ c)
    end.

(** The depth to which [Packer.pack] follows containers. *)
Definition DEFAULT_RECURSE_LIMIT : Z := 511.

(** [Packer._pack(k, nest_limit)] for a str [k]. *)
Definition pack_key (nest_limit : Z) (k : string) : result (list byte) :=
  if nest_limit <? 0 then Raise ValueError else pack_str k.

(** [Packer(use_bin_type=True, default=...)._pack(o, nest_limit)].  The
    only [default] hook the module installs is [ndarrray_to_list];
    [default] tells whether it is installed.  The hook is consulted, once,
    for an object msgpack has no encoding for, here the numpy arrays, and
    what it returns is packed in its place at the same depth: the list of
    an array of one or more dimensions, the item of an array of none.
    Every item of a container is packed with [nest_limit - 1], and a
    negative limit raises ValueError. *)
Fixpoint _pack (default : bool) (nest_limit : Z) (o : pyval) : result (list byte) :=
  if nest_limit <? 0 then Raise ValueError
  else
    match o with
    | PNone => Ok [xc0]
    | PBool b => Ok [if b then xc3 else xc2]
    | PInt z => pack_int z
    | PFloat bits => Ok (xcb :: be_bytes 8 bits)
    | PStr s => pack_str s
    | PBytes b => pack_bin b
    | PList l | PTuple l =>
        h ← pack_array_header (Z.of_nat (length l));
        body ← pack_seq (_pack default (nest_limit - 1)) l;
        Ok (h ++ body)
    | PDict d | PFrozenDict d =>
        h ← pack_map_header (Z.of_nat (length d));
        body ← pack_items (pack_key (nest_limit - 1))
                          (_pack default (nest_limit - 1)) d;
        Ok (h ++ body)
    | PNdarray l =>
        if default then
          h ← pack_array_header (Z.of_nat (length l));
          body ← pack_seq (_pack default (nest_limit - 1)) l;
          Ok (h ++ body)
        else Raise TypeError
    | PNdarray0 x =>
        if default then
          match x with
          | PNdarray _ | PNdarray0 _ => Raise TypeError
          | _ => _pack default nest_limit x
          end
        else Raise TypeError
    end.

(** [Packer.pack(o)] *)
Definition pack (default : bool) (o : pyval) : result (list byte) :=
  _pack default DEFAULT_RECURSE_LIMIT o.

(** [msgpack.dumps(o, use_bin_type=True)] *)
Definition dumps (o : pyval) : result (list byte) := pack false o.

(** *** Unpacker (raw=False) *)

Definition read_n (n : nat) (bs : list byte) : result (list byte * list byte) :=
  if (length bs <? n)%nat then Raise OutOfData else Ok (take n bs, drop n bs).

Definition read_uint (n : nat) (bs : list byte) : result (Z * list byte) :=
  '(h, r) ← read_n n bs; Ok (be_value h, r).

Definition unpack_seq (u : list byte -> result (pyval * list byte))
  : nat -> list byte -> result (list pyval * list byte) :=
  fix go n bs :=
    match n with
    | O => Ok ([], bs)
    | S n' => '(v, r) ← u bs; '(vs, r') ← go n' r; Ok (v :: vs, r')
    end.

(** The items of a map are stored into a fresh dict one after the other,
    so a repeated key keeps its first place and its last value.  A key
    that is not a [str] has no place in [pyval]. *)
Definition unpack_items (u : list byte -> result (pyval * list byte))
  : nat -> list byte -> list (string * pyval)
    -> result (list (string * pyval) * list byte) :=
  fix go n bs d :=
    match n with
    | O => Ok (d, bs)
    | S n' =>
        '(k, r) ← u bs;
        match k with
        | PStr s => '(v, r') ← u r; go n' r' (dict_set d s v)
        | _ => Raise NotModelled
        end
    end.

Section unpack.
Variable use_list : bool.
Variable object_hook : option (pyval -> pyval).

Definition mk_array (vs : list pyval) : pyval :=
  if use_list then PList vs else PTuple vs.

Definition mk_map (d : list (string * pyval)) : pyval :=
  match object_hook with
  | Some hook => hook (PDict d)
  | None => PDict d
  end.

(** One object from the front of [bs], and the bytes after it.  [fuel]
    bounds the nesting depth. *)
Fixpoint unpack (fuel : nat) (bs : list byte) : result (pyval * list byte) :=
  match fuel with
  | O => Raise StackError
  | S fuel' =>
    let u := unpack fuel' in
    let array n r := '(vs, r') ← unpack_seq u (Z.to_nat n) r; Ok (mk_array vs, r') in
    let map_ n r := '(d, r') ← unpack_items u (Z.to_nat n) r []; Ok (mk_map d, r') in
    let str n r := '(s, r') ← read_n (Z.to_nat n) r; Ok (PStr (string_of_list_byte s), r') in
    let bin n r := '(b, r') ← read_n (Z.to_nat n) r; Ok (PBytes b, r') in
    let uint w r := '(n, r') ← read_uint w r; Ok (PInt n, r') in
    let int w r :=
      '(n, r') ← read_uint w r; Ok (PInt (to_signed (8 * Z.of_nat w) n), r') in
    match bs with
    | [] => Raise OutOfData
    | b :: r =>
      let t := Z_of_byte b in
      if t <? 0x80 then Ok (PInt t, r)
      else if t <? 0x90 then map_ (t - 0x80) r
      else if t <? 0xa0 then array (t - 0x90) r
      else if t <? 0xc0 then str (t - 0xa0) r
      else if 0xe0 <=? t then Ok (PInt (t - 256), r)
      else if t =? 0xc0 then Ok (PNone, r)
      else if t =? 0xc1 then Raise FormatError
      else if t =? 0xc2 then Ok (PBool false, r)
      else if t =? 0xc3 then Ok (PBool true, r)
      else if t =? 0xc4 then '(n, r') ← read_uint 1 r; bin n r'
      else if t =? 0xc5 then '(n, r') ← read_uint 2 r; bin n r'
      else if t =? 0xc6 then '(n, r') ← read_uint 4 r; bin n r'
      else if t =? 0xcb then '(bits, r') ← read_uint 8 r; Ok (PFloat bits, r')
      else if t =? 0xcc then uint 1%nat r
      else if t =? 0xcd then uint 2%nat r
      else if t =? 0xce then uint 4%nat r
      else if t =? 0xcf then uint 8%nat r
      else if t =? 0xd0 then int 1%nat r
      else if t =? 0xd1 then int 2%nat r
      else if t =? 0xd2 then int 4%nat r
      else if t =? 0xd3 then int 8%nat r
      else if t =? 0xd9 then '(n, r') ← read_uint 1 r; str n r'
      else if t =? 0xda then '(n, r') ← read_uint 2 r; str n r'
      else if t =? 0xdb then '(n, r') ← read_uint 4 r; str n r'
      else if t =? 0xdc then '(n, r') ← read_uint 2 r; array n r'
      else if t =? 0xdd then '(n, r') ← read_uint 4 r; array n r'
      else if t =? 0xde then '(n, r') ← read_uint 2 r; map_ n r'
      else if t =? 0xdf then '(n, r') ← read_uint 4 r; map_ n r'
      else Raise NotModelled
    end
  end.

(** [msgpack.unpackb(bs, ...)] / [msgpack.loads]: exactly one object.
    Input that ends inside the object is reported as ValueError
    ("Unpack failed: incomplete input").  No object nests deeper than it
    is long, so the fuel never runs out: the nesting limit of the
    unpacker's own stack is not modelled. *)
Definition unpackb (bs : list byte) : result pyval :=
  match unpack (S (length bs)) bs with
  | Ok (v, []) => Ok v
  | Ok (_, _ :: _) => Raise ExtraData
  | Raise OutOfData => Raise ValueError
  | Raise e => Raise e
  end.

End unpack.

Definition loads := unpackb.

End msgpack.

(** ** Which values the codec takes, and what it gives back *)

Definition len32 {A} (l : list A) : bool := Z.of_nat (length l) <? 2 ^ 32.

Fixpoint keys_distinct (ks : list string) : bool :=
  match ks with
  | [] => true
  | k :: ks' => negb (existsb (String.eqb k) ks') && keys_distinct ks'
  end.

(** Invariants every Python value has: a float has 64 bits, the keys of a
    dict are pairwise different. *)
Fixpoint wf (o : pyval) : bool :=
  match o with
  | PFloat bits => (0 <=? bits) && (bits <? 2 ^ 64)
  | PList l | PTuple l | PNdarray l => forallb wf l
  | PDict d | PFrozenDict d =>
      keys_distinct (map fst d) && forallb (fun '(_, v) => wf v) d
  | PNdarray0 x => wf x
  | _ => true
  end.

Definition is_ndarray (o : pyval) : bool :=
  match o with
  | PNdarray _ | PNdarray0 _ => true
  | _ => false
  end.

(** The values [Packer._pack] has an encoding for with [nest_limit] left:
    integers of 64 bits, lengths below 2^32, numpy arrays where the hook
    is installed, and no item deeper than the limit reaches. *)
Fixpoint packable_at (default : bool) (nest_limit : Z) (o : pyval) : bool :=
  (0 <=? nest_limit)
  && match o with
     | PNone | PBool _ | PFloat _ => true
     | PInt z => (- 2 ^ 63 <=? z) && (z <? 2 ^ 64)
     | PStr s => len32 (list_byte_of_string s)
     | PBytes b => len32 b
     | PList l | PTuple l =>
         len32 l && forallb (packable_at default (nest_limit - 1)) l
     | PDict d | PFrozenDict d =>
         len32 d
         && forallb (fun '(k, v) => len32 (list_byte_of_string k)
                                    && packable_at default (nest_limit - 1) v) d
     | PNdarray l =>
         default && len32 l && forallb (packable_at default (nest_limit - 1)) l
     | PNdarray0 x =>
         default && negb (is_ndarray x) && packable_at default nest_limit x
     end.

(** The values [Packer.pack] has an encoding for. *)
Definition packable (default : bool) (o : pyval) : bool :=
  packable_at default msgpack.DEFAULT_RECURSE_LIMIT o.

(** What the unpacker builds for the bytes of [o]. *)
Fixpoint decoded (use_list : bool) (object_hook : option (pyval -> pyval))
    (o : pyval) : pyval :=
  match o with
  | PList l | PTuple l | PNdarray l =>
      msgpack.mk_array use_list (map (decoded use_list object_hook) l)
  | PDict d | PFrozenDict d =>
      msgpack.mk_map object_hook
        (map (fun '(k, v) => (k, decoded use_list object_hook v)) d)
  | PNdarray0 x => decoded use_list object_hook x
  | _ => o
  end.

(** Values for which [load_object] undoes [save_object]: no tuple, no
    numpy array, no FrozenDict. *)
Fixpoint plain (o : pyval) : bool :=
  match o with
  | PList l => forallb plain l
  | PDict d => forallb (fun '(_, v) => plain v) d
  | PTuple _ | PFrozenDict _ | PNdarray _ | PNdarray0 _ => false
  | _ => true
  end.

(** Values with no dict, no list and no numpy array at any depth. *)
Fixpoint frozen (o : pyval) : bool :=
  match o with
  | PTuple l => forallb frozen l
  | PFrozenDict d => forallb (fun '(_, v) => frozen v) d
  | PList _ | PDict _ | PNdarray _ | PNdarray0 _ => false
  | _ => true
  end.

(** ** Python operations the module relies on *)

(** [s.split(sep)] for a one-character separator: never the empty list. *)
Fixpoint str_split (sep : ascii) (s : string) : list string :=
  match s with
  | EmptyString => [EmptyString]
  | String c s' =>
      if Ascii.eqb c sep then EmptyString :: str_split sep s'
      else match str_split sep s' with
           | h :: t => String c h :: t
           | [] => [String c EmptyString]
           end
  end.

(** [l[0]] *)
Definition item0 {A} (l : list A) : result A :=
  match l with
  | x :: _ => Ok x
  | [] => Raise IndexError
  end.

(** The characters of a str: in UTF-8 every byte 10xxxxxx continues the
    character before it. *)
Definition continuation (c : ascii) : bool :=
  let n := N_of_ascii c in ((128 <=? n) && (n <? 192))%N.

Definition continued (s : string) : bool :=
  match s with
  | String c _ => continuation c
  | EmptyString => false
  end.

Fixpoint str_chars (s : string) : list string :=
  match s with
  | EmptyString => []
  | String c s' =>
      match str_chars s' with
      | g :: gs =>
          if continued s' then String c g :: gs
          else String c EmptyString :: g :: gs
      | [] => [String c EmptyString]
      end
  end.

(** [list(o)]: the items an iteration over [o] yields. *)
Definition py_iter (o : pyval) : result (list pyval) :=
  match o with
  | PList l | PTuple l | PNdarray l => Ok l
  | PDict d | PFrozenDict d => Ok (map PStr (dict_keys d))
  | PStr s => Ok (map PStr (str_chars s))
  | PBytes b => Ok (map (fun x => PInt (Z_of_byte x)) b)
  | PNone | PBool _ | PInt _ | PFloat _ | PNdarray0 _ => Raise TypeError
  end.

(** [a, b = o] *)
Definition unpack_pair (o : pyval) : result (pyval * pyval) :=
  l ← py_iter o;
  match l with
  | [a; b] => Ok (a, b)
  | _ => Raise ValueError
  end.

(** [o[key]] for a str [key]. *)
Definition py_getitem (o : pyval) (key : string) : result pyval :=
  match o with
  | PDict d | PFrozenDict d =>
      match dict_get d key with
      | Some v => Ok v
      | None => Raise KeyError
      end
  | PNdarray _ | PNdarray0 _ => Raise IndexError
  | _ => Raise TypeError
  end.

(** [len(o)] *)
Definition py_len (o : pyval) : result nat :=
  match o with
  | PList l | PTuple l | PNdarray l => Ok (length l)
  | PDict d | PFrozenDict d => Ok (length d)
  | PStr s => Ok (length (str_chars s))
  | PBytes b => Ok (length b)
  | PNone | PBool _ | PInt _ | PFloat _ | PNdarray0 _ => Raise TypeError
  end.

Fixpoint str_prefix (p s : string) : bool :=
  match p, s with
  | EmptyString, _ => true
  | String a p', String b s' => Ascii.eqb a b && str_prefix p' s'
  | String _ _, EmptyString => false
  end.

Fixpoint str_within (p s : string) : bool :=
  str_prefix p s
  || match s with
     | EmptyString => false
     | String _ s' => str_within p s'
     end.

(** [item in o] for a str [item]. *)
Definition py_contains (o : pyval) (item : string) : result bool :=
  match o with
  | PDict d | PFrozenDict d => Ok (bool_decide (is_Some (dict_get d item)))
  | PList l | PTuple l | PNdarray l =>
      Ok (existsb (fun x => match x with PStr s => String.eqb s item | _ => false end) l)
  | PStr s => Ok (str_within item s)
  | PNdarray0 x =>
      Ok (match x with PStr s => String.eqb s item | _ => false end)
  | _ => Raise TypeError
  end.

(** [o.keys()] *)
Definition py_keys (o : pyval) : result (list string) :=
  match o with
  | PDict d | PFrozenDict d => Ok (dict_keys d)
  | _ => Raise AttributeError
  end.

(** [o.values()] and [o.items()] *)
Definition py_values (o : pyval) : result (list pyval) :=
  match o with
  | PDict d | PFrozenDict d => Ok (map snd d)
  | _ => Raise AttributeError
  end.

Definition py_items (o : pyval) : result (list (string * pyval)) :=
  match o with
  | PDict d | PFrozenDict d => Ok d
  | _ => Raise AttributeError
  end.

(** [o.copy()]: [dict.copy] of a FrozenDict builds a dict; a tuple, a str
    and bytes have no such method. *)
Definition py_copy (o : pyval) : result pyval :=
  match o with
  | PDict d | PFrozenDict d => Ok (PDict d)
  | PList l => Ok (PList l)
  | PNdarray l => Ok (PNdarray l)
  | PNdarray0 x => Ok (PNdarray0 x)
  | _ => Raise AttributeError
  end.

(** ** The module *)

Inductive log_record : Type :=
| Debug_settings_not_found (file_path : string)
| Warning_settings_could_not_be_read (file_path : string)
| Debug_traceback
| Info_deprecated_format (file_path : string).

(** The files, by path.  Opening for reading raises IOError when there is
    no file; opening for writing creates or empties the file. *)
Abbreviation files := (gmap string (list byte)).

Definition open_rb (fs : files) (file_path : string) : result (list byte) :=
  match fs !! file_path with
  | Some content => Ok content
  | None => Raise IOError
  end.

Definition open_wb (fs : files) (file_path : string) : files :=
  <[file_path := []]> fs.

Section file_methods.

(** From the standard library: [os.path.expanduser], and the call
    [pickle.load(fh, raw=True)] on the content of [fh].  The functions
    leave the latter open; [pickle_load] below is what it does. *)
Variable expanduser : string -> string.
Variable pickle_load_raw : list byte -> result pyval.

Definition _load_object_legacy (fs : files) (file_path : string) : result pyval :=
  let file_path := expanduser file_path in
  fh ← open_rb fs file_path;
  pickle_load_raw fh.

Definition load_object (fs : files) (file_path : string) (allow_legacy : bool)
  : result pyval * list log_record :=
  let file_path := expanduser file_path in
  match open_rb fs file_path with
  | Raise e => (Raise e, [])
  | Ok fh =>
      match msgpack.unpackb true None fh with
      | Ok data => (Ok data, [])
      | Raise e =>
          if negb allow_legacy then (Raise e, [])
          else (_load_object_legacy fs file_path,
                [Info_deprecated_format file_path])
      end
  end.

(** The [default] hook of [save_object]; [msgpack.pack true] has it
    built in. *)
Definition ndarrray_to_list (o : pyval) : pyval :=
  match o with
  | PNdarray l => PList l
  | PNdarray0 x => x
  | _ => o
  end.

(** The warning [ndarrray_to_list] logs for the first array it meets is
    not recorded. *)
Definition save_object (object_ : pyval) (file_path : string) (fs : files)
  : result unit * files :=
  let file_path := expanduser file_path in
  let fs := open_wb fs file_path in
  match msgpack.pack true object_ with
  | Ok packed => (Ok (), <[file_path := packed]> fs)
  | Raise e => (Raise e, fs)
  end.

(** *** Persistent_Dict *)

Record Persistent_Dict : Type := {
  items : list (string * pyval);   (* the dict it is *)
  file_path : string
}.

(** The constructor; [init] is the dict that the superclass constructor
    builds from the remaining arguments. *)
Definition Persistent_Dict___init__ (fs : files) (file_path : string)
    (init : list (string * pyval)) : Persistent_Dict * list log_record :=
  let self_file_path := expanduser file_path in
  let self := {| items := init; file_path := self_file_path |} in
  match load_object fs self_file_path false with
  | (Ok (PDict d), log) =>
      ({| items := dict_update init d; file_path := self_file_path |}, log)
  | (Ok _, log) =>        (* keyword expansion of a non-mapping: TypeError *)
      (self, log ++ [Warning_settings_could_not_be_read self_file_path;
                     Debug_traceback])
  | (Raise IOError, log) =>
      (self, log ++ [Debug_settings_not_found self_file_path])
  | (Raise _, log) =>
      (self, log ++ [Warning_settings_could_not_be_read self_file_path;
                     Debug_traceback])
  end.

Definition Persistent_Dict_save (self : Persistent_Dict) (fs : files)
  : result unit * files :=
  let d := dict_update [] self.(items) in
  save_object (PDict d) self.(file_path) fs.

Definition Persistent_Dict_close (self : Persistent_Dict) (fs : files)
  : result unit * files :=
  Persistent_Dict_save self fs.

End file_methods.

(** What the call [pickle.load(fh, raw=True)] of [_load_object_legacy]
    does: [pickle.load] has no parameter [raw], so the call raises
    TypeError whatever the file holds. *)
Definition pickle_load (fh : list byte) : result pyval := Raise TypeError.

(** *** Serialized_Dict *)

(** A place inside a decoded value: the keys and indices that lead to it. *)
Inductive selector : Type :=
| Key (k : string)
| Index (i : nat).

Fixpoint nested (o : pyval) (path : list selector) : option pyval :=
  match path with
  | [] => Some o
  | Key k :: path' =>
      match o with
      | PDict d | PFrozenDict d =>
          match dict_get d k with
          | Some v => nested v path'
          | None => None
          end
      | _ => None
      end
  | Index i :: path' =>
      match o with
      | PList l | PTuple l | PNdarray l =>
          match l !! i with
          | Some v => nested v path'
          | None => None
          end
      | _ => None
      end
  end.

(** The value [o] once the object at [path] has become [new]. *)
Fixpoint replace_nested (o : pyval) (path : list selector) (new : pyval) : pyval :=
  match path with
  | [] => new
  | Key k :: path' =>
      match o with
      | PDict d =>
          match dict_get d k with
          | Some v => PDict (dict_set d k (replace_nested v path' new))
          | None => o
          end
      | PFrozenDict d =>
          match dict_get d k with
          | Some v => PFrozenDict (dict_set d k (replace_nested v path' new))
          | None => o
          end
      | _ => o
      end
  | Index i :: path' =>
      match o with
      | PList l =>
          match l !! i with
          | Some v => PList (<[i := replace_nested v path' new]> l)
          | None => o
          end
      | PTuple l =>
          match l !! i with
          | Some v => PTuple (<[i := replace_nested v path' new]> l)
          | None => o
          end
      | PNdarray l =>
          match l !! i with
          | Some v => PNdarray (<[i := replace_nested v path' new]> l)
          | None => o
          end
      | _ => o
      end
  end.

Module Serialized_Dict.

Definition cache_len : nat := 100.

(** What a slot of [_cache_ref] refers to: the one [Empty()] object the
    list is filled with at first, or a Serialized_Dict. *)
Inductive cache_entry : Type :=
| Empty_object
| Dict_object (id : nat).

#[global] Instance cache_entry_eq_dec : EqDecision cache_entry.
Proof. solve_decision. Defined.

Record instance : Type := {
  _ser_data : list byte;
  _data : pyval                (* [PNone] while not decoded *)
}.

(** The instances by identity, the class attribute [_cache_ref] they all
    share, and a count of the calls of [msgpack.loads] (kept for the
    statements about decoding; the program has no such counter). *)
Record state : Type := {
  heap : gmap nat instance;
  _cache_ref : list cache_entry;
  loads_calls : nat
}.

Definition initial : state :=
  {| heap := ∅; _cache_ref := replicate cache_len Empty_object; loads_calls := 0 |}.

(** **** FrozenDict: what it overrides, and what it inherits from dict *)
Module FrozenDict.
Definition t : Type := list (string * pyval).

Definition __setitem__ (self : t) (key : string) (value : pyval)
  : result unit * t := (Raise NotImplementedError, self).

Definition clear (self : t) : result unit * t :=
  (Raise NotImplementedError, self).

Definition update (self : t) (other : list (string * pyval))
  : result unit * t := (Raise NotImplementedError, self).

(** Not overridden: [dict.__delitem__], [dict.pop], [dict.setdefault]. *)
Definition __delitem__ (self : t) (key : string) : result unit * t :=
  match dict_get self key with
  | Some _ => (Ok (), dict_del self key)
  | None => (Raise KeyError, self)
  end.

Definition pop (self : t) (key : string) : result pyval * t :=
  match dict_get self key with
  | Some v => (Ok v, dict_del self key)
  | None => (Raise KeyError, self)
  end.

Definition setdefault (self : t) (key : string) (default : pyval)
  : result pyval * t :=
  match dict_get self key with
  | Some v => (Ok v, self)
  | None => (Ok default, dict_set self key default)
  end.
End FrozenDict.

(** [Serialized_Dict(mapping, payload)]; an argument left out is [PNone].
    [type(mapping) is dict] holds for a dict, not for a FrozenDict. *)
Definition __init__ (mapping payload : pyval) : result instance :=
  match mapping with
  | PDict _ =>
      packed ← msgpack.dumps mapping;
      Ok {| _ser_data := packed; _data := PNone |}
  | _ =>
      match payload with
      | PBytes b => Ok {| _ser_data := b; _data := PNone |}
      | _ => Raise Exception_
      end
  end.

(** A new instance enters the heap under an unused identity. *)
Definition new (mapping payload : pyval) (s : state) : result nat * state :=
  match __init__ mapping payload with
  | Ok obj =>
      let id := fresh (dom (heap s)) in
      (Ok id, {| heap := <[id := obj]> (heap s);
                 _cache_ref := _cache_ref s;
                 loads_calls := loads_calls s |})
  | Raise e => (Raise e, s)
  end.

Definition _object_hook (obj : pyval) : pyval :=
  match obj with
  | PDict d => PFrozenDict d
  | _ => PNone
  end.

(** [self._data] and [self._data = v] *)
Definition data_of (self : nat) (s : state) : pyval :=
  match heap s !! self with
  | Some obj => _data obj
  | None => PNone
  end.

Definition set_data (self : nat) (v : pyval) (s : state) : state :=
  {| heap := alter (fun obj => {| _ser_data := _ser_data obj; _data := v |}) self (heap s);
     _cache_ref := _cache_ref s;
     loads_calls := loads_calls s |}.

Definition set_cache (c : list cache_entry) (s : state) : state :=
  {| heap := heap s; _cache_ref := c; loads_calls := loads_calls s |}.

Definition count_loads (s : state) : state :=
  {| heap := heap s; _cache_ref := _cache_ref s; loads_calls := S (loads_calls s) |}.

Definition purge_cache (self : nat) (s : state) : state :=
  set_data self PNone s.

(** [purge_cache] of whatever a slot refers to; [Empty.purge_cache]
    does nothing. *)
Definition entry_purge_cache (e : cache_entry) (s : state) : state :=
  match e with
  | Empty_object => s
  | Dict_object id => purge_cache id s
  end.

(** An identity with no instance behind it does not arise in Python;
    the model answers [NotModelled]. *)
Definition _deser (self : nat) (s : state) : result unit * state :=
  match heap s !! self with
  | None => (Raise NotModelled, s)
  | Some obj =>
      if negb (truthy (_data obj)) then
        let s := count_loads s in
        match msgpack.loads false (Some _object_hook) (_ser_data obj) with
        | Raise e => (Raise e, s)
        | Ok v =>
            let s := set_data self v s in
            match _cache_ref s with
            | [] => (Raise IndexError, s)
            | oldest :: rest =>
                let s := set_cache rest s in
                let s := entry_purge_cache oldest s in
                (Ok (), set_cache (_cache_ref s ++ [Dict_object self]) s)
            end
        end
      else (Ok (), s)
  end.

(** The readers: [self._deser()], then the operation on [self._data]. *)
Definition reading {A} (op : pyval -> result A) (self : nat) (s : state)
  : result A * state :=
  match _deser self s with
  | (Ok _, s') => (op (data_of self s'), s')
  | (Raise e, s') => (Raise e, s')
  end.

Definition __getitem__ (self : nat) (key : string) : state -> result pyval * state :=
  reading (fun d => py_getitem d key) self.

Definition __len__ (self : nat) : state -> result nat * state :=
  reading py_len self.

Definition has_key (self : nat) (k : string) : state -> result bool * state :=
  reading (fun d => py_contains d k) self.

Definition __contains__ (self : nat) (item : string) : state -> result bool * state :=
  reading (fun d => py_contains d item) self.

Definition keys (self : nat) : state -> result (list string) * state :=
  reading py_keys self.

Definition values (self : nat) : state -> result (list pyval) * state :=
  reading py_values self.

Definition items (self : nat) : state -> result (list (string * pyval)) * state :=
  reading py_items self.

Definition copy (self : nat) : state -> result pyval * state :=
  reading py_copy self.

Definition __iter__ (self : nat) : state -> result (list pyval) * state :=
  reading py_iter self.

(** [get] indexes with the constant ['key'], and answers [default] when
    that raises KeyError. *)
Definition get (self : nat) (key : string) (default : pyval) (s : state)
  : result pyval * state :=
  match __getitem__ self "key" s with
  | (Raise KeyError, s') => (Ok default, s')
  | r => r
  end.

(** The writers raise before anything else. *)
Definition __setitem__ (self : nat) (key : string) (item : pyval) (s : state)
  : result unit * state := (Raise NotImplementedError, s).

Definition __delitem__ (self : nat) (key : string) (s : state)
  : result unit * state := (Raise NotImplementedError, s).

Definition clear (self : nat) (s : state) : result unit * state :=
  (Raise NotImplementedError, s).

Definition update (self : nat) (other : list (string * pyval)) (s : state)
  : result unit * state := (Raise NotImplementedError, s).

Definition pop (self : nat) (key : string) (s : state) : result pyval * state :=
  (Raise NotImplementedError, s).

(** A method of the FrozenDict found at [path] inside the decoded value
    of [self], called through a reference the caller obtained by
    reading: the object is changed where it is, inside [self._data]. *)
Definition on_nested {A} (method : FrozenDict.t -> result A * FrozenDict.t)
    (self : nat) (path : list selector) (s : state) : result A * state :=
  match nested (data_of self s) path with
  | Some (PFrozenDict d) =>
      let '(r, d') := method d in
      (r, set_data self (replace_nested (data_of self s) path (PFrozenDict d')) s)
  | _ => (Raise NotModelled, s)
  end.

(** **** Runs of accesses *)

(** [self._deser()] for each of [ids] in turn. *)
Definition decode_all (ids : list nat) (s : state) : state :=
  foldl (fun s self => (_deser self s).2) s ids.

(** What a client does with the class: build an instance, call a reader
    of an instance (each starts with [self._deser()]), call [purge_cache]
    of an instance. *)
Inductive action : Type :=
| Create (mapping payload : pyval)
| Access (self : nat)
| Purge (self : nat).

Definition perform (s : state) (a : action) : state :=
  match a with
  | Create mapping payload => (new mapping payload s).2
  | Access self => (_deser self s).2
  | Purge self => purge_cache self s
  end.

Definition run (actions : list action) (s : state) : state :=
  foldl perform s actions.

Definition is_None (v : pyval) : bool :=
  match v with
  | PNone => true
  | _ => false
  end.

(** The instances that hold a decoded value. *)
Definition live (s : state) : gmap nat instance :=
  filter (fun kv => is_None (_data kv.2) = false) (heap s).

(** An instance that holds no decoded value and whose bytes decode. *)
Definition ready (s : state) (self : nat) : bool :=
  match heap s !! self with
  | Some obj =>
      is_None (_data obj)
      && is_Ok (msgpack.loads false (Some _object_hook) (_ser_data obj))
  | None => false
  end.

(** Every instance that holds a decoded value is referred to by the
    cache. *)
Definition tracked (s : state) : Prop :=
  map_Forall (fun self obj =>
    is_None (_data obj) = false -> Dict_object self ∈ _cache_ref s) (heap s).

(** The instances of [l] are those the cache refers to, in the order of
    [l], its first apart, which holds no value that is true; all have
    bytes that decode to a value that is true. *)
Definition rotating (l : list nat) (s : state) : Prop :=
  NoDup l
  /\ _cache_ref s = map Dict_object (tail l)
  /\ tail l <> []
  /\ forall k, k ∈ l ->
       exists obj v, heap s !! k = Some obj
         /\ msgpack.loads false (Some _object_hook) (_ser_data obj) = Ok v
         /\ truthy v = true
         /\ truthy (_data obj) = negb (bool_decide (head l = Some k)).

(** **** Decodes, for the statements about the cache *)

(** The instance [k] after a decode of [self] that took [e] from the
    front of the cache. *)
Definition after_decode (self : nat) (v : pyval) (e : cache_entry) (k : nat)
    (obj : instance) : instance :=
  {| _ser_data := _ser_data obj;
     _data := if decide (e = Dict_object k) then PNone
              else if decide (k = self) then v else _data obj |}.

(** A decode of [self] that finds no decoded value, succeeds with [v] and
    takes [e] from the front of the cache. *)
Record miss (s : state) (self : nat) (v : pyval) (e : cache_entry)
    (s' : state) : Prop := {
  miss_result : _deser self s = (Ok (), s');
  miss_loads : exists obj, heap s !! self = Some obj
                           /\ msgpack.loads false (Some _object_hook) (_ser_data obj) = Ok v;
  miss_front : head (_cache_ref s) = Some e;
  miss_cache : _cache_ref s' = tail (_cache_ref s) ++ [Dict_object self];
  miss_calls : loads_calls s' = S (loads_calls s);
  miss_heap : forall k, heap s' !! k = after_decode self v e k <$> heap s !! k
}.

Definition entry_id (e : cache_entry) : option nat :=
  match e with
  | Dict_object id => Some id
  | Empty_object => None
  end.

End Serialized_Dict.

(** *** Pupil data files *)

(** The body of the loop of [load_pupil_data_file] for one object of the
    stream. *)
Definition load_frame (item : pyval) (pupil_data : gmap string (list Serialized_Dict.instance))
  : result (gmap string (list Serialized_Dict.instance)) :=
  '(topic, payload) ← unpack_pair item;
  topic ← match topic with
          | PStr t => item0 (str_split "." t)
          | PBytes _ => Raise TypeError
          | _ => Raise AttributeError
          end;
  let pupil_data :=
    match pupil_data !! topic with
    | Some _ => pupil_data
    | None => <[topic := []]> pupil_data
    end in
  sd ← Serialized_Dict.__init__ PNone payload;
  Ok (<[topic := default [] (pupil_data !! topic) ++ [sd]]> pupil_data).

(** Iteration over [msgpack.Unpacker(fh, raw=False, use_list=False)]: it
    ends when the stream holds no further complete object.  Every object
    takes at least one byte, so [fuel = length bs] rounds suffice. *)
Fixpoint load_frames (fuel : nat) (bs : list byte)
    (pupil_data : gmap string (list Serialized_Dict.instance))
  : result (gmap string (list Serialized_Dict.instance)) :=
  match msgpack.unpack false None (S (length bs)) bs with
  | Raise OutOfData => Ok pupil_data
  | Raise e => Raise e
  | Ok (item, rest) =>
      match fuel with
      | O => Ok pupil_data
      | S fuel' =>
          pupil_data ← load_frame item pupil_data;
          load_frames fuel' rest pupil_data
      end
  end.

Definition load_pupil_data_file (fs : files) (file_path : string)
  : result (gmap string (list Serialized_Dict.instance)) :=
  fh ← open_rb fs file_path;
  load_frames (length fh) fh ∅.

(** One frame of [save_pupil_data_file]. *)
Definition save_frame (datum : pyval) : result (list byte) :=
  topic ← py_getitem datum "topic";
  packed ← msgpack.dumps datum;
  msgpack.pack false (PTuple [topic; PBytes packed]).

(** The loop of [save_pupil_data_file]: what has been written when it
    ends or raises. *)
Fixpoint save_frames (data : list pyval) (written : list byte)
  : result unit * list byte :=
  match data with
  | [] => (Ok (), written)
  | datum :: data' =>
      match save_frame datum with
      | Ok frame => save_frames data' (written ++ frame)
      | Raise e => (Raise e, written)
      end
  end.

(** The file is opened under the name ["file_path"], whatever the
    argument [file_path]. *)
Definition save_pupil_data_file (file_path : string) (data : list pyval) (fs : files)
  : result unit * files :=
  let fs := open_wb fs "file_path" in
  let '(r, written) := save_frames data [] in
  (r, <["file_path" := written]> fs).

(** The record log on disk: frames back to back, each the msgpack array
    of a topic and the bytes of a record. *)
Definition frame_bytes (frame : string * list byte) : result (list byte) :=
  msgpack.pack false (PTuple [PStr frame.1; PBytes frame.2]).

Fixpoint stream_bytes (frames : list (string * list byte)) : result (list byte) :=
  match frames with
  | [] => Ok []
  | frame :: frames' =>
      a ← frame_bytes frame; b ← stream_bytes frames'; Ok (a ++ b)
  end.

(** The part of a topic before its first dot. *)
Definition first_segment (topic : string) : string :=
  match str_split "." topic with
  | h :: _ => h
  | [] => EmptyString
  end.

(** The undecoded instance over the bytes of a record. *)
Definition record_of (payload : list byte) : Serialized_Dict.instance :=
  {| Serialized_Dict._ser_data := payload; Serialized_Dict._data := PNone |}.

(** The records a reader owes for group [g]: one undecoded instance for
    each frame of the group, in the order of the file. *)
Definition records_of (g : string) (frames : list (string * list byte))
  : list Serialized_Dict.instance :=
  map (fun frame => record_of frame.2)
      (filter (fun frame => first_segment frame.1 = g) frames).

Abbreviation groups := (gmap string (list Serialized_Dict.instance)).

(** What one frame adds to the groups. *)
Definition add_frame (m : groups) (frame : string * list byte) : groups :=
  <[first_segment frame.1 := default [] (m !! first_segment frame.1) ++ [record_of frame.2]]> m.

(** *** next_export_sub_dir *)

Definition is_slash (c : ascii) : bool := Ascii.eqb c "/".

(** [s.rstrip('/')], on the characters in reverse. *)
Fixpoint lstrip_slashes (l : list ascii) : list ascii :=
  match l with
  | c :: l' => if is_slash c then lstrip_slashes l' else l
  | [] => []
  end.

Definition rstrip_slashes (s : string) : string :=
  string_of_list_ascii (rev (lstrip_slashes (rev (list_ascii_of_string s)))).

Definition ends_with_slash (s : string) : bool :=
  match rev (list_ascii_of_string s) with
  | c :: _ => is_slash c
  | [] => false
  end.

(** [os.path.join(a, b)] and [os.path.split(p)] of posixpath. *)
Definition os_path_join (a b : string) : string :=
  if str_prefix "/" b then b
  else if String.eqb a "" || ends_with_slash a then a ++ b
  else a ++ "/" ++ b.

Definition os_path_split (p : string) : string * string :=
  let tail := List.last (str_split "/" p) EmptyString in
  let head := substring 0 (String.length p - String.length tail)%nat p in
  (if negb (String.eqb head "")
      && existsb (fun c => negb (is_slash c)) (list_ascii_of_string head)
   then rstrip_slashes head else head,
   tail).

(** [glob.has_magic] *)
Definition has_magic (s : string) : bool :=
  existsb (fun c => Ascii.eqb c "*" || Ascii.eqb c "?" || Ascii.eqb c "[")
          (list_ascii_of_string s).

Definition is_digit (c : ascii) : bool :=
  ((48 <=? N_of_ascii c) && (N_of_ascii c <=? 57))%N.

(** [fnmatch(name, '[0-9][0-9][0-9]')] *)
Definition three_digits (name : string) : bool :=
  match name with
  | String a (String b (String c EmptyString)) =>
      is_digit a && is_digit b && is_digit c
  | _ => false
  end.

(** [sorted] on strs: by code points, which is by bytes in UTF-8. *)
Definition str_le (a b : string) : Prop := String.leb a b = true.

#[global] Instance str_le_dec : RelDecision str_le.
Proof. intros a b. unfold str_le. apply _. Defined.

Definition sorted (l : list string) : list string := merge_sort str_le l.

(** [int(s)] for a str of ASCII digits; the other literals [int] takes,
    and the ValueError for the rest, are not modelled. *)
Definition py_int (s : string) : result Z :=
  let chars := list_ascii_of_string s in
  if negb (String.eqb s "") && forallb is_digit chars then
    Ok (fold_left (fun acc c => 10 * acc + (Z.of_N (N_of_ascii c) - 48)) chars 0)%Z
  else Raise NotModelled.

(** [str(n)] for [n >= 0], and ['{:03d}'.format(n)]: zeros after the sign
    up to three characters in all. *)
Definition str_of_N (n : N) : string := NilZero.string_of_uint (N.to_uint n).

Definition zfill (width : nat) (s : string) : string :=
  string_of_list_ascii (replicate (width - String.length s)%nat "0"%char) ++ s.

Definition format_03d (n : Z) : string :=
  if (n <? 0)%Z then "-" ++ zfill 2 (str_of_N (Z.to_N (- n)))
  else zfill 3 (str_of_N (Z.to_N n)).

Section next_export_sub_dir.

(** The names of the entries of a directory, in the order the system
    yields them; none when there is no such directory.  [""] is the
    current directory. *)
Variable listdir : string -> list string.

(** [iglob(pattern)] for a pattern whose last component is
    ['[0-9][0-9][0-9]'] and whose directory part has no wildcard. *)
Definition iglob (pattern : string) : result (list string) :=
  let '(dirname, basename) := os_path_split pattern in
  if has_magic dirname || negb (String.eqb basename "[0-9][0-9][0-9]")
  then Raise NotModelled
  else Ok (map (os_path_join dirname)
               (filter (fun name => three_digits name = true) (listdir dirname))).

Definition next_export_sub_dir (root_export_dir : string) : result string :=
  let pattern := os_path_join root_export_dir "[0-9][0-9][0-9]" in
  existing ← iglob pattern;
  let existing_subs := sorted existing in
  next_sub_dir ←
    match last existing_subs with
    | Some path =>
        let latest := (os_path_split path).2 in
        n ← py_int latest;
        Ok (format_03d (n + 1))
    | None => Ok "000"          (* IndexError *)
    end;
  Ok (os_path_join root_export_dir next_sub_dir).

End next_export_sub_dir.

(** ** Statements about the codec *)

Section pyval_induction.
Variable P : pyval -> Prop.
Hypothesis HNone : P PNone.
Hypothesis HBool : forall b, P (PBool b).
Hypothesis HInt : forall z, P (PInt z).
Hypothesis HFloat : forall bits, P (PFloat bits).
Hypothesis HStr : forall s, P (PStr s).
Hypothesis HBytes : forall b, P (PBytes b).
Hypothesis HList : forall l, Forall P l -> P (PList l).
Hypothesis HTuple : forall l, Forall P l -> P (PTuple l).
Hypothesis HDict : forall d, Forall (fun kv => P kv.2) d -> P (PDict d).
Hypothesis HFrozenDict : forall d, Forall (fun kv => P kv.2) d -> P (PFrozenDict d).
Hypothesis HNdarray : forall l, Forall P l -> P (PNdarray l).
Hypothesis HNdarray0 : forall x, P x -> P (PNdarray0 x).

Fixpoint pyval_nested_ind (o : pyval) : P o :=
  let all :=
    fix all (l : list pyval) : Forall P l :=
      match l with
      | [] => Forall_nil_2 P
      | x :: l' => Forall_cons_2 P x l' (pyval_nested_ind x) (all l')
      end in
  let all_items :=
    fix all_items (d : list (string * pyval)) : Forall (fun kv => P kv.2) d :=
      match d with
      | [] => Forall_nil_2 _
      | kv :: d' =>
          Forall_cons_2 (fun kv => P kv.2) kv d' (pyval_nested_ind kv.2) (all_items d')
      end in
  match o with
  | PNone => HNone
  | PBool b => HBool b
  | PInt z => HInt z
  | PFloat bits => HFloat bits
  | PStr s => HStr s
  | PBytes b => HBytes b
  | PList l => HList l (all l)
  | PTuple l => HTuple l (all l)
  | PDict d => HDict d (all_items d)
  | PFrozenDict d => HFrozenDict d (all_items d)
  | PNdarray l => HNdarray l (all l)
  | PNdarray0 x => HNdarray0 x (pyval_nested_ind x)
  end.
End pyval_induction.

(** What the round trip says of one value: its bytes, packed with any
    limit and followed by anything, are read back as [decoded] of it. *)
Definition reads_back (use_list : bool) (object_hook : option (pyval -> pyval))
    (default : bool) (o : pyval) : Prop :=
  wf o = true ->
  forall nest_limit bs fuel rest,
    msgpack._pack default nest_limit o = Ok bs -> (length bs <= fuel)%nat ->
    msgpack.unpack use_list object_hook fuel (bs ++ rest)
    = Ok (decoded use_list object_hook o, rest).

(** [_pack] has a result for the value [o] wherever [o] is packable. *)
Definition packs (default : bool) (o : pyval) : Prop :=
  forall nest_limit,
    packable_at default nest_limit o = true ->
    exists bs, msgpack._pack default nest_limit o = Ok bs.

(** The exceptions the unpacker raises on bytes it cannot read, the
    nesting bound apart. *)
Definition unreadable (e : exn) : bool :=
  match e with
  | OutOfData | FormatError | NotModelled => true
  | _ => false
  end.

(** A reading step that raises nothing but these and leaves at most [L]
    bytes. *)
Definition within {A} (L : nat) (res : result (A * list byte)) : Prop :=
  (forall e, res = Raise e -> unreadable e = true)
  /\ forall a r, res = Ok (a, r) -> (length r <= L)%nat.

(** A datum and the frame the writer makes of it. *)
Definition framed (datum : pyval) (frame : string * list byte) : Prop :=
  py_getitem datum "topic" = Ok (PStr frame.1)
  /\ msgpack.dumps datum = Ok frame.2
  /\ is_Ok (frame_bytes frame) = true.

(** ** Sample inputs *)

Section Samples.
Import Serialized_Dict.

Definition roundtrip_tuple : pyval := PTuple [PInt 1; PInt 2].

Definition sample_datum : pyval :=
  PDict [("topic", PStr "pupil.0"); ("confidence", PInt 1)].

(** The state in which one record, built from [mapping], is the only
    instance. *)
Definition one_record (mapping : pyval) : state := (new mapping PNone initial).2.

(** The bytes of [{"a": 1}], and the state after a file of [n] such records
    has been loaded by a fresh process. *)
Definition sample_payload : list byte := [x81; xa1; "a"%byte; x01].

Definition loaded (n : nat) : state :=
  {| heap := list_to_map (map (fun i => (i, record_of sample_payload)) (seq 0%nat n));
     _cache_ref := replicate cache_len Empty_object;
     loads_calls := 0 |}.

(** One record over the empty mapping. *)
Definition empty_record_state : state :=
  {| heap := {[ 0%nat := record_of [x80] ]};
     _cache_ref := replicate cache_len Empty_object;
     loads_calls := 0 |}.




End Samples.

(** * Properties *)

(** ** Big-endian integers *)

Section BytesFacts.

Lemma Z_of_byte_range b : 0 <= Z_of_byte b < 256.
Proof.
  unfold Z_of_byte. pose proof (Byte.to_N_bounded b). lia.
Qed.

Lemma byte_of_Z_of_byte b : byte_of_Z (Z_of_byte b) = b.
Proof.
  unfold byte_of_Z. pose proof (Z_of_byte_range b) as Hr.
  rewrite Z.mod_small by lia. unfold Z_of_byte.
  rewrite N2Z.id, Byte.of_to_N. reflexivity.
Qed.

Lemma Z_of_byte_of_Z z : Z_of_byte (byte_of_Z z) = z mod 256.
Proof.
  unfold byte_of_Z, Z_of_byte.
  pose proof (Z.mod_pos_bound z 256 ltac:(lia)) as Hr.
  destruct (Byte.of_N (Z.to_N (z mod 256))) as [b|] eqn:E.
  - apply Byte.to_of_N in E. rewrite E. lia.
  - apply Byte.of_N_None_iff in E. lia.
Qed.

Lemma be_bytes_length n z : length (be_bytes n z) = n.
Proof. induction n as [|n IH]; simpl; [reflexivity | now rewrite IH]. Qed.

Lemma be_value_from_bytes n : forall acc z,
  be_value_from acc (be_bytes n z) = acc * 256 ^ Z.of_nat n + z mod 256 ^ Z.of_nat n.
Proof.
  induction n as [|n IH]; intros acc z.
  - simpl. rewrite Z.mod_1_r. lia.
  - cbn [be_bytes be_value_from]. rewrite IH, Z_of_byte_of_Z.
    rewrite Z.shiftr_div_pow2 by lia.
    replace (2 ^ (8 * Z.of_nat n)) with (256 ^ Z.of_nat n)
      by (change 256 with (2 ^ 8); rewrite <- Z.pow_mul_r by lia; reflexivity).
    rewrite Nat2Z.inj_succ, Z.pow_succ_r by lia.
    assert (Hp : 0 < 256 ^ Z.of_nat n) by (apply Z.pow_pos_nonneg; lia).
    rewrite (Z.mul_comm 256 (256 ^ Z.of_nat n)).
    rewrite (Z.rem_mul_r z (256 ^ Z.of_nat n) 256) by lia.
    lia.
Qed.

Lemma be_value_bytes n z :
  0 <= z < 256 ^ Z.of_nat n -> be_value (be_bytes n z) = z.
Proof.
  intros Hz. unfold be_value. rewrite be_value_from_bytes.
  rewrite Z.mod_small by lia. lia.
Qed.

Lemma to_signed_wrap w z :
  0 < w -> - 2 ^ (w - 1) <= z < 0 -> to_signed w (z mod 2 ^ w) = z.
Proof.
  intros Hw Hz. unfold to_signed.
  assert (H2 : 2 ^ w = 2 * 2 ^ (w - 1)).
  { replace w with (Z.succ (w - 1)) at 1 by lia. apply Z.pow_succ_r. lia. }
  assert (Hp : 0 < 2 ^ (w - 1)) by (apply Z.pow_pos_nonneg; lia).
  assert (Hm : z mod 2 ^ w = z + 2 ^ w).
  { symmetry. apply Z.mod_unique_pos with (q := -1); lia. }
  rewrite Hm. destruct (Z.ltb_spec (z + 2 ^ w) (2 ^ (w - 1))); lia.
Qed.

End BytesFacts.

(** ** The codec: what is packed is read back *)

Ltac zb :=
  repeat match goal with
  | |- context [?a <? ?b] =>
      first [ rewrite (proj2 (Z.ltb_lt a b)) by lia
            | rewrite (proj2 (Z.ltb_ge a b)) by lia ]
  | |- context [?a <=? ?b] =>
      first [ rewrite (proj2 (Z.leb_le a b)) by lia
            | rewrite (proj2 (Z.leb_gt a b)) by lia ]
  | |- context [?a =? ?b] =>
      first [ rewrite (proj2 (Z.eqb_eq a b)) by lia
            | rewrite (proj2 (Z.eqb_neq a b)) by lia ]
  end.

Ltac split_ltb :=
  repeat match goal with
  | |- context [if ?a <? ?b then _ else _] => destruct (Z.ltb_spec a b)
  end.

Lemma Ok_inj {A} (a b : A) : Ok a = Ok b -> a = b.
Proof. congruence. Qed.

Lemma pow_256 n : 256 ^ Z.of_nat n = 2 ^ (8 * Z.of_nat n).
Proof. change 256 with (2 ^ 8). rewrite <- Z.pow_mul_r by lia. reflexivity. Qed.

Lemma to_signed_be (w : nat) z :
  (0 < w)%nat -> - 2 ^ (8 * Z.of_nat w - 1) <= z < 0 ->
  to_signed (8 * Z.of_nat w) (z mod 256 ^ Z.of_nat w) = z.
Proof. intros Hw Hz. rewrite pow_256. apply to_signed_wrap; lia. Qed.

Lemma bind_Ok {A B} (r : result A) (k : A -> result B) b :
  (r ≫= k) = Ok b -> exists a, r = Ok a /\ k a = Ok b.
Proof. destruct r as [a|e]; [eauto | discriminate]. Qed.

Ltac inv_bind H :=
  repeat match type of H with
  | (_ ≫= _) = Ok _ =>
      let a := fresh "a" in let Ha := fresh "H" a in
      apply bind_Ok in H; destruct H as (a & Ha & H)
  end;
  try (apply Ok_inj in H).

Lemma keys_distinct_NoDup ks : keys_distinct ks = true <-> NoDup ks.
Proof.
  induction ks as [|k ks IH]; simpl.
  - split; [constructor | reflexivity].
  - rewrite andb_true_iff, negb_true_iff, IH, NoDup_cons.
    assert (H : existsb (String.eqb k) ks = false <-> k ∉ ks); [|tauto].
    rewrite <- not_true_iff_false, existsb_exists. split.
    + intros H Hin. apply H. exists k. split; [now apply list_elem_of_In | apply String.eqb_refl].
    + intros H (x & Hx & Heq). apply String.eqb_eq in Heq. subst x.
      apply H. now apply list_elem_of_In.
Qed.

Lemma dict_set_fresh {A} (d : list (string * A)) k v :
  k ∉ map fst d -> dict_set d k v = d ++ [(k, v)].
Proof.
  induction d as [|[k' v'] d IH]; simpl; intros Hk; [reflexivity|].
  apply not_elem_of_cons in Hk as [Hne Hk].
  destruct (String.eqb_spec k' k) as [->|_]; [congruence|].
  now rewrite IH.
Qed.

Section CodecFacts.
Variable use_list : bool.
Variable object_hook : option (pyval -> pyval).
Local Abbreviation unpack := (msgpack.unpack use_list object_hook).

Lemma read_n_app (a rest : list byte) :
msgpack.read_n (length a) (a ++ rest) = Ok (a, rest).
Proof.
unfold msgpack.read_n.
destruct (Nat.ltb_spec (length (a ++ rest)) (length a)) as [H|H].
- rewrite length_app in H. lia.
- now rewrite take_app_length, drop_app_length.
Qed.

Lemma read_uint_be n z rest :
msgpack.read_uint n (be_bytes n z ++ rest) = Ok (z mod 256 ^ Z.of_nat n, rest).
Proof.
unfold msgpack.read_uint.
rewrite <- (be_bytes_length n z) at 1. rewrite read_n_app. simpl.
unfold be_value. rewrite be_value_from_bytes. reflexivity.
Qed.

Lemma read_uint_small n z rest :
0 <= z < 256 ^ Z.of_nat n ->
msgpack.read_uint n (be_bytes n z ++ rest) = Ok (z, rest).
Proof. intros H. rewrite read_uint_be, Z.mod_small by lia. reflexivity. Qed.

(** The first byte of an object decides how the rest is read. *)
Lemma unpack_tag fuel (b : byte) (r : list byte) :
unpack (S fuel) (b :: r) =
  let u := unpack fuel in
  let t := Z_of_byte b in
  if t <? 0x80 then Ok (PInt t, r)
  else if t <? 0x90 then
    '(d, r') ← msgpack.unpack_items u (Z.to_nat (t - 0x80)) r [];
    Ok (msgpack.mk_map object_hook d, r')
  else if t <? 0xa0 then
    '(vs, r') ← msgpack.unpack_seq u (Z.to_nat (t - 0x90)) r;
    Ok (msgpack.mk_array use_list vs, r')
  else if t <? 0xc0 then
    '(s, r') ← msgpack.read_n (Z.to_nat (t - 0xa0)) r;
    Ok (PStr (string_of_list_byte s), r')
  else if 0xe0 <=? t then Ok (PInt (t - 256), r)
  else unpack (S fuel) (b :: r).
Proof.
cbn [msgpack.unpack]. cbv zeta.
repeat match goal with
| |- (if ?c then _ else _) = (if ?c then _ else _) => destruct c; [reflexivity|]
end.
reflexivity.
Qed.

Lemma unpack_pack_int z bs fuel rest :
msgpack.pack_int z = Ok bs ->
unpack (S fuel) (bs ++ rest) = Ok (PInt z, rest).
Proof.
unfold msgpack.pack_int. split_ltb; intros Hbs; try discriminate;
  apply Ok_inj in Hbs; subst bs.
- change (unpack (S fuel) ((xd3 :: be_bytes 8 z) ++ rest))
    with ('(n, r') ← msgpack.read_uint 8 (be_bytes 8 z ++ rest);
          Ok (PInt (to_signed (8 * Z.of_nat 8) n), r')).
  rewrite read_uint_be. cbn [mbind result_bind].
  rewrite to_signed_be by (simpl; lia). reflexivity.
- change (unpack (S fuel) ((xd2 :: be_bytes 4 z) ++ rest))
    with ('(n, r') ← msgpack.read_uint 4 (be_bytes 4 z ++ rest);
          Ok (PInt (to_signed (8 * Z.of_nat 4) n), r')).
  rewrite read_uint_be. cbn [mbind result_bind].
  rewrite to_signed_be by (simpl; lia). reflexivity.
- change (unpack (S fuel) ((xd1 :: be_bytes 2 z) ++ rest))
    with ('(n, r') ← msgpack.read_uint 2 (be_bytes 2 z ++ rest);
          Ok (PInt (to_signed (8 * Z.of_nat 2) n), r')).
  rewrite read_uint_be. cbn [mbind result_bind].
  rewrite to_signed_be by (simpl; lia). reflexivity.
- change (unpack (S fuel) ((xd0 :: be_bytes 1 z) ++ rest))
    with ('(n, r') ← msgpack.read_uint 1 (be_bytes 1 z ++ rest);
          Ok (PInt (to_signed (8 * Z.of_nat 1) n), r')).
  rewrite read_uint_be. cbn [mbind result_bind].
  rewrite to_signed_be by (simpl; lia). reflexivity.
- change (be_bytes 1 z ++ rest) with (byte_of_Z z :: rest).
  rewrite unpack_tag. cbv zeta. rewrite Z_of_byte_of_Z.
  destruct (Z.ltb_spec z 0).
  + replace (z mod 256) with (z + 256)
      by (apply Z.mod_unique_pos with (q := -1); lia).
    zb. replace (z + 256 - 256) with z by lia. reflexivity.
  + rewrite Z.mod_small by lia. zb. reflexivity.
- change (unpack (S fuel) ((xcc :: be_bytes 1 z) ++ rest))
    with ('(n, r') ← msgpack.read_uint 1 (be_bytes 1 z ++ rest); Ok (PInt n, r')).
  rewrite read_uint_small by lia. reflexivity.
- change (unpack (S fuel) ((xcd :: be_bytes 2 z) ++ rest))
    with ('(n, r') ← msgpack.read_uint 2 (be_bytes 2 z ++ rest); Ok (PInt n, r')).
  rewrite read_uint_small by lia. reflexivity.
- change (unpack (S fuel) ((xce :: be_bytes 4 z) ++ rest))
    with ('(n, r') ← msgpack.read_uint 4 (be_bytes 4 z ++ rest); Ok (PInt n, r')).
  rewrite read_uint_small by lia. reflexivity.
- change (unpack (S fuel) ((xcf :: be_bytes 8 z) ++ rest))
    with ('(n, r') ← msgpack.read_uint 8 (be_bytes 8 z ++ rest); Ok (PInt n, r')).
  rewrite read_uint_small by lia. reflexivity.
Qed.

Lemma unpack_pack_str s bs fuel rest :
msgpack.pack_str s = Ok bs ->
unpack (S fuel) (bs ++ rest) = Ok (PStr s, rest).
Proof.
unfold msgpack.pack_str, msgpack.pack_str_header.
set (raw := list_byte_of_string s).
assert (Hs : string_of_list_byte raw = s) by apply string_of_list_byte_of_string.
split_ltb; intros Hbs; try discriminate; apply Ok_inj in Hbs; subst bs.
- change ((be_bytes 1 (0xa0 + Z.of_nat (length raw)) ++ raw) ++ rest)
    with (byte_of_Z (0xa0 + Z.of_nat (length raw)) :: raw ++ rest).
  rewrite unpack_tag. cbv zeta. rewrite Z_of_byte_of_Z, Z.mod_small by lia. zb.
  replace (Z.to_nat _) with (length raw) by lia.
  rewrite read_n_app. cbn. now rewrite Hs.
- change (unpack (S fuel) (((xd9 :: be_bytes 1 (Z.of_nat (length raw))) ++ raw) ++ rest))
    with ('(n, r') ← msgpack.read_uint 1 (be_bytes 1 (Z.of_nat (length raw)) ++ raw ++ rest);
          '(s, r'') ← msgpack.read_n (Z.to_nat n) r';
          Ok (PStr (string_of_list_byte s), r'')).
  rewrite read_uint_small by lia. cbn [mbind result_bind].
  rewrite Nat2Z.id, read_n_app. cbn. now rewrite Hs.
- change (unpack (S fuel) (((xda :: be_bytes 2 (Z.of_nat (length raw))) ++ raw) ++ rest))
    with ('(n, r') ← msgpack.read_uint 2 (be_bytes 2 (Z.of_nat (length raw)) ++ raw ++ rest);
          '(s, r'') ← msgpack.read_n (Z.to_nat n) r';
          Ok (PStr (string_of_list_byte s), r'')).
  rewrite read_uint_small by lia. cbn [mbind result_bind].
  rewrite Nat2Z.id, read_n_app. cbn. now rewrite Hs.
- change (unpack (S fuel) (((xdb :: be_bytes 4 (Z.of_nat (length raw))) ++ raw) ++ rest))
    with ('(n, r') ← msgpack.read_uint 4 (be_bytes 4 (Z.of_nat (length raw)) ++ raw ++ rest);
          '(s, r'') ← msgpack.read_n (Z.to_nat n) r';
          Ok (PStr (string_of_list_byte s), r'')).
  rewrite read_uint_small by lia. cbn [mbind result_bind].
  rewrite Nat2Z.id, read_n_app. cbn. now rewrite Hs.
Qed.

Lemma unpack_pack_bin b bs fuel rest :
msgpack.pack_bin b = Ok bs ->
unpack (S fuel) (bs ++ rest) = Ok (PBytes b, rest).
Proof.
unfold msgpack.pack_bin, msgpack.pack_bin_header.
split_ltb; intros Hbs; try discriminate; apply Ok_inj in Hbs; subst bs.
- change (unpack (S fuel) (((xc4 :: be_bytes 1 (Z.of_nat (length b))) ++ b) ++ rest))
    with ('(n, r') ← msgpack.read_uint 1 (be_bytes 1 (Z.of_nat (length b)) ++ b ++ rest);
          '(s, r'') ← msgpack.read_n (Z.to_nat n) r'; Ok (PBytes s, r'')).
  rewrite read_uint_small by lia. cbn [mbind result_bind].
  now rewrite Nat2Z.id, read_n_app.
- change (unpack (S fuel) (((xc5 :: be_bytes 2 (Z.of_nat (length b))) ++ b) ++ rest))
    with ('(n, r') ← msgpack.read_uint 2 (be_bytes 2 (Z.of_nat (length b)) ++ b ++ rest);
          '(s, r'') ← msgpack.read_n (Z.to_nat n) r'; Ok (PBytes s, r'')).
  rewrite read_uint_small by lia. cbn [mbind result_bind].
  now rewrite Nat2Z.id, read_n_app.
- change (unpack (S fuel) (((xc6 :: be_bytes 4 (Z.of_nat (length b))) ++ b) ++ rest))
    with ('(n, r') ← msgpack.read_uint 4 (be_bytes 4 (Z.of_nat (length b)) ++ b ++ rest);
          '(s, r'') ← msgpack.read_n (Z.to_nat n) r'; Ok (PBytes s, r'')).
  rewrite read_uint_small by lia. cbn [mbind result_bind].
  now rewrite Nat2Z.id, read_n_app.
Qed.

Lemma unpack_array_header (n : nat) h fuel body :
msgpack.pack_array_header (Z.of_nat n) = Ok h ->
unpack (S fuel) (h ++ body) =
  ('(vs, r') ← msgpack.unpack_seq (unpack fuel) n body;
   Ok (msgpack.mk_array use_list vs, r')).
Proof.
unfold msgpack.pack_array_header.
split_ltb; intros Hh; try discriminate; apply Ok_inj in Hh; subst h.
- change (be_bytes 1 (0x90 + Z.of_nat n) ++ body)
    with (byte_of_Z (0x90 + Z.of_nat n) :: body).
  rewrite unpack_tag. cbv zeta. rewrite Z_of_byte_of_Z, Z.mod_small by lia. zb.
  replace (Z.to_nat _) with n by lia. reflexivity.
- change (unpack (S fuel) ((xdc :: be_bytes 2 (Z.of_nat n)) ++ body))
    with ('(m, r) ← msgpack.read_uint 2 (be_bytes 2 (Z.of_nat n) ++ body);
          '(vs, r') ← msgpack.unpack_seq (unpack fuel) (Z.to_nat m) r;
          Ok (msgpack.mk_array use_list vs, r')).
  rewrite read_uint_small by lia. cbn [mbind result_bind].
  now rewrite Nat2Z.id.
- change (unpack (S fuel) ((xdd :: be_bytes 4 (Z.of_nat n)) ++ body))
    with ('(m, r) ← msgpack.read_uint 4 (be_bytes 4 (Z.of_nat n) ++ body);
          '(vs, r') ← msgpack.unpack_seq (unpack fuel) (Z.to_nat m) r;
          Ok (msgpack.mk_array use_list vs, r')).
  rewrite read_uint_small by lia. cbn [mbind result_bind].
  now rewrite Nat2Z.id.
Qed.

Lemma unpack_map_header (n : nat) h fuel body :
msgpack.pack_map_header (Z.of_nat n) = Ok h ->
unpack (S fuel) (h ++ body) =
  ('(d, r') ← msgpack.unpack_items (unpack fuel) n body [];
   Ok (msgpack.mk_map object_hook d, r')).
Proof.
unfold msgpack.pack_map_header.
split_ltb; intros Hh; try discriminate; apply Ok_inj in Hh; subst h.
- change (be_bytes 1 (0x80 + Z.of_nat n) ++ body)
    with (byte_of_Z (0x80 + Z.of_nat n) :: body).
  rewrite unpack_tag. cbv zeta. rewrite Z_of_byte_of_Z, Z.mod_small by lia. zb.
  replace (Z.to_nat _) with n by lia. reflexivity.
- change (unpack (S fuel) ((xde :: be_bytes 2 (Z.of_nat n)) ++ body))
    with ('(m, r) ← msgpack.read_uint 2 (be_bytes 2 (Z.of_nat n) ++ body);
          '(d, r') ← msgpack.unpack_items (unpack fuel) (Z.to_nat m) r [];
          Ok (msgpack.mk_map object_hook d, r')).
  rewrite read_uint_small by lia. cbn [mbind result_bind].
  now rewrite Nat2Z.id.
- change (unpack (S fuel) ((xdf :: be_bytes 4 (Z.of_nat n)) ++ body))
    with ('(m, r) ← msgpack.read_uint 4 (be_bytes 4 (Z.of_nat n) ++ body);
          '(d, r') ← msgpack.unpack_items (unpack fuel) (Z.to_nat m) r [];
          Ok (msgpack.mk_map object_hook d, r')).
  rewrite read_uint_small by lia. cbn [mbind result_bind].
  now rewrite Nat2Z.id.
Qed.

Lemma header_nonempty h n :
msgpack.pack_str_header n = Ok h \/ msgpack.pack_bin_header n = Ok h \/
msgpack.pack_array_header n = Ok h \/ msgpack.pack_map_header n = Ok h ->
(1 <= length h)%nat.
Proof.
unfold msgpack.pack_str_header, msgpack.pack_bin_header,
  msgpack.pack_array_header, msgpack.pack_map_header.
intros [Hh|[Hh|[Hh|Hh]]]; revert Hh; split_ltb; intros Hh; try discriminate;
  apply Ok_inj in Hh; subst h; simpl; lia.
Qed.

Lemma pack_limit default nest_limit o bs :
msgpack._pack default nest_limit o = Ok bs -> 0 <= nest_limit.
Proof.
destruct o; cbn [msgpack._pack]; destruct (Z.ltb_spec nest_limit 0);
  first [discriminate | lia].
Qed.

Ltac pack_cases L H :=
  cbn [msgpack._pack] in H; destruct (Z.ltb_spec L 0); [discriminate H|].

Lemma pack_nonempty default o : forall nest_limit bs,
msgpack._pack default nest_limit o = Ok bs -> (1 <= length bs)%nat.
Proof.
induction o; intros L bs H; pack_cases L H.
- apply Ok_inj in H. subst. simpl. lia.
- apply Ok_inj in H. subst. simpl. lia.
- revert H. unfold msgpack.pack_int. split_ltb; intros Hp; try discriminate;
    apply Ok_inj in Hp; subst; simpl; lia.
- apply Ok_inj in H. subst. simpl. lia.
- unfold msgpack.pack_str in H. inv_bind H. subst. rewrite length_app.
  pose proof (header_nonempty a _ (or_introl Ha)). lia.
- unfold msgpack.pack_bin in H. inv_bind H. subst. rewrite length_app.
  pose proof (header_nonempty a _ (or_intror (or_introl Ha))). lia.
- inv_bind H. subst. rewrite length_app.
  pose proof (header_nonempty a _ (or_intror (or_intror (or_introl Ha)))). lia.
- inv_bind H. subst. rewrite length_app.
  pose proof (header_nonempty a _ (or_intror (or_intror (or_introl Ha)))). lia.
- inv_bind H. subst. rewrite length_app.
  pose proof (header_nonempty a _ (or_intror (or_intror (or_intror Ha)))). lia.
- inv_bind H. subst. rewrite length_app.
  pose proof (header_nonempty a _ (or_intror (or_intror (or_intror Ha)))). lia.
- destruct default; [|discriminate]. inv_bind H. subst. rewrite length_app.
  pose proof (header_nonempty a _ (or_intror (or_intror (or_introl Ha)))). lia.
- destruct default; [|discriminate].
  destruct o; try discriminate; now apply (IHo L).
Qed.

Lemma pack_key_str nest_limit k a :
msgpack.pack_key nest_limit k = Ok a -> msgpack.pack_str k = Ok a.
Proof. unfold msgpack.pack_key. now destruct (nest_limit <? 0). Qed.

Lemma unpack_seq_pack default nest_limit l :
Forall (reads_back use_list object_hook default) l -> forallb wf l = true ->
forall body fuel rest,
  msgpack.pack_seq (msgpack._pack default nest_limit) l = Ok body ->
  (length body <= fuel)%nat ->
  msgpack.unpack_seq (unpack fuel) (length l) (body ++ rest)
  = Ok (map (decoded use_list object_hook) l, rest).
Proof.
induction 1 as [|x l Hx Hl IH]; simpl; intros Hwf body fuel rest Hp Hlen.
- apply Ok_inj in Hp. now subst.
- apply andb_true_iff in Hwf as [Hwfx Hwfl].
  inv_bind Hp. subst body. rewrite length_app in Hlen.
  rewrite <- app_assoc, (Hx Hwfx nest_limit a fuel _ Ha) by lia.
  cbn [mbind result_bind].
  rewrite (IH Hwfl a0 fuel rest Ha0) by lia. reflexivity.
Qed.

Lemma unpack_items_pack default nest_limit d :
Forall (fun kv => reads_back use_list object_hook default kv.2) d ->
forallb (fun '(_, v) => wf v) d = true ->
forall acc body fuel rest,
  NoDup (map fst acc ++ map fst d) ->
  msgpack.pack_items (msgpack.pack_key nest_limit)
                     (msgpack._pack default nest_limit) d = Ok body ->
  (length body <= fuel)%nat ->
  msgpack.unpack_items (unpack fuel) (length d) (body ++ rest) acc
  = Ok (acc ++ map (fun '(k, v) => (k, decoded use_list object_hook v)) d, rest).
Proof.
induction 1 as [|[k v] d Hv Hd IH]; simpl; intros Hwf acc body fuel rest Hnd Hp Hlen.
- apply Ok_inj in Hp. subst. now rewrite app_nil_r.
- apply andb_true_iff in Hwf as [Hwfv Hwfd]. simpl in Hv.
  inv_bind Hp. subst body. rewrite !length_app in Hlen.
  apply pack_key_str in Ha.
  pose proof (pack_nonempty default (PStr k) 0 a Ha) as Hk1.
  destruct fuel as [|fuel]; [lia|].
  rewrite <- !app_assoc, (unpack_pack_str k a fuel _ Ha). cbn [mbind result_bind].
  rewrite (Hv Hwfv nest_limit a0 (S fuel) _ Ha0) by lia. cbn [mbind result_bind].
  apply NoDup_app in Hnd as (Hacc & Hdisj & Hnd').
  apply NoDup_cons in Hnd' as [Hk Hnd'].
  rewrite dict_set_fresh by (intros Hin; apply (Hdisj k Hin); left).
  assert (Hnd : NoDup (map fst (acc ++ [(k, decoded use_list object_hook v)]) ++ map fst d)).
  { rewrite map_app. simpl. rewrite <- app_assoc. simpl.
    apply NoDup_app. split; [assumption|]. split; [|now apply NoDup_cons].
    intros x Hx. apply Hdisj. exact Hx. }
  rewrite (IH Hwfd _ a1 (S fuel) rest Hnd Ha1) by lia.
  now rewrite <- app_assoc.
Qed.

Theorem unpack_pack default o : reads_back use_list object_hook default o.
Proof.
induction o using pyval_nested_ind; intros Hwf L bs fuel rest Hp Hlen;
  pose proof (pack_nonempty _ _ _ _ Hp) as Hne;
  (destruct fuel as [|fuel]; [lia|]); pack_cases L Hp.
- apply Ok_inj in Hp. subst. reflexivity.
- apply Ok_inj in Hp. subst. destruct b; reflexivity.
- now apply unpack_pack_int.
- apply Ok_inj in Hp. subst. simpl in Hwf.
  apply andb_true_iff in Hwf as [H0 H1].
  apply Z.leb_le in H0. apply Z.ltb_lt in H1.
  change (unpack (S fuel) ((xcb :: be_bytes 8 bits) ++ rest))
    with ('(n, r') ← msgpack.read_uint 8 (be_bytes 8 bits ++ rest); Ok (PFloat n, r')).
  rewrite read_uint_small by (simpl; lia). reflexivity.
- now apply unpack_pack_str.
- now apply unpack_pack_bin.
- inv_bind Hp. subst bs. rewrite length_app in Hlen.
  pose proof (header_nonempty a _ (or_intror (or_intror (or_introl Ha)))).
  rewrite <- app_assoc, (unpack_array_header _ _ _ _ Ha).
  rewrite (unpack_seq_pack default _ l H Hwf a0 fuel rest Ha0) by lia. reflexivity.
- inv_bind Hp. subst bs. rewrite length_app in Hlen.
  pose proof (header_nonempty a _ (or_intror (or_intror (or_introl Ha)))).
  rewrite <- app_assoc, (unpack_array_header _ _ _ _ Ha).
  rewrite (unpack_seq_pack default _ l H Hwf a0 fuel rest Ha0) by lia. reflexivity.
- inv_bind Hp. subst bs. rewrite length_app in Hlen.
  pose proof (header_nonempty a _ (or_intror (or_intror (or_intror Ha)))).
  simpl in Hwf. apply andb_true_iff in Hwf as [Hk Hwf].
  apply keys_distinct_NoDup in Hk.
  rewrite <- app_assoc, (unpack_map_header _ _ _ _ Ha).
  rewrite (unpack_items_pack default _ d H Hwf [] a0 fuel rest Hk Ha0) by lia.
  reflexivity.
- inv_bind Hp. subst bs. rewrite length_app in Hlen.
  pose proof (header_nonempty a _ (or_intror (or_intror (or_intror Ha)))).
  simpl in Hwf. apply andb_true_iff in Hwf as [Hk Hwf].
  apply keys_distinct_NoDup in Hk.
  rewrite <- app_assoc, (unpack_map_header _ _ _ _ Ha).
  rewrite (unpack_items_pack default _ d H Hwf [] a0 fuel rest Hk Ha0) by lia.
  reflexivity.
- destruct default; [|discriminate].
  inv_bind Hp. subst bs. rewrite length_app in Hlen.
  pose proof (header_nonempty a _ (or_intror (or_intror (or_introl Ha)))).
  rewrite <- app_assoc, (unpack_array_header _ _ _ _ Ha).
  rewrite (unpack_seq_pack true _ l H Hwf a0 fuel rest Ha0) by lia. reflexivity.
- destruct default; [|discriminate]. cbn [wf] in Hwf. cbn [decoded].
  destruct o; try discriminate;
    apply (IHo Hwf L bs (S fuel) rest Hp Hlen).
Qed.

Lemma unpackb_Ok bs v :
msgpack.unpackb use_list object_hook bs = Ok v
<-> unpack (S (length bs)) bs = Ok (v, []).
Proof.
unfold msgpack.unpackb.
destruct (unpack (S (length bs)) bs) as [[v' [|b r]]|e].
- split; congruence.
- split; discriminate.
- split; [destruct e|]; discriminate.
Qed.

Lemma unpackb_packb default o bs :
wf o = true -> msgpack.pack default o = Ok bs ->
msgpack.unpackb use_list object_hook bs = Ok (decoded use_list object_hook o).
Proof.
intros Hwf Hp. apply unpackb_Ok. unfold msgpack.pack in Hp.
rewrite <- (app_nil_r bs) at 2.
apply (unpack_pack default o Hwf _ bs (S (length bs)) [] Hp). lia.
Qed.

End CodecFacts.

(** ** The codec: which values are packed, and stored objects *)

Lemma headers_total {A} (l : list A) :
  len32 l = true ->
  is_Ok (msgpack.pack_str_header (Z.of_nat (length l))) = true /\
  is_Ok (msgpack.pack_bin_header (Z.of_nat (length l))) = true /\
  is_Ok (msgpack.pack_array_header (Z.of_nat (length l))) = true /\
  is_Ok (msgpack.pack_map_header (Z.of_nat (length l))) = true.
Proof.
  unfold len32. intros H%Z.ltb_lt.
  unfold msgpack.pack_str_header, msgpack.pack_bin_header,
    msgpack.pack_array_header, msgpack.pack_map_header.
  repeat split; split_ltb; first [reflexivity | lia].
Qed.

Lemma is_Ok_true {A} (r : result A) : is_Ok r = true -> exists a, r = Ok a.
Proof. destruct r; [eauto | discriminate]. Qed.

Lemma pack_str_total s :
  len32 (list_byte_of_string s) = true -> exists bs, msgpack.pack_str s = Ok bs.
Proof.
  intros H. destruct (headers_total _ H) as (Hs & _).
  apply is_Ok_true in Hs as [h Hh]. unfold msgpack.pack_str. rewrite Hh. eauto.
Qed.

Lemma packable_limit default nest_limit o :
  packable_at default nest_limit o = true -> 0 <= nest_limit.
Proof.
  destruct o; cbn [packable_at]; intros [H%Z.leb_le _]%andb_true_iff; exact H.
Qed.

Lemma pack_seq_total default nest_limit l :
  Forall (packs default) l -> forallb (packable_at default nest_limit) l = true ->
  exists bs, msgpack.pack_seq (msgpack._pack default nest_limit) l = Ok bs.
Proof.
  induction 1 as [|x l Hx _ IH]; simpl; intros Hp; [eauto|].
  apply andb_true_iff in Hp as [Hpx Hpl].
  destruct (Hx _ Hpx) as [a ->]. destruct (IH Hpl) as [b ->]. simpl. eauto.
Qed.

Lemma pack_items_cons fk f k v d :
  msgpack.pack_items fk f ((k, v) :: d)
  = (a ← fk k; b ← f v; c ← msgpack.pack_items fk f d; Ok (a ++ b ++ c)).
Proof. reflexivity. Qed.

Lemma pack_items_total default nest_limit d :
  Forall (fun kv => packs default kv.2) d ->
  forallb (fun '(k, v) => len32 (list_byte_of_string k)
                          && packable_at default nest_limit v) d = true ->
  exists bs, msgpack.pack_items (msgpack.pack_key nest_limit)
                                (msgpack._pack default nest_limit) d = Ok bs.
Proof.
  induction 1 as [|[k v] d Hv _ IH]; intros Hp; [exists []; reflexivity|].
  cbn [forallb] in Hp.
  apply andb_true_iff in Hp as [Hkv Hpd]. apply andb_true_iff in Hkv as [Hk Hpv].
  pose proof (packable_limit _ _ _ Hpv) as Hl.
  destruct (pack_str_total k Hk) as [a Ha]. destruct (Hv _ Hpv) as [b Hb].
  assert (msgpack.pack_key nest_limit k = Ok a) as Hka.
  { unfold msgpack.pack_key. now destruct (Z.ltb_spec nest_limit 0); [lia|]. }
  rewrite pack_items_cons, Hka. cbn [snd] in Hb. rewrite Hb.
  destruct (IH Hpd) as [c ->]. cbn [mbind result_bind]. eauto.
Qed.

Theorem pack_total default o : packs default o.
Proof.
  induction o using pyval_nested_ind; intros L Hp;
    pose proof (packable_limit _ _ _ Hp) as HL;
    cbn [packable_at msgpack._pack] in *;
    apply andb_true_iff in Hp as [_ Hp];
    (destruct (Z.ltb_spec L 0); [lia|]);
    try (eexists; reflexivity).
  - apply andb_true_iff in Hp as [H0%Z.leb_le H1%Z.ltb_lt].
    unfold msgpack.pack_int. split_ltb; first [eexists; reflexivity | lia].
  - now apply pack_str_total.
  - destruct (headers_total _ Hp) as (_ & Hb & _).
    apply is_Ok_true in Hb as [h Hh]. unfold msgpack.pack_bin. rewrite Hh. simpl. eauto.
  - apply andb_true_iff in Hp as [Hn Hl].
    destruct (headers_total _ Hn) as (_ & _ & Ha & _).
    apply is_Ok_true in Ha as [h ->].
    destruct (pack_seq_total default _ l H Hl) as [b ->]. simpl. eauto.
  - apply andb_true_iff in Hp as [Hn Hl].
    destruct (headers_total _ Hn) as (_ & _ & Ha & _).
    apply is_Ok_true in Ha as [h ->].
    destruct (pack_seq_total default _ l H Hl) as [b ->]. simpl. eauto.
  - apply andb_true_iff in Hp as [Hn Hl].
    destruct (headers_total _ Hn) as (_ & _ & _ & Hm).
    apply is_Ok_true in Hm as [h ->].
    destruct (pack_items_total default _ d H Hl) as [b ->]. simpl. eauto.
  - apply andb_true_iff in Hp as [Hn Hl].
    destruct (headers_total _ Hn) as (_ & _ & _ & Hm).
    apply is_Ok_true in Hm as [h ->].
    destruct (pack_items_total default _ d H Hl) as [b ->]. simpl. eauto.
  - apply andb_true_iff in Hp as [Hn Hl]. apply andb_true_iff in Hn as [-> Hn].
    destruct (headers_total _ Hn) as (_ & _ & Ha & _).
    apply is_Ok_true in Ha as [h ->].
    destruct (pack_seq_total true _ l H Hl) as [b ->]. simpl. eauto.
  - apply andb_true_iff in Hp as [Hn Hx]. apply andb_true_iff in Hn as [-> Hn].
    destruct (IHo L Hx) as [bs Hbs].
    destruct o; try discriminate; eauto.
Qed.

(** For [Packer.pack], with the limit it starts from. *)
Lemma pack_packable default o :
  packable default o = true -> exists bs, msgpack.pack default o = Ok bs.
Proof. apply pack_total. Qed.

Lemma decoded_plain o : plain o = true -> decoded true None o = o.
Proof.
  induction o using pyval_nested_ind; simpl; intros Hp; try reflexivity;
    try discriminate.
  - unfold msgpack.mk_array. f_equal.
    induction H as [|x l Hx _ IH]; simpl in *; [reflexivity|].
    apply andb_true_iff in Hp as [Hpx Hpl]. now rewrite Hx, IH.
  - unfold msgpack.mk_map. f_equal.
    induction H as [|[k v] d Hv _ IH]; simpl in *; [reflexivity|].
    apply andb_true_iff in Hp as [Hpv Hpd]. now rewrite Hv, IH.
Qed.

Section save_load.
Variable expanduser : string -> string.
Variable pickle_load_raw : list byte -> result pyval.

(** The [default] hook at work: a numpy array is packed as the list
    [ndarrray_to_list] makes of it. *)
Lemma save_object_ndarray l :
  msgpack.pack true (PNdarray l) = msgpack.pack true (ndarrray_to_list (PNdarray l))
  /\ msgpack.pack false (PNdarray l) = Raise TypeError.
Proof. split; reflexivity. Qed.

Lemma load_object_save_object object_ file_path (fs : files) allow_legacy :
  wf object_ = true -> packable true object_ = true ->
  (save_object expanduser object_ file_path fs).1 = Ok () /\
  load_object expanduser pickle_load_raw
    (save_object expanduser object_ file_path fs).2 file_path allow_legacy
  = (Ok (decoded true None object_), []).
Proof.
  intros Hwf Hp. destruct (pack_packable true object_ Hp) as [bs Hbs].
  unfold save_object, load_object, open_rb, open_wb. rewrite Hbs. simpl.
  rewrite lookup_insert_eq.
  rewrite (unpackb_packb true None true object_ bs Hwf Hbs). split; reflexivity.
Qed.

Lemma load_object_save_object_plain object_ file_path (fs : files) allow_legacy :
  plain object_ = true -> wf object_ = true -> packable true object_ = true ->
  (save_object expanduser object_ file_path fs).1 = Ok () /\
  load_object expanduser pickle_load_raw
    (save_object expanduser object_ file_path fs).2 file_path allow_legacy
  = (Ok object_, []).
Proof.
  intros Hplain Hwf Hp.
  destruct (load_object_save_object object_ file_path fs allow_legacy Hwf Hp)
    as [H1 H2].
  now rewrite (decoded_plain _ Hplain) in H2.
Qed.
End save_load.

(** C8 as stated fails: a saved tuple is loaded as a list. *)
Lemma save_load_tuple_counterexample :
  let fs := (save_object (fun p => p) roundtrip_tuple "object" ∅).2 in
  (save_object (fun p => p) roundtrip_tuple "object" ∅).1 = Ok () /\
  (load_object (fun p => p) pickle_load fs "object" true).1
    = Ok (PList [PInt 1; PInt 2]) /\
  (load_object (fun p => p) pickle_load fs "object" true).1
    <> Ok roundtrip_tuple.
Proof.
  vm_compute. repeat split; congruence.
Qed.

Local Close Scope Z_scope.

(** ** The unpacker never runs out of fuel *)

Section FuelFacts.
Variable use_list : bool.
Variable object_hook : option (pyval -> pyval).
Local Abbreviation unpack := (msgpack.unpack use_list object_hook).

Lemma within_Ok {A} L (a : A) r : length r <= L -> within L (Ok (a, r)).
Proof. intros H. split; [done|]. now intros ? ? [= <- <-]. Qed.

Lemma within_Raise {A} L e :
  unreadable e = true -> within L (Raise e : result (A * list byte)).
Proof. intros H. split; [|done]. now intros ? [= <-]. Qed.

Lemma within_bind {A B} L (m : result (A * list byte))
    (k : A * list byte -> result (B * list byte)) :
  within L m -> (forall a r, length r <= L -> within L (k (a, r))) ->
  within L (m ≫= k).
Proof.
  intros [Hm1 Hm2] Hk. destruct m as [[a r]|e]; simpl.
  - apply Hk. now apply (Hm2 a r).
  - split; [|done]. intros e' [= <-]. now apply Hm1.
Qed.

Lemma within_read_n L n r : length r <= L -> within L (msgpack.read_n n r).
Proof.
  intros H. unfold msgpack.read_n. destruct (length r <? n).
  - now apply within_Raise.
  - apply within_Ok. rewrite length_drop. lia.
Qed.

Lemma within_read_uint L n r : length r <= L -> within L (msgpack.read_uint n r).
Proof.
  intros H. unfold msgpack.read_uint. apply within_bind.
  - now apply within_read_n.
  - intros a r' Hr'. now apply within_Ok.
Qed.

Lemma within_unpack_seq L u n : forall r,
  (forall bs, length bs <= L -> within L (u bs)) ->
  length r <= L -> within L (msgpack.unpack_seq u n r).
Proof.
  induction n as [|n IH]; intros r Hu Hr; simpl.
  - now apply within_Ok.
  - apply within_bind; [now apply Hu|]. intros v r1 Hr1.
    apply within_bind; [now apply IH|]. intros vs r2 Hr2. now apply within_Ok.
Qed.

Lemma within_unpack_items L u n : forall r d,
  (forall bs, length bs <= L -> within L (u bs)) ->
  length r <= L -> within L (msgpack.unpack_items u n r d).
Proof.
  induction n as [|n IH]; intros r d Hu Hr; simpl.
  - now apply within_Ok.
  - apply within_bind; [now apply Hu|]. intros k r1 Hr1.
    destruct k; try (now apply within_Raise).
    apply within_bind; [now apply Hu|]. intros v r2 Hr2. now apply IH.
Qed.

Ltac within_steps Hu :=
  repeat first
    [ apply within_Ok; lia
    | apply within_Raise; reflexivity
    | apply within_read_uint; lia
    | apply within_read_n; lia
    | apply within_unpack_seq; [exact Hu | lia]
    | apply within_unpack_items; [exact Hu | lia]
    | apply within_bind; [|intros ? ? ?] ].

(** With more fuel than bytes, an object is read without StackError, and
    reading it takes at least one byte. *)
Lemma unpack_within fuel : forall bs,
  length bs < fuel -> within (length bs - 1) (unpack fuel bs).
Proof.
  induction fuel as [|fuel IH]; intros bs Hlen; [lia|].
  destruct bs as [|b r].
  - cbn. now apply within_Raise.
  - simpl in Hlen.
    assert (Hu : forall bs', length bs' <= length r ->
                   within (length r) (unpack fuel bs')).
    { intros bs' Hbs'. destruct bs' as [|b' r'].
      - destruct fuel; [lia|]. now apply within_Raise.
      - destruct (IH (b' :: r')) as [H1 H2]; [simpl in *; lia|].
        split; [done|]. intros a r0 Hr0. specialize (H2 a r0 Hr0).
        simpl in *. lia. }
    cbn [length]. rewrite Nat.sub_succ, Nat.sub_0_r.
    cbn [msgpack.unpack]. cbv zeta.
    repeat match goal with
    | |- within _ (if ?c then _ else _) => destruct c
    end; within_steps Hu.
Qed.

Lemma unpack_consumes fuel bs v r :
  length bs < fuel -> unpack fuel bs = Ok (v, r) -> length r < length bs.
Proof.
  intros Hlen H. destruct (unpack_within fuel bs Hlen) as [_ Hw].
  specialize (Hw v r H). destruct bs as [|b bs'].
  - destruct fuel; discriminate.
  - simpl in *. lia.
Qed.


End FuelFacts.

(** The rounds [load_pupil_data_file] allows are enough for any file:
    more of them change nothing. *)
Lemma load_frames_enough fuel : forall fuel' bs (m : groups),
  length bs <= fuel -> length bs <= fuel' ->
  load_frames fuel bs m = load_frames fuel' bs m.
Proof.
  induction fuel as [|fuel IH]; intros fuel' bs m Hlen Hlen'.
  - destruct bs; [|simpl in Hlen; lia]. now destruct fuel'.
  - destruct fuel' as [|fuel'].
    { destruct bs; [|simpl in Hlen'; lia]. reflexivity. }
    cbn [load_frames].
    destruct (msgpack.unpack false None (S (length bs)) bs)
      as [[item rest]|e] eqn:Hu; [|reflexivity].
    apply unpack_consumes in Hu; [|lia].
    destruct (load_frame item m) as [m'|e]; [|reflexivity]. cbn [mbind result_bind].
    apply IH; lia.
Qed.

(** ** Serialized_Dict: the decode cache *)

Section CacheFacts.
Import Serialized_Dict.

Local Abbreviation loads_frozen := (msgpack.loads false (Some _object_hook)).

Lemma deser_hit s self obj :
  heap s !! self = Some obj -> truthy (_data obj) = true ->
  _deser self s = (Ok (), s).
Proof. intros Hobj Ht. unfold _deser. now rewrite Hobj, Ht. Qed.

Lemma deser_miss s self obj v e rest :
  heap s !! self = Some obj -> truthy (_data obj) = false ->
  loads_frozen (_ser_data obj) = Ok v ->
  _cache_ref s = e :: rest ->
  exists s',
    _deser self s = (Ok (), s')
    /\ _cache_ref s' = rest ++ [Dict_object self]
    /\ loads_calls s' = S (loads_calls s)
    /\ forall k, heap s' !! k = after_decode self v e k <$> heap s !! k.
Proof.
  intros Hobj Ht Hv Hc. unfold _deser. rewrite Hobj, Ht. cbn [negb].
  rewrite Hv. cbn [set_data count_loads _cache_ref]. rewrite Hc.
  eexists. split; [reflexivity|].
  destruct e as [|j]; cbn; (split; [reflexivity|]); (split; [reflexivity|]);
    intros k; unfold after_decode; rewrite ?lookup_alter;
    repeat case_decide; subst; try congruence;
    destruct (heap s !! k) as [[]|]; simpl; repeat case_decide; congruence.
Qed.

Lemma data_of_lookup s k obj : heap s !! k = Some obj -> data_of k s = _data obj.
Proof. intros H. unfold data_of. now rewrite H. Qed.

Lemma ready_miss s self :
  ready s self = true -> _cache_ref s <> [] ->
  exists v e s', miss s self v e s'.
Proof.
  unfold ready. intros Hr Hc.
  destruct (heap s !! self) as [obj|] eqn:Hobj; [|discriminate].
  apply andb_true_iff in Hr as [Hn Hok].
  apply is_Ok_true in Hok as [v Hv].
  destruct (_cache_ref s) as [|e rest] eqn:Hcache; [congruence|].
  assert (Ht : truthy (_data obj) = false) by (destruct (_data obj); done).
  destruct (deser_miss s self obj v e rest Hobj Ht Hv Hcache)
    as (s' & H1 & H2 & H3 & H4).
  exists v, e, s'. split; try done.
  - eauto.
  - now rewrite Hcache.
  - now rewrite Hcache.
Qed.

Lemma miss_data s self v e s' k :
  miss s self v e s' ->
  data_of k s' = if decide (e = Dict_object k) then PNone
                 else if decide (k = self) then v else data_of k s.
Proof.
  intros [_ (obj & Hobj & _) _ _ _ Hheap]. unfold data_of. rewrite Hheap.
  destruct (heap s !! k) as [o|] eqn:Hk; simpl; [reflexivity|].
  repeat case_decide; subst; congruence.
Qed.

Lemma miss_ser s self v e s' k :
  miss s self v e s' ->
  _ser_data <$> heap s' !! k = _ser_data <$> heap s !! k.
Proof.
  intros [_ _ _ _ _ Hheap]. rewrite Hheap. now destruct (heap s !! k).
Qed.

Lemma miss_ready s self v e s' k :
  miss s self v e s' -> k <> self -> ready s k = true -> ready s' k = true.
Proof.
  intros Hm Hne. unfold ready. rewrite (miss_heap _ _ _ _ _ Hm).
  destruct (heap s !! k) as [o|]; simpl; [|done].
  intros [Hn Hok]%andb_true_iff. rewrite Hok, andb_true_r.
  repeat case_decide; done.
Qed.

Lemma miss_cache_nonempty s self v e s' :
  miss s self v e s' -> _cache_ref s' <> [].
Proof. intros Hm. rewrite (miss_cache _ _ _ _ _ Hm). now destruct (tail _). Qed.

Lemma miss_cache_length s self v e s' :
  miss s self v e s' -> length (_cache_ref s') = length (_cache_ref s).
Proof.
  intros Hm. rewrite (miss_cache _ _ _ _ _ Hm).
  pose proof (miss_front _ _ _ _ _ Hm).
  destruct (_cache_ref s); [done|]. rewrite length_app. simpl. lia.
Qed.

(** A run of decodes over instances that hold no value: the cache is a
    queue. *)
Lemma decode_all_fresh ids : forall s,
  _cache_ref s <> [] -> NoDup ids -> forallb (ready s) ids = true ->
  let queue := _cache_ref s ++ map Dict_object ids in
  let sN := decode_all ids s in
  _cache_ref sN = drop (length ids) queue
  /\ loads_calls sN = loads_calls s + length ids
  /\ (forall k, _ser_data <$> heap sN !! k = _ser_data <$> heap s !! k)
  /\ (forall k, k ∉ ids -> data_of k s = PNone -> data_of k sN = PNone)
  /\ (forall k, k ∉ ids -> Dict_object k ∉ take (length ids) queue ->
        data_of k sN = data_of k s)
  /\ (forall k p, queue !! p = Some (Dict_object k) -> p < length ids ->
        k ∉ drop (S p) ids -> data_of k sN = PNone)
  /\ (forall k j obj v, ids !! j = Some k -> heap s !! k = Some obj ->
        loads_frozen (_ser_data obj) = Ok v ->
        Dict_object k ∉ drop j (take (length ids) queue) ->
        data_of k sN = v).
Proof.
  induction ids as [|a ids IH]; intros s Hc Hnd Hr; cbn zeta.
  - simpl. rewrite app_nil_r, drop_0, Nat.add_0_r.
    repeat split; try done. intros k p _ Hp. lia.
  - apply NoDup_cons in Hnd as [Ha Hnd]. simpl in Hr.
    apply andb_true_iff in Hr as [Hra Hr].
    destruct (ready_miss s a Hra Hc) as (v & e & s1 & Hm).
    assert (Hr1 : forallb (ready s1) ids = true).
    { apply forallb_forall. intros k Hk.
      apply (miss_ready _ _ _ _ _ k Hm).
      - intros ->. apply Ha. now apply list_elem_of_In.
      - eapply forallb_forall in Hr; eauto. }
    destruct (IH s1 (miss_cache_nonempty _ _ _ _ _ Hm) Hnd Hr1)
      as (IHc & IHl & IHs & IHn & IHu & IHp & IHk).
    assert (Hs1 : decode_all (a :: ids) s = decode_all ids s1).
    { unfold decode_all. simpl. now rewrite (miss_result _ _ _ _ _ Hm). }
    rewrite Hs1.
    pose proof (miss_front _ _ _ _ _ Hm) as Hfront.
    pose proof (miss_cache _ _ _ _ _ Hm) as Hcache.
    destruct (_cache_ref s) as [|e' rest] eqn:Hcs; [done|].
    simpl in Hfront. injection Hfront as ->. simpl in Hcache.
    assert (Hq : _cache_ref s1 ++ map Dict_object ids
                 = rest ++ Dict_object a :: map Dict_object ids).
    { rewrite Hcache, <- app_assoc. reflexivity. }
    rewrite Hq in *. clear Hq. simpl.
    repeat split.
    + exact IHc.
    + rewrite IHl, (miss_calls _ _ _ _ _ Hm). lia.
    + intros k. rewrite IHs. apply (miss_ser _ _ _ _ _ _ Hm).
    + intros k [Hka Hk]%not_elem_of_cons Hnone. apply IHn; [done|].
      rewrite (miss_data _ _ _ _ _ k Hm), Hnone. now repeat case_decide.
    + intros k [Hka Hk]%not_elem_of_cons [Hek Hq]%not_elem_of_cons.
      rewrite IHu by done. rewrite (miss_data _ _ _ _ _ k Hm).
      rewrite decide_False by congruence. now rewrite decide_False.
    + intros k [|p] Hq Hp Hk.
      * simpl in Hq. injection Hq as ->. rewrite drop_0 in Hk.
        apply IHn; [done|].
        rewrite (miss_data _ _ _ _ _ k Hm). now rewrite decide_True.
      * simpl in Hq, Hk. apply (IHp k p); [done | lia | done].
    + intros k [|j] obj w Hj Hobj Hw Hq.
      * simpl in Hj. injection Hj as ->. rewrite drop_0 in Hq.
        apply not_elem_of_cons in Hq as [Hek Hq].
        rewrite IHu by done. rewrite (miss_data _ _ _ _ _ k Hm).
        rewrite decide_False by congruence. rewrite decide_True by done.
        destruct (miss_loads _ _ _ _ _ Hm) as (obj' & Hobj' & Hv). congruence.
      * simpl in Hj, Hq.
        pose proof (miss_ser _ _ _ _ _ k Hm) as Hser. rewrite Hobj in Hser.
        destruct (heap s1 !! k) as [o1|] eqn:Ho1; [|done].
        simpl in Hser. injection Hser as Hser.
        apply (IHk k j o1 w); [done | done | congruence | done].
Qed.

(** Whatever a decode finds, it leaves the state as it is, or has only
    called [msgpack.loads] in vain, or is a [miss]. *)
Lemma deser_cases s self :
  _cache_ref s <> [] ->
  (_deser self s).2 = s \/ (_deser self s).2 = count_loads s
  \/ exists v e s', miss s self v e s'.
Proof.
  intros Hc. unfold _deser.
  destruct (heap s !! self) as [obj|] eqn:Hobj; [|now left].
  destruct (truthy (_data obj)) eqn:Ht; [now left|]. cbn [negb].
  destruct (loads_frozen (_ser_data obj)) as [v|err] eqn:Hv; [|right; now left].
  right; right.
  destruct (_cache_ref s) as [|e rest] eqn:Hcache; [done|].
  destruct (deser_miss s self obj v e rest Hobj Ht Hv Hcache)
    as (s' & H1 & H2 & H3 & H4).
  exists v, e, s'. split; try done.
  - eauto.
  - now rewrite Hcache.
  - now rewrite Hcache.
Qed.

Lemma tracked_deser s self :
  tracked s -> _cache_ref s <> [] ->
  tracked (_deser self s).2
  /\ length (_cache_ref (_deser self s).2) = length (_cache_ref s).
Proof.
  intros Ht Hc. destruct (deser_cases s self Hc) as [->|[->|(v & e & s' & Hm)]];
    [done | done |].
  rewrite (miss_result _ _ _ _ _ Hm). cbn [snd].
  split; [|apply (miss_cache_length _ _ _ _ _ Hm)].
  intros k obj' Hk Hlive. rewrite (miss_heap _ _ _ _ _ Hm) in Hk.
  destruct (heap s !! k) as [o|] eqn:Ho; [|done].
  injection Hk as <-. simpl in Hlive.
  rewrite (miss_cache _ _ _ _ _ Hm). apply elem_of_app.
  destruct (decide (e = Dict_object k)) as [->|Hne]; [done|].
  destruct (decide (k = self)) as [->|Hks]; [right; constructor|].
  left. specialize (Ht k o Ho Hlive).
  pose proof (miss_front _ _ _ _ _ Hm) as Hf.
  destruct (_cache_ref s) as [|e' rest]; [done|].
  simpl in *. injection Hf as ->.
  apply elem_of_cons in Ht as [?|?]; [congruence | done].
Qed.

(** Both hold when the process starts, and construction and
    [purge_cache] keep them. *)
Lemma tracked_initial :
  tracked initial /\ length (_cache_ref initial) = cache_len.
Proof.
  split; [|reflexivity]. intros k obj Hk. cbn [initial heap] in Hk.
  now rewrite lookup_empty in Hk.
Qed.

Lemma tracked_new mapping payload s :
  tracked s ->
  tracked (new mapping payload s).2
  /\ _cache_ref (new mapping payload s).2 = _cache_ref s.
Proof.
  intros Ht. unfold new.
  destruct (__init__ mapping payload) as [obj|e] eqn:Hinit; [|done].
  split; [|reflexivity]. cbn [snd]. intros k o Hk Hlive. cbn [heap] in Hk.
  apply lookup_insert_Some in Hk as [[<- <-]|[Hne Hk]].
  - assert (Hd : _data obj = PNone); [|now rewrite Hd in Hlive].
    unfold __init__ in Hinit.
    destruct mapping; destruct payload; simpl in Hinit;
      try discriminate; try (now injection Hinit as <-);
      destruct (msgpack.dumps _); simpl in Hinit;
      try discriminate; now injection Hinit as <-.
  - now apply (Ht k o).
Qed.

Lemma tracked_purge_cache self s :
  tracked s ->
  tracked (purge_cache self s)
  /\ _cache_ref (purge_cache self s) = _cache_ref s.
Proof.
  intros Ht. split; [|reflexivity]. intros k o Hk Hlive.
  unfold purge_cache, set_data in Hk. cbn [heap] in Hk.
  rewrite lookup_alter in Hk. case_decide as Hself.
  - subst k. destruct (heap s !! self); [|done]. injection Hk as <-. done.
  - now apply (Ht k o).
Qed.


Lemma length_omap_le {A B} (f : A -> option B) (l : list A) :
  length (omap f l) <= length l.
Proof.
  unfold omap. induction l as [|x l IH]; simpl; [lia|]. destruct (f x); simpl; lia.
Qed.

Lemma size_list_to_set_le (l : list nat) :
  size (list_to_set l : gset nat) <= length l.
Proof.
  induction l as [|x l IH]; cbn [list_to_set length].
  - rewrite size_empty. lia.
  - rewrite size_union_alt, size_singleton.
    assert (size (list_to_set l ∖ {[x]} : gset nat) <= size (list_to_set l : gset nat)).
    { apply subseteq_size, subseteq_difference_l. reflexivity. }
    simpl. lia.
Qed.

(** The instances that hold a decoded value are no more than the slots of
    the cache. *)
Lemma live_bound s :
  tracked s -> size (live s) <= length (_cache_ref s).
Proof.
  intros Ht. rewrite <- size_dom.
  etrans; [apply (subseteq_size _ (list_to_set (omap entry_id (_cache_ref s))))|].
  - intros k [obj Hk]%elem_of_dom. unfold live in Hk.
    apply map_lookup_filter_Some in Hk as [Hk Hlive]. simpl in Hlive.
    apply elem_of_list_to_set, list_elem_of_omap.
    exists (Dict_object k). split; [|done]. now apply (Ht k obj).
  - etrans; [apply size_list_to_set_le|]. apply length_omap_le.
Qed.

Lemma ready_inv s k :
  ready s k = true <->
  exists obj, heap s !! k = Some obj /\ _data obj = PNone
              /\ is_Ok (loads_frozen (_ser_data obj)) = true.
Proof.
  unfold ready. destruct (heap s !! k) as [o|]; split.
  - intros [Hn Hok]%andb_true_iff. exists o. repeat split; [|done].
    now destruct (_data o).
  - intros (obj & [= <-] & Hn & Hok). now rewrite Hn, Hok.
  - done.
  - now intros (obj & ? & _).
Qed.

Lemma ready_sublist s ids n :
  forallb (ready s) ids = true -> forallb (ready s) (take n ids) = true.
Proof.
  rewrite !forallb_forall. intros H x Hx. apply H.
  apply list_elem_of_In. apply list_elem_of_In in Hx.
  now apply (subseteq_take n ids).
Qed.



(** C2.  Eviction order.  Let 101 different instances A1..A101, none
    referred to by the cache and each with bytes that decode, be decoded in
    that order.  A1 holds its decoded value after each of the first 100
    decodes; after them A1 is at the front of the cache; the decode of
    A101 leaves A1 without its value, and leaves the value of every
    instance other than A1 and A101 as it was. *)
Theorem eviction_order (s : state) (ids : list nat) :
  length (_cache_ref s) = cache_len -> NoDup ids ->
  length ids = S cache_len -> forallb (ready s) ids = true ->
  (forall self, self ∈ ids -> Dict_object self ∉ _cache_ref s) ->
  exists a1 a101 obj v1,
    ids !! 0 = Some a1 /\ ids !! cache_len = Some a101
    /\ heap s !! a1 = Some obj /\ loads_frozen (_ser_data obj) = Ok v1
    /\ (forall n, 1 <= n <= cache_len ->
          data_of a1 (decode_all (take n ids) s) = v1)
    /\ head (_cache_ref (decode_all (take cache_len ids) s)) = Some (Dict_object a1)
    /\ data_of a1 (decode_all ids s) = PNone
    /\ (forall k, k <> a1 -> k <> a101 ->
          data_of k (decode_all ids s)
          = data_of k (decode_all (take cache_len ids) s)).
Proof.
  intros Hlen Hnd HN Hr Hfresh.
  assert (Hcl : cache_len = 100) by reflexivity.
  assert (Hc : _cache_ref s <> []) by (intros H; now rewrite H in Hlen).
  destruct (ids !! 0) as [a1|] eqn:H1;
    [|apply lookup_ge_None in H1; lia].
  destruct (ids !! cache_len) as [a101|] eqn:H101;
    [|apply lookup_ge_None in H101; lia].
  assert (Hr1 : ready s a1 = true).
  { eapply forallb_forall in Hr; [done|].
    apply list_elem_of_In. eapply list_elem_of_lookup_2. exact H1. }
  apply ready_inv in Hr1 as (obj & Hobj & _ & Hok).
  apply is_Ok_true in Hok as [v1 Hv1].
  exists a1, a101, obj, v1. repeat split; try done.
  - (* kept during the first [cache_len] decodes *)
    intros n Hn.
    destruct (decode_all_fresh (take n ids) s Hc)
      as (_ & _ & _ & _ & _ & _ & Hkeep).
    { eapply sublist_NoDup; [done | apply sublist_take]. }
    { now apply ready_sublist. }
    apply (Hkeep a1 0 obj v1); [|done|done|].
    + rewrite lookup_take_lt by lia. done.
    + rewrite drop_0, length_take, take_app_le by lia.
      intros Hin. apply (Hfresh a1).
      * eapply list_elem_of_lookup_2. exact H1.
      * eapply subseteq_take. exact Hin.
  - (* the slot that the last decode takes *)
    destruct (decode_all_fresh (take cache_len ids) s Hc)
      as (Hcache & _).
    { eapply sublist_NoDup; [done | apply sublist_take]. }
    { now apply ready_sublist. }
    rewrite Hcache, length_take, head_lookup, lookup_drop.
    rewrite lookup_app_r by lia.
    rewrite list_lookup_fmap, lookup_take_lt by lia.
    replace (_ - _) with 0 by lia. now rewrite H1.
  - (* dropped by the last decode *)
    destruct (decode_all_fresh ids s Hc Hnd Hr)
      as (_ & _ & _ & _ & _ & Hpop & _).
    apply (Hpop a1 cache_len).
    + rewrite lookup_app_r by lia. rewrite Hlen, Nat.sub_diag.
      now rewrite list_lookup_fmap, H1.
    + lia.
    + rewrite drop_ge by lia. apply not_elem_of_nil.
  - (* nothing else is dropped by it *)
    intros k Hk1 Hk101.
    assert (Hids : ids = take cache_len ids ++ [a101]).
    { rewrite <- (take_drop_middle ids cache_len a101 H101) at 1.
      now rewrite (drop_ge ids (S cache_len)) by lia. }
    set (s100 := decode_all (take cache_len ids) s).
    assert (Hstep : decode_all ids s = (_deser a101 s100).2).
    { rewrite Hids at 1. unfold decode_all. now rewrite foldl_snoc. }
    rewrite Hstep.
    destruct (decode_all_fresh (take cache_len ids) s Hc)
      as (Hcache & _ & Hser & Hnone & _).
    { eapply sublist_NoDup; [done | apply sublist_take]. }
    { now apply ready_sublist. }
    fold s100 in Hcache, Hser, Hnone.
    assert (Hr101 : ready s a101 = true).
    { eapply forallb_forall in Hr; [done|].
      apply list_elem_of_In. eapply list_elem_of_lookup_2. exact H101. }
    apply ready_inv in Hr101 as (o & Ho & Hdata & Hok).
    assert (Hr100 : ready s100 a101 = true).
    { apply ready_inv. specialize (Hser a101). rewrite Ho in Hser.
      destruct (heap s100 !! a101) as [o'|] eqn:Ho'; [|done].
      simpl in Hser. injection Hser as Hser. exists o'.
      repeat split; [|congruence].
      rewrite <- (data_of_lookup _ _ _ Ho'). apply Hnone.
      - intros (i & Hi & Hlt)%elem_of_take.
        pose proof (NoDup_lookup _ _ _ _ Hnd Hi H101). lia.
      - now rewrite (data_of_lookup _ _ _ Ho). }
    assert (Hc100 : _cache_ref s100 <> []).
    { rewrite Hcache, length_take. intros H.
      apply (f_equal length) in H. rewrite length_drop, length_app in H.
      rewrite length_map, length_take in H. simpl in H. lia. }
    destruct (ready_miss s100 a101 Hr100 Hc100) as (v & e & s' & Hm).
    rewrite (miss_result _ _ _ _ _ Hm). cbn [snd].
    rewrite (miss_data _ _ _ _ _ k Hm).
    assert (e = Dict_object a1) as ->.
    { pose proof (miss_front _ _ _ _ _ Hm) as Hf.
      rewrite Hcache, length_take, head_lookup, lookup_drop in Hf.
      rewrite lookup_app_r in Hf by lia.
      rewrite list_lookup_fmap, lookup_take_lt in Hf by lia.
      replace (_ - _) with 0 in Hf by lia. rewrite H1 in Hf.
      simpl in Hf. congruence. }
    rewrite decide_False by congruence. now rewrite decide_False.
Qed.




End CacheFacts.

(** ** Pupil data files: the reader *)

Section ReaderFacts.

Lemma str_split_nonempty sep s : str_split sep s <> [].
Proof.
  destruct s as [|c s]; simpl; [done|].
  destruct (Ascii.eqb c sep); [done|]. now destruct (str_split sep s).
Qed.

Lemma item0_split topic : item0 (str_split "." topic) = Ok (first_segment topic).
Proof.
  unfold first_segment. pose proof (str_split_nonempty "." topic).
  now destruct (str_split "." topic).
Qed.

Lemma load_frame_frame (m : groups) frame :
  load_frame (PTuple [PStr frame.1; PBytes frame.2]) m = Ok (add_frame m frame).
Proof.
  unfold load_frame, add_frame. cbn [unpack_pair py_iter mbind result_bind].
  rewrite item0_split. cbn [mbind result_bind Serialized_Dict.__init__].
  f_equal. destruct (m !! first_segment frame.1) as [l|] eqn:Hl.
  - now rewrite Hl.
  - rewrite lookup_insert_eq. simpl. now rewrite insert_insert_eq.
Qed.

Lemma frame_bytes_unpack frame a rest fuel :
  frame_bytes frame = Ok a -> length a <= fuel ->
  msgpack.unpack false None fuel (a ++ rest)
  = Ok (PTuple [PStr frame.1; PBytes frame.2], rest).
Proof.
  intros Ha Hlen.
  apply (unpack_pack false None false (PTuple [PStr frame.1; PBytes frame.2])
           eq_refl msgpack.DEFAULT_RECURSE_LIMIT a fuel rest Ha Hlen).
Qed.

Lemma stream_bytes_length frames bs :
  stream_bytes frames = Ok bs -> length frames <= length bs.
Proof.
  revert bs. induction frames as [|f frames IH]; simpl; intros bs H.
  - lia.
  - inv_bind H. subst bs. rewrite length_app.
    pose proof (pack_nonempty _ _ _ _ Ha). specialize (IH _ Ha0). lia.
Qed.

Lemma load_frames_stream frames : forall bs fuel (m : groups),
  stream_bytes frames = Ok bs -> length frames <= fuel ->
  load_frames fuel bs m = Ok (foldl add_frame m frames).
Proof.
  induction frames as [|f frames IH]; simpl; intros bs fuel m Hs Hfuel.
  - apply Ok_inj in Hs. subst bs. now destruct fuel.
  - inv_bind Hs. subst bs.
    destruct fuel as [|fuel]; [lia|]. cbn [load_frames].
    rewrite (frame_bytes_unpack f a a0 _ Ha) by (rewrite length_app; lia).
    rewrite load_frame_frame. cbn [mbind result_bind].
    apply IH; [done | lia].
Qed.

Lemma foldl_add_frame frames : forall (m : groups) g,
  foldl add_frame m frames !! g
  = match records_of g frames with
    | [] => m !! g
    | l => Some (default [] (m !! g) ++ l)
    end.
Proof.
  induction frames as [|f frames IH]; intros m g; [done|].
  cbn [foldl]. rewrite IH. unfold records_of, add_frame.
  rewrite filter_cons. cbn [fst snd].
  destruct (decide (first_segment f.1 = g)) as [Hg|Hg].
  - rewrite Hg. rewrite lookup_insert_eq. cbn [map].
    destruct (map _ (filter _ frames)) as [|r l]; simpl.
    + reflexivity.
    + now rewrite <- app_assoc.
  - now rewrite lookup_insert_ne.
Qed.

Lemma load_pupil_data_file_stream (fs : files) file_path frames bs :
  stream_bytes frames = Ok bs -> fs !! file_path = Some bs ->
  load_pupil_data_file fs file_path = Ok (foldl add_frame ∅ frames).
Proof.
  intros Hs Hf.
  unfold load_pupil_data_file, open_rb. rewrite Hf. cbn [mbind result_bind].
  apply load_frames_stream; [done|]. now apply stream_bytes_length.
Qed.

Lemma groups_of_frames frames g :
  foldl add_frame ∅ frames !! g
  = match records_of g frames with
    | [] => None
    | l => Some l
    end.
Proof.
  rewrite foldl_add_frame, lookup_empty. now destruct (records_of g frames).
Qed.

(** C7.  Reader grouping.  For a file that holds the frames [frames] back
    to back, [load_pupil_data_file] returns a mapping in which each first
    segment of a topic is bound to the undecoded records of the frames
    with that first segment, in file order, and nothing else is bound.  In
    particular the topics "gaze.0", "gaze.1", "pupil.0" give the two
    groups "gaze", with the first two records in order, and "pupil", with
    the third. *)
Theorem reader_groups_by_first_segment :
  (forall (fs : files) file_path frames bs,
      stream_bytes frames = Ok bs -> fs !! file_path = Some bs ->
      exists m : groups,
        load_pupil_data_file fs file_path = Ok m
        /\ forall g, m !! g = match records_of g frames with
                              | [] => None
                              | l => Some l
                              end)
  /\ (forall (fs : files) file_path p0 p1 p2 bs,
        stream_bytes [("gaze.0", p0); ("gaze.1", p1); ("pupil.0", p2)] = Ok bs ->
        fs !! file_path = Some bs ->
        load_pupil_data_file fs file_path
        = Ok {[ "gaze" := [record_of p0; record_of p1];
                "pupil" := [record_of p2] ]}).
Proof.
  split.
  - intros fs file_path frames bs Hs Hf. exists (foldl add_frame ∅ frames).
    split; [now apply (load_pupil_data_file_stream fs file_path frames bs)|].
    apply groups_of_frames.
  - intros fs file_path p0 p1 p2 bs Hs Hf.
    rewrite (load_pupil_data_file_stream _ _ _ _ Hs Hf). reflexivity.
Qed.

End ReaderFacts.

(** The three frames of the example, with one-byte records. *)
Lemma reader_groups_by_first_segment_witness :
  load_pupil_data_file
    {[ "pupil_data" :=
         [x92; xa6; "g"; "a"; "z"; "e"; "."; "0"; xc4; x01; x80;
          x92; xa6; "g"; "a"; "z"; "e"; "."; "1"; xc4; x01; x81;
          x92; xa7; "p"; "u"; "p"; "i"; "l"; "."; "0"; xc4; x01; x82]%byte ]}
    "pupil_data"
  = Ok {[ "gaze" := [record_of [x80]; record_of [x81]];
          "pupil" := [record_of [x82]] ]}.
Proof.
  eapply (proj2 reader_groups_by_first_segment _ "pupil_data" [x80] [x81] [x82]).
  2: reflexivity.
  vm_compute. reflexivity.
Defined.

(** ** Pupil data files: the writer *)

(** C9.  [save_pupil_data_file] writes to the file named ["file_path"].
    For any other [file_path] the file at [file_path] is as it was before
    the call, and when there was none, [load_pupil_data_file] on
    [file_path] raises IOError. *)
Theorem writer_opens_a_constant_name (file_path : string) (data : list pyval)
    (fs : files) :
  file_path <> "file_path" ->
  let fs' := (save_pupil_data_file file_path data fs).2 in
  fs' !! file_path = fs !! file_path
  /\ is_Some (fs' !! "file_path")
  /\ (fs !! file_path = None ->
      load_pupil_data_file fs' file_path = Raise IOError).
Proof.
  intros Hne fs'. unfold fs', save_pupil_data_file, open_wb.
  destruct (save_frames data []) as [r written]. cbn [snd].
  assert (H1 : <["file_path" := written]> (<["file_path" := []]> fs) !! file_path
               = fs !! file_path).
  { now rewrite !lookup_insert_ne by done. }
  split; [done|]. split.
  - rewrite lookup_insert_eq. eauto.
  - intros Hnone. unfold load_pupil_data_file, open_rb.
    now rewrite H1, Hnone.
Qed.

(** One datum, saved for ["recording/pupil_data"] where no file is. *)
Lemma writer_opens_a_constant_name_witness :
  let fs' := (save_pupil_data_file "recording/pupil_data" [sample_datum] ∅).2 in
  fs' !! "recording/pupil_data" = (∅ : files) !! "recording/pupil_data"
  /\ is_Some (fs' !! "file_path")
  /\ ((∅ : files) !! "recording/pupil_data" = None ->
      load_pupil_data_file fs' "recording/pupil_data" = Raise IOError).
Proof.
  apply (writer_opens_a_constant_name "recording/pupil_data" [sample_datum] ∅).
  vm_compute. congruence.
Defined.

Lemma save_frames_stream data frames :
  Forall2 framed data frames ->
  forall written, exists bs,
    stream_bytes frames = Ok bs
    /\ save_frames data written = (Ok (), written ++ bs).
Proof.
  induction 1 as [|datum frame data frames (Ht & Hd & Hf) _ IH]; intros written.
  - exists []. now rewrite app_nil_r.
  - apply is_Ok_true in Hf as [a Ha].
    destruct (IH (written ++ a)) as (bs & Hbs & Hsave).
    exists (a ++ bs). cbn [stream_bytes save_frames]. rewrite Ha, Hbs. split; [done|].
    unfold save_frame. rewrite Ht, Hd. cbn [mbind result_bind].
    unfold frame_bytes in Ha. rewrite Ha. now rewrite Hsave, <- app_assoc.
Qed.

(** X16.  Under the name the writer does open, the reader finds every
    datum: in the group of its topic, in order, as a record whose bytes
    decode to the datum (its mappings frozen, its lists as tuples). *)
Lemma writer_then_reader_on_constant_name file_path data frames (fs : files) :
  Forall2 framed data frames ->
  let saved := save_pupil_data_file file_path data fs in
  saved.1 = Ok ()
  /\ (exists m : groups,
        load_pupil_data_file saved.2 "file_path" = Ok m
        /\ forall g, m !! g = match records_of g frames with
                              | [] => None
                              | l => Some l
                              end)
  /\ Forall2 (fun datum frame =>
        wf datum = true ->
        msgpack.loads false (Some Serialized_Dict._object_hook) frame.2
        = Ok (decoded false (Some Serialized_Dict._object_hook) datum))
       data frames.
Proof.
  intros Hfr. cbn zeta. unfold save_pupil_data_file.
  destruct (save_frames_stream data frames Hfr []) as (bs & Hbs & Hsave).
  rewrite Hsave. cbn [fst snd app]. split; [done|]. split.
  - exists (foldl add_frame ∅ frames). split.
    + apply (load_pupil_data_file_stream _ _ frames bs Hbs).
      now rewrite lookup_insert_eq.
    + apply groups_of_frames.
  - eapply Forall2_impl; [exact Hfr|]. intros datum frame (_ & Hd & _) Hwf.
    now apply (unpackb_packb false (Some Serialized_Dict._object_hook) false datum).
Qed.

(** ** Serialized_Dict: construction and [get] *)

Section DictFacts.
Import Serialized_Dict.

(** C5 as stated fails: with both a mapping and a payload the
    constructor returns an instance over the bytes of the mapping. *)
Lemma construction_with_both_counterexample :
  __init__ (PDict [("a", PInt 1)]) (PBytes [xc0])
  = Ok {| _ser_data := [x81; xa1; "a"%byte; x01]; _data := PNone |}
  /\ __init__ (PDict [("a", PInt 1)]) (PBytes [xc0]) <> Raise Exception_.
Proof. split; [reflexivity | discriminate]. Qed.

(** C5, amended.  With a dict that msgpack can pack as [mapping] the
    constructor succeeds and stores its bytes, whatever [payload] is,
    hence also when both are given; with no dict as [mapping] and bytes as
    [payload] it succeeds and stores these bytes; with neither it raises
    the plain Exception. *)
Theorem construction_sources :
  (forall d payload,
      packable false (PDict d) = true ->
      exists packed, msgpack.dumps (PDict d) = Ok packed
        /\ __init__ (PDict d) payload = Ok {| _ser_data := packed; _data := PNone |})
  /\ (forall mapping b,
        (forall d, mapping <> PDict d) ->
        __init__ mapping (PBytes b) = Ok {| _ser_data := b; _data := PNone |})
  /\ (forall mapping payload,
        (forall d, mapping <> PDict d) -> (forall b, payload <> PBytes b) ->
        __init__ mapping payload = Raise Exception_).
Proof.
  split; [|split].
  - intros d payload Hp. destruct (pack_packable false (PDict d) Hp) as [bs Hbs].
    exists bs. split; [exact Hbs|]. unfold __init__, msgpack.dumps.
    now rewrite Hbs.
  - intros mapping b Hm. destruct mapping; try reflexivity. now destruct (Hm d).
  - intros mapping payload Hm Hb.
    destruct mapping as [| | | | | | | |d|d'| |]; try (now destruct (Hm d));
      destruct payload as [| | | | |pb| | | | | |]; try reflexivity;
      now destruct (Hb pb).
Qed.

(** A mapping alone, bytes alone, and neither. *)
Lemma construction_sources_witness :
  (exists packed, msgpack.dumps (PDict [("a", PInt 1)]) = Ok packed
     /\ __init__ (PDict [("a", PInt 1)]) PNone
        = Ok {| _ser_data := packed; _data := PNone |})
  /\ __init__ PNone (PBytes [xc0]) = Ok {| _ser_data := [xc0]; _data := PNone |}
  /\ __init__ PNone PNone = Raise Exception_.
Proof.
  split; [|split].
  - apply (proj1 construction_sources [("a", PInt 1)] PNone). reflexivity.
  - apply (proj1 (proj2 construction_sources) PNone [xc0]). discriminate.
  - apply (proj2 (proj2 construction_sources) PNone PNone); discriminate.
Defined.

(** C6.  [get] does not look at its [key]: it answers the same for any
    two keys.  On the record built from [{"a": 1}], [r["a"]] is 1 and
    [r.get("a", 0)] is 0; with a field named ["key"] present, [get]
    answers that field for every key. *)
Theorem get_indexes_with_a_constant :
  (forall self key key' default s,
      get self key default s = get self key' default s)
  /\ (let s := one_record (PDict [("a", PInt 1)]) in
      (__getitem__ 0 "a" s).1 = Ok (PInt 1)
      /\ (get 0 "a" (PInt 0) s).1 = Ok (PInt 0))
  /\ (let s := one_record (PDict [("a", PInt 1); ("key", PInt 2)]) in
      (get 0 "a" (PInt 0) s).1 = Ok (PInt 2)
      /\ (get 0 "b" (PInt 0) s).1 = Ok (PInt 2)).
Proof.
  split; [reflexivity|]. split; vm_compute; split; reflexivity.
Qed.

End DictFacts.

(** ** FrozenDict *)

Section FrozenFacts.
Import Serialized_Dict.




Lemma data_of_set_data s self v :
  is_Some (heap s !! self) -> data_of self (set_data self v s) = v.
Proof.
  intros [obj Hobj]. unfold data_of, set_data. cbn [heap].
  now rewrite lookup_alter_eq, Hobj.
Qed.


(** C3.  Removal is not among the overridden methods.  For the record
    built from [{"a": {"b": 1}}], on the mapping [m = r["a"]] both
    [del m["b"]] and [m.pop("b")] return normally, and the decoded value
    of the record has become [{"a": {}}]; [m.setdefault("c", 2)] returns
    normally as well and has added the key. *)
Theorem frozen_dict_allows_removal :
  let s0 := one_record (PDict [("a", PDict [("b", PInt 1)])]) in
  let r := __getitem__ 0 "a" s0 in
  let deleted := on_nested (fun m => FrozenDict.__delitem__ m "b") 0 [Key "a"] r.2 in
  let popped := on_nested (fun m => FrozenDict.pop m "b") 0 [Key "a"] r.2 in
  let added :=
    on_nested (fun m => FrozenDict.setdefault m "c" (PInt 2)) 0 [Key "a"] r.2 in
  r.1 = Ok (PFrozenDict [("b", PInt 1)])
  /\ data_of 0 r.2 = PFrozenDict [("a", PFrozenDict [("b", PInt 1)])]
  /\ deleted.1 = Ok ()
  /\ data_of 0 deleted.2 = PFrozenDict [("a", PFrozenDict [])]
  /\ popped.1 = Ok (PInt 1)
  /\ data_of 0 popped.2 = PFrozenDict [("a", PFrozenDict [])]
  /\ added.1 = Ok (PInt 2)
  /\ data_of 0 added.2
     = PFrozenDict [("a", PFrozenDict [("b", PInt 1); ("c", PInt 2)])].
Proof. vm_compute. repeat split; reflexivity. Qed.

End FrozenFacts.

(** ** Persistent_Dict and stored objects *)

Lemma dict_update_fresh {A} (other : list (string * A)) : forall d,
  NoDup (map fst d ++ map fst other) -> dict_update d other = d ++ other.
Proof.
  unfold dict_update.
  induction other as [|[k v] other IH]; intros d Hnd; simpl.
  - now rewrite app_nil_r.
  - simpl in Hnd.
    assert (Hk : k ∉ map fst d).
    { apply NoDup_app in Hnd as (_ & Hdisj & _). intros Hin.
      apply (Hdisj k Hin). left. }
    rewrite dict_set_fresh by done. rewrite IH.
    + now rewrite <- app_assoc.
    + rewrite map_app. simpl. now rewrite <- app_assoc.
Qed.

Section SettingsFacts.
Variable expanduser : string -> string.
Variable pickle_load_raw : list byte -> result pyval.

(** C8, amended.  For an object built from None, booleans, integers from
    -2^63 up to 2^64-1, floats, strs, bytes, lists and str-keyed dicts
    (no tuple, no numpy array, no FrozenDict; lengths below 2^32; no item
    inside more than 511 lists and dicts, the depth to which the packer
    follows them), [save_object] succeeds and [load_object] on the same
    path returns that very object. *)
Theorem save_then_load_restores object_ file_path (fs : files) allow_legacy :
  plain object_ = true -> wf object_ = true -> packable true object_ = true ->
  (save_object expanduser object_ file_path fs).1 = Ok ()
  /\ load_object expanduser pickle_load_raw
       (save_object expanduser object_ file_path fs).2 file_path allow_legacy
     = (Ok object_, []).
Proof.
  intros Hplain Hwf Hp.
  now apply (load_object_save_object_plain expanduser pickle_load_raw).
Qed.

End SettingsFacts.



(** A settings object with every kind of scalar in it. *)
Lemma save_then_load_restores_witness :
  let o := PDict [("version", PInt 3); ("gain", PFloat 0);
                  ("name", PStr "eye0"); ("flags", PList [PBool true; PNone; PInt (-70000)])] in
  (save_object (fun p => p) o "settings" ∅).1 = Ok ()
  /\ load_object (fun p => p) pickle_load
       (save_object (fun p => p) o "settings" ∅).2 "settings" false
     = (Ok o, []).
Proof.
  apply (save_then_load_restores (fun p => p) pickle_load); reflexivity.
Defined.

(** ** Witnesses for the cache theorems *)

Section WitnessStates.
Import Serialized_Dict.

(** The same 101 records: the first is dropped by the decode of the
    last. *)
Lemma eviction_order_witness :
  exists a1 a101 obj v1,
    seq 0 101 !! 0 = Some a1 /\ seq 0 101 !! cache_len = Some a101
    /\ heap (loaded 101) !! a1 = Some obj
    /\ msgpack.loads false (Some _object_hook) (_ser_data obj) = Ok v1
    /\ (forall n, 1 <= n <= cache_len ->
          data_of a1 (decode_all (take n (seq 0 101)) (loaded 101)) = v1)
    /\ head (_cache_ref (decode_all (take cache_len (seq 0 101)) (loaded 101)))
       = Some (Dict_object a1)
    /\ data_of a1 (decode_all (seq 0 101) (loaded 101)) = PNone
    /\ (forall k, k <> a1 -> k <> a101 ->
          data_of k (decode_all (seq 0 101) (loaded 101))
          = data_of k (decode_all (take cache_len (seq 0 101)) (loaded 101))).
Proof.
  apply (eviction_order (loaded 101) (seq 0 101)).
  - reflexivity.
  - apply (bool_decide_unpack _). vm_compute. exact I.
  - reflexivity.
  - vm_compute. reflexivity.
  - intros self _. vm_compute. intros H.
    repeat (apply elem_of_cons in H as [H|H]; [discriminate|]).
    now apply elem_of_nil in H.
Defined.



End WitnessStates.

(** * Further properties *)

(** ** Serialized_Dict: the cache under any use *)

Section CacheUse.
Import Serialized_Dict.

Local Abbreviation loads_frozen := (msgpack.loads false (Some _object_hook)).

Lemma run_invariant actions : forall s,
  tracked s -> length (_cache_ref s) = cache_len ->
  tracked (run actions s) /\ length (_cache_ref (run actions s)) = cache_len.
Proof.
  induction actions as [|a actions IH]; intros s Ht Hl; [done|].
  assert (Hc : _cache_ref s <> []) by (intros Hc; now rewrite Hc in Hl).
  unfold run. simpl. destruct a as [m p|self|self]; simpl; apply IH.
  - apply tracked_new, Ht.
  - now rewrite (proj2 (tracked_new m p s Ht)).
  - now apply tracked_deser.
  - now rewrite (proj2 (tracked_deser s self Ht Hc)).
  - apply tracked_purge_cache, Ht.
  - exact Hl.
Qed.

(** X1.  Whatever a process does with the class, from its start on:
    building instances, reading them, purging them, in any order and
    with any arguments, at most 100 instances hold a decoded value, the
    cache keeps its 100 slots, and every instance that holds a value is
    referred to by the cache. *)
Theorem decoded_values_never_exceed_cache (actions : list action) :
  let s := run actions initial in
  size (live s) <= cache_len
  /\ length (_cache_ref s) = cache_len
  /\ forall self, is_None (data_of self s) = false -> Dict_object self ∈ _cache_ref s.
Proof.
  cbn zeta.
  destruct (run_invariant actions initial) as [Ht Hl];
    [apply tracked_initial | reflexivity |].
  split; [rewrite <- Hl; now apply live_bound|]. split; [done|].
  intros self Hn. unfold data_of in Hn.
  destruct (heap (run actions initial) !! self) as [obj|] eqn:Hobj; [|done].
  now apply (Ht self obj).
Qed.

Lemma decode_all_app l1 l2 s :
  decode_all (l1 ++ l2) s = decode_all l2 (decode_all l1 s).
Proof. unfold decode_all. apply foldl_app. Qed.

Lemma decode_all_hits n : forall s self obj,
  heap s !! self = Some obj -> truthy (_data obj) = true ->
  decode_all (replicate n self) s = s.
Proof.
  induction n as [|n IH]; intros s self obj Hobj Ht; [done|].
  unfold decode_all. simpl. rewrite (deser_hit s self obj Hobj Ht). simpl.
  now apply (IH s self obj).
Qed.

(** None of the slots that are still in the cache after a run refers to
    an instance decoded later in the run. *)
Lemma recent_slot_free (s : state) (ids : list nat) j self :
  length (_cache_ref s) = cache_len -> NoDup ids ->
  (forall self, self ∈ ids -> Dict_object self ∉ _cache_ref s) ->
  ids !! j = Some self -> length ids - cache_len <= j ->
  Dict_object self ∉ drop j (take (length ids) (_cache_ref s ++ map Dict_object ids)).
Proof.
  intros Hl Hnd Hout Hj Hrecent.
  intros Hin. apply list_elem_of_lookup in Hin as [i Hi].
  rewrite lookup_drop, lookup_take_Some in Hi. destruct Hi as [Hi Hlt].
  destruct (decide (j + i < length (_cache_ref s))) as [Hlow|Hhigh].
  - rewrite lookup_app_l in Hi by done.
    apply (Hout self); [eapply list_elem_of_lookup_2, Hj|].
    eapply list_elem_of_lookup_2, Hi.
  - rewrite lookup_app_r in Hi by lia.
    rewrite list_lookup_fmap in Hi.
    destruct (ids !! (j + i - length (_cache_ref s))) as [k|] eqn:Hk; [|done].
    injection Hi as ->.
    pose proof (NoDup_lookup _ _ _ _ Hnd Hj Hk). lia.
Qed.

(** X2.  The most recent decodes stay.  From a state whose cache has its
    100 slots and refers to none of them, let different instances, none
    holding a value and each with bytes that decode, be decoded one after
    the other.  Each of the last 100 of them holds at the end the value
    its bytes decode to. *)
Theorem recent_decodes_stay (s : state) (ids : list nat) :
  length (_cache_ref s) = cache_len -> NoDup ids ->
  forallb (ready s) ids = true ->
  (forall self, self ∈ ids -> Dict_object self ∉ _cache_ref s) ->
  forall j self obj v,
    ids !! j = Some self -> length ids - cache_len <= j ->
    heap s !! self = Some obj -> loads_frozen (_ser_data obj) = Ok v ->
    data_of self (decode_all ids s) = v.
Proof.
  intros Hl Hnd Hr Hout j self obj v Hj Hrecent Hobj Hv.
  assert (Hc : _cache_ref s <> []) by (intros Hc; now rewrite Hc in Hl).
  destruct (decode_all_fresh ids s Hc Hnd Hr)
    as (_ & _ & _ & _ & _ & _ & Hkeep).
  apply (Hkeep self j obj v Hj Hobj Hv).
  now apply recent_slot_free.
Qed.

(** X3.  The cache is first in, first out; a read does not renew the
    place of an instance that holds a value that is true.  In a run of
    101 decodes of different instances, the first of which decodes to a
    value that is true (a non-empty mapping), reading the first instance
    any number of times just before the last decode changes nothing: the
    state at the end is the same, and the first instance has lost its
    value. *)
Theorem reads_do_not_refresh (s : state) (ids : list nat) (n : nat) :
  length (_cache_ref s) = cache_len -> NoDup ids ->
  forallb (ready s) ids = true -> length ids = S cache_len ->
  (forall self, self ∈ ids -> Dict_object self ∉ _cache_ref s) ->
  forall a1 obj v1,
    ids !! 0 = Some a1 -> heap s !! a1 = Some obj ->
    loads_frozen (_ser_data obj) = Ok v1 -> truthy v1 = true ->
    decode_all (take cache_len ids ++ replicate n a1 ++ drop cache_len ids) s
    = decode_all ids s
    /\ data_of a1 (decode_all ids s) = PNone.
Proof.
  intros Hl Hnd Hr Hlen Hout a1 obj v1 Ha1 Hobj Hv Ht.
  assert (Hc : _cache_ref s <> []) by (intros Hc; now rewrite Hc in Hl).
  assert (Hcl : cache_len = 100) by reflexivity.
  split.
  - rewrite !decode_all_app.
    set (s100 := decode_all (take cache_len ids) s).
    assert (Hs : decode_all (replicate n a1) s100 = s100).
    { assert (Hnd' : NoDup (take cache_len ids)).
      { rewrite <- (take_drop cache_len ids) in Hnd. now apply NoDup_app in Hnd as [? _]. }
      destruct (decode_all_fresh (take cache_len ids) s Hc Hnd'
                  (ready_sublist s ids cache_len Hr))
        as (_ & _ & Hser & _ & _ & _ & Hkeep).
      fold s100 in Hser, Hkeep.
      assert (Hd : data_of a1 s100 = v1).
      { apply (Hkeep a1 0 obj v1); [|done|done|].
        - rewrite lookup_take_lt by lia. done.
        - rewrite drop_0, length_take, Hlen, Nat.min_l by lia.
          rewrite take_app_le, take_ge by lia.
          apply Hout. eapply list_elem_of_lookup_2, Ha1. }
      specialize (Hser a1). rewrite Hobj in Hser.
      destruct (heap s100 !! a1) as [obj'|] eqn:Hobj'; [|done].
      apply (decode_all_hits n s100 a1 obj' Hobj').
      rewrite (data_of_lookup _ _ _ Hobj') in Hd. now rewrite Hd. }
    rewrite Hs. unfold s100. rewrite <- decode_all_app, take_drop. done.
  - destruct (decode_all_fresh ids s Hc Hnd Hr)
      as (_ & _ & _ & _ & _ & Hpop & _).
    apply (Hpop a1 cache_len); [| lia |].
    + rewrite lookup_app_r by lia. rewrite Hl, Nat.sub_diag.
      now rewrite list_lookup_fmap, Ha1.
    + rewrite drop_ge by lia. apply not_elem_of_nil.
Qed.

Lemma front_instance_evicts_itself_aux (s : state) (self : nat) (obj : instance)
    (v : pyval) (rest : list cache_entry) :
  heap s !! self = Some obj -> truthy (_data obj) = false ->
  loads_frozen (_ser_data obj) = Ok v ->
  _cache_ref s = Dict_object self :: rest ->
  exists s',
    _deser self s = (Ok (), s') /\ data_of self s' = PNone.
Proof.
  intros Hobj Ht Hv Hc.
  destruct (deser_miss s self obj v _ rest Hobj Ht Hv Hc)
    as (s' & Hd & Hc' & _ & Hh).
  exists s'. split; [done|].
  unfold data_of. rewrite Hh, Hobj. simpl. now rewrite decide_True.
Qed.

(** X4.  An instance that holds no usable value while the oldest slot of
    the cache refers to it drops the value it has just decoded: [_deser]
    assigns the value, then pops that slot and purges the instance it
    refers to.  The reader that asked goes on with None: [__getitem__],
    [__len__] and [__contains__] raise TypeError, [keys] raises
    AttributeError. *)
Theorem front_instance_evicts_itself (s : state) (self : nat) (obj : instance)
    (v : pyval) (rest : list cache_entry) (key : string) :
  heap s !! self = Some obj -> truthy (_data obj) = false ->
  loads_frozen (_ser_data obj) = Ok v ->
  _cache_ref s = Dict_object self :: rest ->
  exists s',
    _deser self s = (Ok (), s')
    /\ data_of self s' = PNone
    /\ _cache_ref s' = rest ++ [Dict_object self]
    /\ __getitem__ self key s = (Raise TypeError, s')
    /\ __len__ self s = (Raise TypeError, s')
    /\ __contains__ self key s = (Raise TypeError, s')
    /\ keys self s = (Raise AttributeError, s').
Proof.
  intros Hobj Ht Hv Hc.
  destruct (deser_miss s self obj v _ rest Hobj Ht Hv Hc)
    as (s' & Hd & Hc' & _ & Hh).
  assert (Hdata : data_of self s' = PNone).
  { unfold data_of. rewrite Hh, Hobj. simpl. now rewrite decide_True. }
  exists s'. repeat split; try done;
    unfold __getitem__, __len__, __contains__, keys, reading;
    now rewrite Hd, Hdata.
Qed.

Lemma decode_same_falsy_instance n : forall s self obj,
  heap s !! self = Some obj ->
  loads_frozen (_ser_data obj) = Ok (PFrozenDict []) ->
  truthy (_data obj) = false ->
  n <= length (_cache_ref s) ->
  Dict_object self ∉ take n (_cache_ref s) ->
  let sn := decode_all (replicate n self) s in
  _cache_ref sn = drop n (_cache_ref s ++ replicate n (Dict_object self))
  /\ exists obj', heap sn !! self = Some obj'
                  /\ _ser_data obj' = _ser_data obj
                  /\ truthy (_data obj') = false.
Proof.
  induction n as [|n IH]; intros s self obj Hobj Hv Ht Hn Hout; cbn zeta.
  - simpl. rewrite app_nil_r, drop_0. eauto.
  - destruct (_cache_ref s) as [|e rest] eqn:Hcache; [simpl in Hn; lia|].
    simpl in Hn. rewrite firstn_cons in Hout.
    apply not_elem_of_cons in Hout as [He Hout].
    destruct (deser_miss s self obj _ e rest Hobj Ht Hv Hcache)
      as (s1 & Hd & Hc1 & Hl1 & Hh1).
    assert (Hs1 : decode_all (replicate (S n) self) s
                  = decode_all (replicate n self) s1).
    { unfold decode_all. simpl. now rewrite Hd. }
    rewrite Hs1.
    specialize (Hh1 self). rewrite Hobj in Hh1. simpl in Hh1.
    destruct (IH s1 self _ Hh1) as [IHc (obj' & Ho' & Hs' & Ht')].
    + exact Hv.
    + simpl. rewrite decide_False by congruence. now rewrite decide_True.
    + rewrite Hc1, length_app. simpl. lia.
    + rewrite Hc1, take_app_le by lia. exact Hout.
    + split; [|eauto].
      rewrite IHc, Hc1, <- app_assoc. reflexivity.
Qed.

(** X5.  A record over the empty mapping is decoded again by every
    access and takes a new slot of the cache each time.  Read over and
    over, starting with a cache that does not refer to it, it answers
    [len] with 0 a hundred times; at the next access the oldest slot
    refers to the record itself and [len] raises TypeError. *)
Theorem empty_mapping_fails_when_it_reaches_the_front (s : state) (self : nat)
    (obj : instance) :
  heap s !! self = Some obj ->
  loads_frozen (_ser_data obj) = Ok (PFrozenDict []) ->
  truthy (_data obj) = false ->
  length (_cache_ref s) = cache_len ->
  Dict_object self ∉ _cache_ref s ->
  (forall n, n < cache_len ->
     (__len__ self (decode_all (replicate n self) s)).1 = Ok 0)
  /\ (__len__ self (decode_all (replicate cache_len self) s)).1 = Raise TypeError.
Proof.
  intros Hobj Hv Ht Hl Hout. split.
  - intros n Hn.
    destruct (decode_same_falsy_instance n s self obj Hobj Hv Ht)
      as [Hc (obj' & Ho' & Hs' & Ht')]; [lia| |].
    { intros Hin. apply Hout. now apply (subseteq_take n). }
    rewrite <- Hs' in Hv.
    destruct (_cache_ref s !! n) as [e|] eqn:He.
    2: { apply lookup_ge_None in He. lia. }
    rewrite drop_app_le in Hc by lia.
    rewrite (drop_S _ e n He) in Hc. 
    destruct (deser_miss _ self obj' _ e _ Ho' Ht' Hv Hc)
      as (s' & Hd & _ & _ & Hh).
    unfold __len__, reading. rewrite Hd. unfold data_of.
    rewrite Hh, Ho'. simpl.
    rewrite decide_False, decide_True; [done|done|].
    intros ->. apply Hout. eapply list_elem_of_lookup_2, He.
  - destruct (decode_same_falsy_instance cache_len s self obj Hobj Hv Ht)
      as [Hc (obj' & Ho' & Hs' & Ht')]; [lia| |].
    { now rewrite take_ge by lia. }
    rewrite <- Hs' in Hv.
    rewrite drop_app_length' in Hc by done.
    destruct (front_instance_evicts_itself_aux _ self obj' _ _ Ho' Ht' Hv Hc)
      as (s' & Hd & Hdata).
    unfold __len__, reading. now rewrite Hd, Hdata.
Qed.

Lemma purge_cache_idem self s :
  purge_cache self (purge_cache self s) = purge_cache self s.
Proof.
  unfold purge_cache, set_data. cbn [heap _cache_ref loads_calls]. f_equal.
  apply map_eq. intros k. rewrite !lookup_alter.
  repeat case_decide; try done. now destruct (heap s !! self).
Qed.

(** X6.  [purge_cache] forgets the decoded value and nothing else;
    purging twice is purging once.  The next read calls [msgpack.loads]
    on the stored bytes, operates on the value they decode to and appends
    a further reference to the cache; the slots that referred to the
    instance before the purge are not released. *)
Theorem purge_then_read {A} (op : pyval -> result A) (s : state) (self : nat)
    (obj : instance) (v : pyval) (e : cache_entry) (rest : list cache_entry) :
  heap s !! self = Some obj -> loads_frozen (_ser_data obj) = Ok v ->
  _cache_ref s = e :: rest -> e <> Dict_object self ->
  data_of self (purge_cache self s) = PNone
  /\ purge_cache self (purge_cache self s) = purge_cache self s
  /\ exists s',
       reading op self (purge_cache self s) = (op v, s')
       /\ data_of self s' = v
       /\ loads_calls s' = S (loads_calls s)
       /\ _cache_ref s' = rest ++ [Dict_object self].
Proof.
  intros Hobj Hv Hc He.
  assert (Hp : heap (purge_cache self s) !! self
               = Some {| _ser_data := _ser_data obj; _data := PNone |}).
  { unfold purge_cache, set_data. cbn [heap].
    now rewrite lookup_alter, decide_True, Hobj. }
  split; [now rewrite (data_of_lookup _ _ _ Hp)|].
  split; [apply purge_cache_idem|].
  destruct (deser_miss (purge_cache self s) self _ v e rest Hp eq_refl Hv Hc)
    as (s' & Hd & Hc' & Hl' & Hh).
  assert (Hdata : data_of self s' = v).
  { unfold data_of. rewrite Hh, Hp. simpl.
    rewrite decide_False by done. now rewrite decide_True. }
  exists s'. repeat split; try done.
  unfold reading. now rewrite Hd, Hdata.
Qed.
End CacheUse.

Section CacheUseWitnesses.
Import Serialized_Dict.

(** 101 records of a fresh process, read in turn: the second still holds
    its value. *)
Lemma recent_decodes_stay_witness :
  data_of 1 (decode_all (seq 0 101) (loaded 101)) = PFrozenDict [("a", PInt 1%Z)].
Proof.
  apply (recent_decodes_stay (loaded 101) (seq 0 101)) with (j := 1)
    (obj := record_of sample_payload).
  - reflexivity.
  - apply (bool_decide_unpack _). vm_compute. exact I.
  - vm_compute. reflexivity.
  - intros self _. apply (bool_decide_unpack _). vm_compute. exact I.
  - reflexivity.
  - vm_compute. lia.
  - vm_compute. reflexivity.
  - vm_compute. reflexivity.
Defined.

(** The same 101 records, the first read three more times before the
    last is decoded. *)
Lemma reads_do_not_refresh_witness :
  decode_all (take cache_len (seq 0 101) ++ replicate 3 0 ++ drop cache_len (seq 0 101))
             (loaded 101)
  = decode_all (seq 0 101) (loaded 101)
  /\ data_of 0 (decode_all (seq 0 101) (loaded 101)) = PNone.
Proof.
  apply (reads_do_not_refresh (loaded 101) (seq 0 101) 3) with
    (obj := record_of sample_payload) (v1 := PFrozenDict [("a", PInt 1%Z)]).
  - reflexivity.
  - apply (bool_decide_unpack _). vm_compute. exact I.
  - vm_compute. reflexivity.
  - reflexivity.
  - intros self _. apply (bool_decide_unpack _). vm_compute. exact I.
  - reflexivity.
  - vm_compute. reflexivity.
  - vm_compute. reflexivity.
  - reflexivity.
Defined.

(** The empty record after a hundred accesses. *)
Lemma front_instance_evicts_itself_witness :
  let s := decode_all (replicate cache_len 0) empty_record_state in
  exists s',
    _deser 0 s = (Ok (), s')
    /\ data_of 0 s' = PNone
    /\ _cache_ref s' = replicate 99 (Dict_object 0) ++ [Dict_object 0]
    /\ __getitem__ 0 "a" s = (Raise TypeError, s')
    /\ __len__ 0 s = (Raise TypeError, s')
    /\ __contains__ 0 "a" s = (Raise TypeError, s')
    /\ keys 0 s = (Raise AttributeError, s').
Proof.
  apply (front_instance_evicts_itself
           (decode_all (replicate cache_len 0) empty_record_state) 0
           {| _ser_data := [x80]; _data := PFrozenDict [] |}
           (PFrozenDict []) (replicate 99 (Dict_object 0)) "a").
  - vm_compute. reflexivity.
  - reflexivity.
  - vm_compute. reflexivity.
  - vm_compute. reflexivity.
Defined.

(** One record over the empty mapping in a fresh process. *)
Lemma empty_mapping_fails_when_it_reaches_the_front_witness :
  (forall n, n < cache_len ->
     (__len__ 0 (decode_all (replicate n 0) empty_record_state)).1 = Ok 0)
  /\ (__len__ 0 (decode_all (replicate cache_len 0) empty_record_state)).1
     = Raise TypeError.
Proof.
  apply (empty_mapping_fails_when_it_reaches_the_front empty_record_state 0
           (record_of [x80])).
  - reflexivity.
  - vm_compute. reflexivity.
  - reflexivity.
  - reflexivity.
  - apply (bool_decide_unpack _). vm_compute. exact I.
Defined.

(** Two records, both read, the first purged and read again. *)
Lemma purge_then_read_witness :
  let s := decode_all [0; 1] (loaded 2) in
  data_of 0 (purge_cache 0 s) = PNone
  /\ purge_cache 0 (purge_cache 0 s) = purge_cache 0 s
  /\ exists s',
       reading py_len 0 (purge_cache 0 s) = (Ok 1, s')
       /\ data_of 0 s' = PFrozenDict [("a", PInt 1%Z)]
       /\ loads_calls s' = S (loads_calls s)
       /\ _cache_ref s'
          = (replicate 97 Empty_object ++ [Dict_object 0; Dict_object 1])
            ++ [Dict_object 0].
Proof.
  apply (purge_then_read py_len (decode_all [0; 1] (loaded 2)) 0
           {| _ser_data := sample_payload; _data := PFrozenDict [("a", PInt 1%Z)] |}
           (PFrozenDict [("a", PInt 1%Z)]) Empty_object
           (replicate 97 Empty_object ++ [Dict_object 0; Dict_object 1])).
  - vm_compute. reflexivity.
  - vm_compute. reflexivity.
  - vm_compute. reflexivity.
  - discriminate.
Defined.
End CacheUseWitnesses.

(** ** What the unpacker builds, whatever the bytes *)

(** A property that holds of every scalar the unpacker can read, and of
    an array or a map whose parts have it, holds of every object it
    returns. *)
Section UnpackBuilds.
Local Open Scope Z_scope.

Lemma read_n_length n bs h r :
  msgpack.read_n n bs = Ok (h, r) -> length h = n /\ bs = h ++ r.
Proof.
  unfold msgpack.read_n. destruct (Nat.ltb_spec (length bs) n); [done|].
  intros [= <- <-]. rewrite length_take, take_drop. split; [lia | done].
Qed.

Lemma be_value_from_range bs : forall acc,
  0 <= acc ->
  acc * 256 ^ Z.of_nat (length bs) <= be_value_from acc bs
  < (acc + 1) * 256 ^ Z.of_nat (length bs).
Proof.
  induction bs as [|b bs IH]; intros acc Hacc.
  - simpl. lia.
  - cbn [be_value_from length]. pose proof (Z_of_byte_range b) as Hb.
    specialize (IH (acc * 256 + Z_of_byte b) ltac:(lia)).
    rewrite Nat2Z.inj_succ, Z.pow_succ_r by lia.
    assert (Hp : 0 < 256 ^ Z.of_nat (length bs)) by (apply Z.pow_pos_nonneg; lia).
    nia.
Qed.

Lemma read_uint_range w bs n r :
  msgpack.read_uint w bs = Ok (n, r) -> 0 <= n < 256 ^ Z.of_nat w.
Proof.
  unfold msgpack.read_uint. intros H.
  apply bind_Ok in H as ([h r'] & Hh & H). injection H as <- <-.
  apply read_n_length in Hh as [<- _].
  pose proof (be_value_from_range h 0 ltac:(lia)). unfold be_value. lia.
Qed.

Lemma to_signed_range w u :
  0 < w -> 0 <= u < 2 ^ w -> - 2 ^ (w - 1) <= to_signed w u < 2 ^ (w - 1).
Proof.
  intros Hw Hu. unfold to_signed.
  assert (H2 : 2 ^ w = 2 * 2 ^ (w - 1)).
  { replace w with (Z.succ (w - 1)) at 1 by lia. apply Z.pow_succ_r. lia. }
  destruct (Z.ltb_spec u (2 ^ (w - 1))); lia.
Qed.

Lemma dict_set_fst {A} (d : list (string * A)) k v :
  map fst (dict_set d k v)
  = map fst d ++ (if decide (k ∈ map fst d) then [] else [k]).
Proof.
  induction d as [|[k' v'] d IH]; cbn [dict_set map fst app].
  - rewrite decide_False; [done | apply not_elem_of_nil].
  - destruct (String.eqb_spec k' k) as [->|Hne]; cbn [map fst app].
    + rewrite decide_True by (apply elem_of_cons; now left). now rewrite app_nil_r.
    + rewrite IH. do 2 f_equal.
      destruct (decide (k ∈ map fst d)) as [Hin|Hout].
      * rewrite decide_True; [done | apply elem_of_cons; now right].
      * rewrite decide_False; [done|].
        intros [?|?]%elem_of_cons; congruence.
Qed.

Lemma dict_set_keys {A} (d : list (string * A)) k v :
  NoDup (map fst d) -> NoDup (map fst (dict_set d k v)).
Proof.
  intros Hnd. rewrite dict_set_fst. case_decide as Hk.
  - now rewrite app_nil_r.
  - apply NoDup_app. split; [done|]. split; [|apply NoDup_singleton].
    intros x Hx ->%list_elem_of_singleton. done.
Qed.

Lemma dict_set_length {A} (d : list (string * A)) k v :
  (length (dict_set d k v) <= S (length d))%nat.
Proof.
  rewrite <- (length_map fst (dict_set d k v)), dict_set_fst, length_app, length_map.
  case_decide; simpl; lia.
Qed.

Lemma dict_set_Forall {A} (Q : string * A -> Prop) (d : list (string * A)) k v :
  Forall Q d -> Q (k, v) -> Forall Q (dict_set d k v).
Proof.
  intros Hd Hkv. induction Hd as [|[k' v'] d Hx Hd IH]; simpl.
  - now constructor.
  - destruct (String.eqb_spec k' k) as [->|Hne]; now constructor.
Qed.

Variable use_list : bool.
Variable object_hook : option (pyval -> pyval).
Variable P : pyval -> Prop.
Hypothesis HNone : P PNone.
Hypothesis HBool : forall b, P (PBool b).
Hypothesis HInt : forall z, - 2 ^ 63 <= z < 2 ^ 64 -> P (PInt z).
Hypothesis HFloat : forall bits, 0 <= bits < 2 ^ 64 -> P (PFloat bits).
Hypothesis HStr : forall b, len32 b = true -> P (PStr (string_of_list_byte b)).
Hypothesis HBytes : forall b, len32 b = true -> P (PBytes b).
Hypothesis HArray : forall vs,
  len32 vs = true -> Forall P vs -> P (msgpack.mk_array use_list vs).
Hypothesis HMap : forall d,
  len32 d = true -> NoDup (map fst d) ->
  Forall (fun kv => P (PStr kv.1) /\ P kv.2) d ->
  P (msgpack.mk_map object_hook d).

Lemma unpack_seq_builds u n :
  (forall bs v r, u bs = Ok (v, r) -> P v) ->
  forall bs vs r, msgpack.unpack_seq u n bs = Ok (vs, r) ->
    Forall P vs /\ length vs = n.
Proof.
  intros Hu. induction n as [|n IH]; intros bs vs r; simpl.
  - intros [= <- <-]. split; [constructor | done].
  - intros H. apply bind_Ok in H as ([v r1] & Hv & H).
    apply bind_Ok in H as ([vs' r2] & Hvs & H). injection H as <- <-.
    destruct (IH _ _ _ Hvs) as [IH1 IH2]. split; [|simpl; lia].
    constructor; [now apply (Hu _ _ _ Hv) | done].
Qed.

Lemma unpack_items_builds u n :
  (forall bs v r, u bs = Ok (v, r) -> P v) ->
  forall bs d d' r, msgpack.unpack_items u n bs d = Ok (d', r) ->
    NoDup (map fst d) -> Forall (fun kv => P (PStr kv.1) /\ P kv.2) d ->
    NoDup (map fst d')
    /\ Forall (fun kv => P (PStr kv.1) /\ P kv.2) d'
    /\ (length d' <= length d + n)%nat.
Proof.
  intros Hu. induction n as [|n IH]; intros bs d d' r; simpl.
  - intros [= <- <-]. repeat split; [done | done | lia].
  - intros H Hnd Hd. apply bind_Ok in H as ([k r1] & Hk & H).
    destruct k as [| | | |s| | | | | | |]; try discriminate.
    apply bind_Ok in H as ([v r2] & Hv & H).
    destruct (IH _ _ _ _ H) as (IH1 & IH2 & IH3).
    + now apply dict_set_keys.
    + apply dict_set_Forall; [done|]. split; [apply (Hu _ _ _ Hk) | apply (Hu _ _ _ Hv)].
    + repeat split; [done | done |].
      pose proof (dict_set_length d s v). lia.
Qed.


Lemma len32_to_nat {A} (l : list A) n :
  length l = Z.to_nat n -> n < 2 ^ 32 -> len32 l = true.
Proof. intros Hl Hn. unfold len32. apply Z.ltb_lt. lia. Qed.

Ltac unpack_step H :=
  match type of H with
  | (_ ≫= _) = Ok _ =>
      let a := fresh "a" in let r := fresh "r" in let Ha := fresh "Ha" in
      apply bind_Ok in H; destruct H as ([a r] & Ha & H)
  end.

Lemma unpack_builds fuel : forall bs v r,
  msgpack.unpack use_list object_hook fuel bs = Ok (v, r) -> P v.
Proof.
  induction fuel as [|fuel IH]; intros bs v r; [discriminate|].
  destruct bs as [|b bs]; [discriminate|].
  pose proof (Z_of_byte_range b) as Hb.
  cbn [msgpack.unpack]. cbv zeta.
  repeat match goal with
  | |- (if ?a <? ?b then _ else _) = _ -> _ => destruct (Z.ltb_spec a b)
  | |- (if ?a <=? ?b then _ else _) = _ -> _ => destruct (Z.leb_spec a b)
  | |- (if ?a =? ?b then _ else _) = _ -> _ => destruct (Z.eqb_spec a b)
  end; intros Hu; try discriminate; repeat unpack_step Hu;
  try (injection Hu as <- <-).
  all: repeat match goal with
  | Hr : msgpack.read_uint _ _ = Ok _ |- _ =>
      apply read_uint_range in Hr; cbn in Hr
  | Hr : msgpack.read_n _ _ = Ok _ |- _ => apply read_n_length in Hr as [Hr _]
  | Hr : msgpack.unpack_seq _ _ _ = Ok _ |- _ =>
      apply (unpack_seq_builds _ _ IH) in Hr as [? Hr]
  | Hr : msgpack.unpack_items _ _ _ _ = Ok _ |- _ =>
      apply (unpack_items_builds _ _ IH) in Hr as (? & ? & Hr);
        [|apply NoDup_nil; done|constructor]
  end.
  all: try (apply HInt; lia).
  all: try (apply HFloat; lia).
  all: try (apply HStr; eapply len32_to_nat; [eassumption | lia]).
  all: try (apply HBytes; eapply len32_to_nat; [eassumption | lia]).
  all: try (apply HArray; [eapply len32_to_nat; [eassumption | lia] | done]).
  all: try (apply HMap; [unfold len32; apply Z.ltb_lt; simpl in *; lia | done | done]).
  all: try done.
  all: apply HInt;
    match goal with
    | Ha : 0 <= ?a < 256 ^ Z.of_nat ?w |- context [to_signed ?W ?a] =>
        rewrite pow_256 in Ha;
        pose proof (to_signed_range W a ltac:(lia) Ha) as Hs;
        let W' := eval vm_compute in (W - 1) in
        change (W - 1) with W' in Hs
    end; lia.
Qed.

End UnpackBuilds.

Section UnpackedValues.
Local Open Scope Z_scope.
Import Serialized_Dict.

Lemma forallb_Forall_true {A} (f : A -> bool) (l : list A) :
  Forall (fun x => f x = true) l -> forallb f l = true.
Proof.
  intros H. apply forallb_forall. intros x Hx. apply list_elem_of_In in Hx.
  rewrite Forall_forall in H. auto.
Qed.

(** Whatever the bytes, what [msgpack.loads] builds with the hook and
    use_list=False holds no dict and no list. *)
Lemma loads_frozen_value bs v :
  msgpack.loads false (Some _object_hook) bs = Ok v -> frozen v = true.
Proof.
  unfold msgpack.loads. intros Hu%unpackb_Ok.
  revert Hu. apply (unpack_builds false (Some _object_hook)
                      (fun v => frozen v = true)); try done.
  - intros vs _ Hvs. simpl. now apply forallb_Forall_true.
  - intros d _ _ Hd. simpl. apply forallb_Forall_true.
    eapply Forall_impl; [exact Hd|]. now intros [k x] [_ Hx].
Qed.

Section hooks.
Variable use_list : bool.
Variable object_hook : option (pyval -> pyval).
Hypothesis hook_keeps_items : forall d,
  msgpack.mk_map object_hook d = PDict d
  \/ msgpack.mk_map object_hook d = PFrozenDict d.

(** What the unpacker builds is packed again unless it is nested deeper
    than the packer follows, and then the packer raises ValueError. *)
Local Abbreviation repacks default := (fun v : pyval =>
  wf v = true
  /\ (forall L, packable_at default L v = true
                \/ msgpack._pack default L v = Raise ValueError)
  /\ match v with
     | PStr k => len32 (list_byte_of_string k) = true
     | _ => True
     end).

Lemma pack_seq_cons f x l :
  msgpack.pack_seq f (x :: l)
  = (a ← f x; b ← msgpack.pack_seq f l; Ok (a ++ b)).
Proof. reflexivity. Qed.

Lemma pack_seq_repacks default L vs :
  Forall (repacks default) vs ->
  forallb (packable_at default L) vs = true
  \/ msgpack.pack_seq (msgpack._pack default L) vs = Raise ValueError.
Proof.
  induction 1 as [|x vs (_ & Hx & _) _ IH]; [now left|].
  cbn [forallb]. rewrite pack_seq_cons. destruct (Hx L) as [Hp|Hr].
  - rewrite Hp. destruct IH as [-> | Hr]; [now left|right].
    destruct (pack_total default x L Hp) as [a ->]. now rewrite Hr.
  - right. now rewrite Hr.
Qed.

Lemma pack_items_repacks default L d :
  Forall (fun kv => repacks default (PStr kv.1) /\ repacks default kv.2) d ->
  forallb (fun '(k, v) => len32 (list_byte_of_string k)
                          && packable_at default L v) d = true
  \/ msgpack.pack_items (msgpack.pack_key L) (msgpack._pack default L) d
     = Raise ValueError.
Proof.
  induction 1 as [|[k x] d [(_ & _ & Hk) (_ & Hx & _)] _ IH]; [now left|].
  cbn [forallb fst snd] in *. rewrite pack_items_cons. unfold msgpack.pack_key at 2.
  destruct (Z.ltb_spec L 0); [now right|].
  destruct (pack_str_total k Hk) as [a ->]. rewrite Hk.
  destruct (Hx L) as [Hp|Hr].
  - rewrite Hp. destruct IH as [-> | Hr]; [now left|right].
    destruct (pack_total default x L Hp) as [b ->]. cbn [mbind result_bind].
    now rewrite Hr.
  - right. cbn [mbind result_bind]. now rewrite Hr.
Qed.

Lemma unpack_repacks default fuel bs v r :
  msgpack.unpack use_list object_hook fuel bs = Ok (v, r) -> repacks default v.
Proof.
  apply (unpack_builds use_list object_hook (repacks default)).
  - repeat split. intros L. cbn. destruct (Z.ltb_spec L 0); [now right|left].
    apply andb_true_iff. split; [apply Z.leb_le; lia | done].
  - intros b. repeat split. intros L. cbn.
    destruct (Z.ltb_spec L 0); [now right|left].
    apply andb_true_iff. split; [apply Z.leb_le; lia | done].
  - intros z Hz. repeat split. intros L. cbn [packable_at msgpack._pack].
    destruct (Z.ltb_spec L 0); [now right|left].
    repeat (apply andb_true_iff; split);
      [apply Z.leb_le | apply Z.leb_le | apply Z.ltb_lt]; lia.
  - intros bits Hb. split; [|split; [|done]].
    + simpl. apply andb_true_iff. split; [apply Z.leb_le | apply Z.ltb_lt]; lia.
    + intros L. cbn [packable_at msgpack._pack].
      destruct (Z.ltb_spec L 0); [now right|left].
      apply andb_true_iff. split; [apply Z.leb_le; lia | done].
  - intros b Hb.
    assert (Hk : len32 (list_byte_of_string (string_of_list_byte b)) = true)
      by now rewrite list_byte_of_string_of_list_byte.
    split; [done|]. split; [|exact Hk].
    intros L. cbn [packable_at msgpack._pack].
    destruct (Z.ltb_spec L 0); [now right|left].
    apply andb_true_iff. split; [apply Z.leb_le; lia | exact Hk].
  - intros b Hb. repeat split. intros L. cbn [packable_at msgpack._pack].
    destruct (Z.ltb_spec L 0); [now right|left].
    apply andb_true_iff. split; [apply Z.leb_le; lia | exact Hb].
  - intros vs Hl Hvs.
    assert (H1 : forallb wf vs = true).
    { apply forallb_Forall_true. eapply Forall_impl; [exact Hvs|]. now intros x [? ?]. }
    assert (H2 : forall L,
      packable_at default L (PList vs) = true
      \/ msgpack._pack default L (PList vs) = Raise ValueError).
    { intros L. cbn [packable_at msgpack._pack].
      destruct (Z.ltb_spec L 0); [now right|].
      destruct (headers_total _ Hl) as (_ & _ & Ha & _).
      apply is_Ok_true in Ha as [h ->]. rewrite Hl.
      destruct (pack_seq_repacks default (L - 1) vs Hvs) as [-> | ->].
      - left. apply andb_true_iff. split; [apply Z.leb_le; lia | done].
      - now right. }
    unfold msgpack.mk_array. destruct use_list; (split; [exact H1|]); (split; [exact H2|done]).
  - intros d Hl Hnd Hd.
    assert (H1 : forallb (fun '(_, v) => wf v) d = true).
    { apply forallb_Forall_true. eapply Forall_impl; [exact Hd|].
      now intros [k x] [_ [? ?]]. }
    assert (H2 : forall L,
      packable_at default L (PDict d) = true
      \/ msgpack._pack default L (PDict d) = Raise ValueError).
    { intros L. cbn [packable_at msgpack._pack].
      destruct (Z.ltb_spec L 0); [now right|].
      destruct (headers_total _ Hl) as (_ & _ & _ & Hm).
      apply is_Ok_true in Hm as [h ->]. rewrite Hl.
      destruct (pack_items_repacks default (L - 1) d Hd) as [-> | ->].
      - left. apply andb_true_iff. split; [apply Z.leb_le; lia | done].
      - now right. }
    apply keys_distinct_NoDup in Hnd.
    destruct (hook_keeps_items d) as [-> | ->];
      (split; [cbn [wf]; now rewrite Hnd, H1|]); (split; [exact H2|done]).
Qed.

(** For [Packer.pack], with the limit it starts from. *)
Lemma unpack_packable default fuel bs v r :
  msgpack.unpack use_list object_hook fuel bs = Ok (v, r) ->
  wf v = true
  /\ (packable default v = true \/ msgpack.pack default v = Raise ValueError).
Proof.
  intros (Hwf & Hp & _)%(unpack_repacks default). split; [exact Hwf | apply Hp].
Qed.
End hooks.

End UnpackedValues.

(** ** Serialized_Dict: the values the instances hold *)

Section HeldValues.
Import Serialized_Dict.
Local Abbreviation loads_frozen := (msgpack.loads false (Some _object_hook)).

Lemma init_data mapping payload obj :
  __init__ mapping payload = Ok obj -> _data obj = PNone.
Proof.
  unfold __init__. intros Hinit.
  destruct mapping; destruct payload; simpl in Hinit;
    try discriminate; try (now injection Hinit as <-);
    destruct (msgpack.dumps _); simpl in Hinit;
    try discriminate; now injection Hinit as <-.
Qed.

Lemma run_snoc actions a s : run (actions ++ [a]) s = perform (run actions s) a.
Proof. unfold run. now rewrite foldl_app. Qed.

(** A property of None and of everything [msgpack.loads] builds holds of
    the value of every instance, whatever the process has done. *)
Lemma run_data_invariant (Q : pyval -> Prop) :
  Q PNone -> (forall bs v, loads_frozen bs = Ok v -> Q v) ->
  forall actions self, Q (data_of self (run actions initial)).
Proof.
  intros HNone Hloads actions.
  induction actions as [|a actions IH] using rev_ind; intros k.
  - unfold data_of. cbn. now rewrite lookup_empty.
  - rewrite run_snoc.
    destruct (run_invariant actions initial) as [Ht Hl];
      [apply tracked_initial | reflexivity |].
    set (s := run actions initial) in *.
    destruct a as [m p|self|self]; simpl.
    + unfold new. destruct (__init__ m p) as [obj|e] eqn:Hinit; [|apply IH].
      unfold data_of. cbn [snd heap].
      destruct (decide (k = fresh (dom (heap s)))) as [->|Hne].
      * rewrite lookup_insert_eq. now rewrite (init_data _ _ _ Hinit).
      * rewrite lookup_insert_ne by done. apply IH.
    + destruct (deser_cases s self) as [-> | [-> | (v & e & s' & Hm)]].
      * intros Hc. now rewrite Hc in Hl.
      * apply IH.
      * apply IH.
      * rewrite (miss_result _ _ _ _ _ Hm). cbn [snd].
        rewrite (miss_data _ _ _ _ _ k Hm).
        destruct (miss_loads _ _ _ _ _ Hm) as (obj & _ & Hv).
        repeat case_decide; [done | now apply (Hloads _ _ Hv) | apply IH].
    + unfold data_of, purge_cache, set_data. cbn [heap].
      rewrite lookup_alter. case_decide as Hk.
      * subst k. destruct (heap s !! self); exact HNone.
      * apply IH.
Qed.

(** X7.  No reader ever works on a dict or a list: whatever the process
    has done, the value an instance holds is None or is built of scalars,
    tuples and FrozenDicts only, at every depth. *)
Theorem held_values_are_frozen (actions : list action) (self : nat) :
  frozen (data_of self (run actions initial)) = true.
Proof.
  apply (run_data_invariant (fun v => frozen v = true)); [done|].
  apply loads_frozen_value.
Qed.

Lemma decoded_frozen o :
  frozen o = true -> decoded false (Some _object_hook) o = o.
Proof.
  induction o using pyval_nested_ind; simpl; intros Hp; try reflexivity;
    try discriminate.
  - unfold msgpack.mk_array. f_equal.
    induction H as [|x l Hx _ IH]; simpl in *; [reflexivity|].
    apply andb_true_iff in Hp as [Hpx Hpl]. now rewrite Hx, IH.
  - f_equal.
    induction H as [|[k v] d Hv _ IH]; simpl in *; [reflexivity|].
    apply andb_true_iff in Hp as [Hpv Hpd]. now rewrite Hv, IH.
Qed.

Lemma loads_packable bs v :
  loads_frozen bs = Ok v ->
  wf v = true
  /\ (packable false v = true \/ msgpack.pack false v = Raise ValueError).
Proof.
  unfold msgpack.loads. intros Hu%unpackb_Ok.
  revert Hu. apply unpack_packable. intros d. now right.
Qed.

(** X8.  [copy] answers with a dict, never with the FrozenDict the
    instance holds.  When that dict is nested no deeper than the packer
    follows (no item inside more than 511 containers), the constructor
    takes it as [mapping]: the instance built from it is undecoded and its
    bytes decode to the value the copied instance holds.  When it is
    nested deeper, as the value of a record read from a file can be, the
    constructor raises ValueError. *)
Theorem copy_is_a_mapping_for_the_constructor (actions : list action)
    (self : nat) (c : pyval) (s' : state) :
  copy self (run actions initial) = (Ok c, s') ->
  exists d,
    c = PDict d
    /\ data_of self s' = PFrozenDict d
    /\ (packable false c = true ->
        exists obj,
          __init__ c PNone = Ok obj
          /\ _data obj = PNone
          /\ loads_frozen (_ser_data obj) = Ok (PFrozenDict d))
    /\ (packable false c = false -> __init__ c PNone = Raise ValueError).
Proof.
  intros Hcopy. unfold copy, reading in Hcopy.
  destruct (_deser self (run actions initial)) as [[[]|e] s1] eqn:Hd;
    [|discriminate].
  injection Hcopy as Hc <-.
  assert (Hs1 : s1 = run (actions ++ [Access self]) initial).
  { rewrite run_snoc. simpl. now rewrite Hd. }
  assert (HQ : frozen (data_of self s1) = true
               /\ wf (data_of self s1) = true
               /\ (packable false (data_of self s1) = true
                   \/ msgpack.pack false (data_of self s1) = Raise ValueError)).
  { rewrite Hs1.
    apply (run_data_invariant
             (fun v => frozen v = true /\ wf v = true
                       /\ (packable false v = true
                           \/ msgpack.pack false v = Raise ValueError)));
      [repeat split; now left|].
    intros bs v Hv. split; [now apply (loads_frozen_value bs)|].
    now apply (loads_packable bs). }
  destruct HQ as (Hf & Hwf & Hp).
  destruct (data_of self s1) as [| | | | | |l|l|d|d|l|x0] eqn:Hdata;
    try discriminate.
  injection Hc as <-. exists d. repeat split.
  - intros Hpd. destruct (pack_packable false (PDict d) Hpd) as [bs Hbs].
    exists {| _ser_data := bs; _data := PNone |}.
    repeat split.
    + unfold __init__, msgpack.dumps. now rewrite Hbs.
    + cbn [_ser_data]. unfold msgpack.loads.
      rewrite (unpackb_packb false (Some _object_hook) false (PDict d) bs Hwf Hbs).
      f_equal. apply (decoded_frozen (PFrozenDict d) Hf).
  - intros Hpd. destruct Hp as [Hp|Hp].
    + change (packable false (PFrozenDict d)) with (packable false (PDict d)) in Hp.
      congruence.
    + unfold __init__, msgpack.dumps.
      change (msgpack.pack false (PDict d)) with (msgpack.pack false (PFrozenDict d)).
      now rewrite Hp.
Qed.
End HeldValues.

Section CopyWitness.
Import Serialized_Dict.
(** One record built from a mapping and read once. *)
Lemma copy_is_a_mapping_for_the_constructor_witness :
  exists d,
    PDict [("a", PTuple [PInt 1%Z])] = PDict d
    /\ data_of 0 (run [Create (PDict [("a", PList [PInt 1%Z])]) PNone; Access 0] initial)
       = PFrozenDict d
    /\ (packable false (PDict [("a", PTuple [PInt 1%Z])]) = true ->
        exists obj,
          __init__ (PDict [("a", PTuple [PInt 1%Z])]) PNone = Ok obj
          /\ _data obj = PNone
          /\ msgpack.loads false (Some _object_hook) (_ser_data obj)
             = Ok (PFrozenDict d))
    /\ (packable false (PDict [("a", PTuple [PInt 1%Z])]) = false ->
        __init__ (PDict [("a", PTuple [PInt 1%Z])]) PNone = Raise ValueError).
Proof.
  apply (copy_is_a_mapping_for_the_constructor
           [Create (PDict [("a", PList [PInt 1%Z])]) PNone] 0).
  vm_compute. reflexivity.
Defined.

(** A record read from a file whose one field is nested 512 arrays deep:
    its copy is no mapping for the constructor. *)
Lemma copy_of_a_deep_record_is_refused :
  let payload := [x81; xa1; "a"%byte] ++ replicate 512 x91 ++ [x90] in
  let s := run [Create PNone (PBytes payload); Access 0] initial in
  let c := PDict [("a", Nat.iter 512 (fun v => PTuple [v]) (PTuple []))] in
  (copy 0 s).1 = Ok c
  /\ packable false c = false
  /\ __init__ c PNone = Raise ValueError.
Proof. vm_compute. repeat split; reflexivity. Qed.
End CopyWitness.


(** ** Stored objects and settings, further *)

Section StoredObjects.
Variable expanduser : string -> string.
Variable pickle_load_raw : list byte -> result pyval.

Lemma unpack_plain fuel bs v r :
  msgpack.unpack true None fuel bs = Ok (v, r) -> plain v = true.
Proof.
  apply (unpack_builds true None (fun v => plain v = true)); try done.
  - intros vs _ Hvs. simpl. now apply forallb_Forall_true.
  - intros d _ _ Hd. simpl. apply forallb_Forall_true.
    eapply Forall_impl; [exact Hd|]. now intros [k x] [_ Hx].
Qed.

Lemma unpackb_storable bs v :
  msgpack.unpackb true None bs = Ok v ->
  plain v = true /\ wf v = true
  /\ (packable true v = true \/ msgpack.pack true v = Raise ValueError).
Proof.
  intros Hu%unpackb_Ok.
  split; [now apply (unpack_plain _ _ _ _ Hu)|].
  revert Hu. apply unpack_packable. intros d. now left.
Qed.

Lemma forallb_map_impl {A B} (p : A -> bool) (q : B -> bool) (h : A -> B) l :
  Forall (fun x => p x = true -> q (h x) = true) l ->
  forallb p l = true -> forallb q (map h l) = true.
Proof.
  induction 1 as [|x l Hx _ IH]; [done|]. cbn [forallb map].
  intros [Hpx Hpl]%andb_true_iff. now rewrite (Hx Hpx), (IH Hpl).
Qed.

(** What [load_object] returns for a stored object is nested as deep as
    the object and no deeper. *)
Lemma decoded_packable o : forall L,
  packable_at true L o = true -> packable_at true L (decoded true None o) = true.
Proof.
  assert (Hseq : forall l L,
    Forall (fun x => forall L, packable_at true L x = true ->
                      packable_at true L (decoded true None x) = true) l ->
    len32 l && forallb (packable_at true (L - 1)) l = true ->
    len32 (map (decoded true None) l)
    && forallb (packable_at true (L - 1)) (map (decoded true None) l) = true).
  { intros l L Hl [Hn Hp]%andb_true_iff. apply andb_true_iff. split.
    - unfold len32 in *. now rewrite length_map.
    - revert Hp. apply forallb_map_impl.
      eapply Forall_impl; [exact Hl|]. intros x Hx. apply Hx. }
  assert (Hmap : forall d L,
    Forall (fun kv : string * pyval => forall L, packable_at true L kv.2 = true ->
                      packable_at true L (decoded true None kv.2) = true) d ->
    len32 d && forallb (fun '(k, v) => len32 (list_byte_of_string k)
                                       && packable_at true (L - 1) v) d = true ->
    len32 (map (fun '(k, v) => (k, decoded true None v)) d)
    && forallb (fun '(k, v) => len32 (list_byte_of_string k)
                               && packable_at true (L - 1) v)
         (map (fun '(k, v) => (k, decoded true None v)) d) = true).
  { intros d L Hd [Hn Hp]%andb_true_iff. apply andb_true_iff. split.
    - unfold len32 in *. now rewrite length_map.
    - revert Hp. apply forallb_map_impl.
      eapply Forall_impl; [exact Hd|]. intros [k x] Hx.
      intros [Hk Hpx]%andb_true_iff. cbn [snd] in Hx.
      now rewrite Hk, (Hx _ Hpx). }
  induction o using pyval_nested_ind; intros L Hp;
    cbn [decoded msgpack.mk_array msgpack.mk_map]; try exact Hp;
    cbn [packable_at] in *;
    apply andb_true_iff in Hp as [HL Hp]; try rewrite HL; cbn [andb] in *.
  - now apply Hseq.
  - now apply Hseq.
  - now apply Hmap.
  - now apply Hmap.
  - now apply Hseq.
  - apply andb_true_iff in Hp as [_ Hp]. now apply IHo.
Qed.

(** X9.  Whatever a file holds, an object [load_object] has read from it
    with the primary decoder and that is nested no deeper than the packer
    follows (no item inside more than 511 containers) is stored by
    [save_object] and read back unchanged, at any path.  For an object
    nested deeper, which the decoder does read, [save_object] raises
    ValueError. *)
Theorem loaded_object_is_saved_unchanged (fs fs' : files) (path path' : string)
    (v : pyval) (log : list log_record) (allow_legacy : bool) :
  load_object expanduser pickle_load_raw fs path false = (Ok v, log) ->
  let saved := save_object expanduser v path' fs' in
  (packable true v = true ->
   saved.1 = Ok ()
   /\ load_object expanduser pickle_load_raw saved.2 path' allow_legacy = (Ok v, []))
  /\ (packable true v = false -> saved.1 = Raise ValueError).
Proof.
  unfold load_object at 1, open_rb. intros Hload.
  destruct (fs !! expanduser path) as [fh|]; [|discriminate].
  destruct (msgpack.unpackb true None fh) as [v'|e] eqn:Hv; [|discriminate].
  injection Hload as -> _.
  destruct (unpackb_storable fh v Hv) as (Hplain & Hwf & Hp).
  cbn zeta. split.
  - intros Hpv. now apply load_object_save_object_plain.
  - intros Hpv. destruct Hp as [Hp|Hp]; [congruence|].
    unfold save_object. now rewrite Hp.
Qed.

(** X10.  For every object the packer takes, [save_object] succeeds and
    [load_object] returns the object with its tuples turned into lists,
    its numpy arrays into what [tolist()] gives (a list, or the item of
    an array of no dimension) and its FrozenDicts into dicts.  That
    value holds none of these any more, and saving and loading it once
    again returns it unchanged. *)
Theorem save_then_load_normalises (object_ : pyval) (file_path : string)
    (fs : files) (allow_legacy : bool) :
  wf object_ = true -> packable true object_ = true ->
  let saved := save_object expanduser object_ file_path fs in
  let loaded := decoded true None object_ in
  saved.1 = Ok ()
  /\ load_object expanduser pickle_load_raw saved.2 file_path allow_legacy
     = (Ok loaded, [])
  /\ plain loaded = true
  /\ load_object expanduser pickle_load_raw
       (save_object expanduser loaded file_path saved.2).2 file_path allow_legacy
     = (Ok loaded, []).
Proof.
  intros Hwf Hp. cbn zeta.
  destruct (load_object_save_object expanduser pickle_load_raw
              object_ file_path fs false Hwf Hp) as [H1 H2].
  destruct (load_object_save_object expanduser pickle_load_raw
              object_ file_path fs allow_legacy Hwf Hp) as [_ H3].
  split; [done|]. split; [done|].
  assert (Hs : plain (decoded true None object_) = true
               /\ wf (decoded true None object_) = true).
  { revert H2. unfold load_object, open_rb.
    destruct (_ !! expanduser file_path) as [fh|]; [|discriminate].
    destruct (msgpack.unpackb true None fh) as [v'|e] eqn:Hv; [|discriminate].
    intros [= <-]. destruct (unpackb_storable fh _ Hv) as (? & ? & _). done. }
  destruct Hs as (Hplain & Hwf').
  split; [done|].
  apply load_object_save_object_plain; [done | done |].
  now apply decoded_packable.
Qed.

End StoredObjects.

(** The file holds the array of 1 and 2. *)
Lemma loaded_object_is_saved_unchanged_witness :
  let fs : files := {[ "object" := [x92; x01; x02] ]} in
  let saved := save_object (fun p => p) (PList [PInt 1; PInt 2]) "copy" fs in
  (packable true (PList [PInt 1; PInt 2]) = true ->
   saved.1 = Ok ()
   /\ load_object (fun p => p) pickle_load saved.2 "copy" true
      = (Ok (PList [PInt 1; PInt 2]), []))
  /\ (packable true (PList [PInt 1; PInt 2]) = false -> saved.1 = Raise ValueError).
Proof.
  apply (loaded_object_is_saved_unchanged (fun p => p) pickle_load
           {[ "object" := [x92; x01; x02] ]} _ "object" "copy" _ [] true).
  vm_compute. reflexivity.
Defined.

(** A file of 513 arrays one inside the other: [load_object] reads it,
    [save_object] does not store what was read. *)
Lemma loaded_deep_object_is_not_saved :
  let fs : files := {[ "object" := replicate 512 x91 ++ [x90] ]} in
  let v := Nat.iter 512 (fun v => PList [v]) (PList []) in
  load_object (fun p => p) pickle_load fs "object" false = (Ok v, [])
  /\ packable true v = false
  /\ (save_object (fun p => p) v "copy" fs).1 = Raise ValueError.
Proof. vm_compute. repeat split; reflexivity. Qed.

(** A dict with a tuple, a numpy array and an array of no dimension in
    it. *)
Lemma save_then_load_normalises_witness :
  let object_ := PDict [("size", PTuple [PInt 1; PInt 2]); ("data", PNdarray [PInt 3]);
                        ("gain", PNdarray0 (PFloat 0))] in
  let saved := save_object (fun p => p) object_ "object" ∅ in
  let loaded := PDict [("size", PList [PInt 1; PInt 2]); ("data", PList [PInt 3]);
                       ("gain", PFloat 0)] in
  saved.1 = Ok ()
  /\ load_object (fun p => p) pickle_load saved.2 "object" false
     = (Ok loaded, [])
  /\ plain loaded = true
  /\ load_object (fun p => p) pickle_load
       (save_object (fun p => p) loaded "object" saved.2).2 "object" false
     = (Ok loaded, []).
Proof.
  apply (save_then_load_normalises (fun p => p) pickle_load
           (PDict [("size", PTuple [PInt 1; PInt 2]); ("data", PNdarray [PInt 3]);
                   ("gain", PNdarray0 (PFloat 0))])
           "object" ∅ false); reflexivity.
Defined.

Lemma dict_get_set {A} (d : list (string * A)) k v k' :
  dict_get (dict_set d k v) k'
  = if String.eqb k k' then Some v else dict_get d k'.
Proof.
  induction d as [|[k0 v0] d IH]; simpl.
  - reflexivity.
  - destruct (String.eqb_spec k0 k) as [->|Hne]; simpl.
    + destruct (String.eqb k k'); reflexivity.
    + rewrite IH. destruct (String.eqb_spec k0 k') as [->|Hne'].
      * destruct (String.eqb_spec k k'); [congruence | reflexivity].
      * reflexivity.
Qed.

Lemma dict_get_None {A} (d : list (string * A)) k :
  k ∉ map fst d -> dict_get d k = None.
Proof.
  induction d as [|[k0 v0] d IH]; simpl; [done|].
  intros [Hne Hk]%not_elem_of_cons.
  destruct (String.eqb_spec k0 k); [congruence | now apply IH].
Qed.

Lemma dict_get_update {A} (other : list (string * A)) : forall d k,
  NoDup (map fst other) ->
  dict_get (dict_update d other) k
  = match dict_get other k with
    | Some v => Some v
    | None => dict_get d k
    end.
Proof.
  unfold dict_update.
  induction other as [|[k0 v0] other IH]; intros d k Hnd; simpl; [done|].
  simpl in Hnd. apply NoDup_cons in Hnd as [Hk0 Hnd].
  rewrite IH by done. rewrite dict_get_set.
  destruct (String.eqb_spec k0 k) as [->|Hne]; [|reflexivity].
  now rewrite dict_get_None.
Qed.

Section Settings.
Variable expanduser : string -> string.
Variable pickle_load_raw : list byte -> result pyval.

(** X11.  A save that fails destroys the stored settings.  The file is
    opened for writing, hence emptied, before the mapping is packed; when
    the packer raises (an integer out of range, say), [save] raises, the
    file stays empty, [load_object] on it raises ValueError (incomplete
    input), and the next
    Persistent_Dict opened on it holds the constructor's mapping only and
    logs the warning. *)
Theorem failed_save_empties_the_file (self : Persistent_Dict) (path : string)
    (fs : files) (e : exn) (init : list (string * pyval)) :
  file_path self = expanduser path ->
  msgpack.pack true (PDict (dict_update [] (items self))) = Raise e ->
  let saved := Persistent_Dict_save expanduser self fs in
  saved.1 = Raise e
  /\ saved.2 !! expanduser (expanduser path) = Some []
  /\ load_object expanduser pickle_load_raw saved.2 (expanduser path) false
     = (Raise ValueError, [])
  /\ Persistent_Dict___init__ expanduser pickle_load_raw saved.2 path init
     = ({| items := init; file_path := expanduser path |},
        [Warning_settings_could_not_be_read (expanduser path); Debug_traceback]).
Proof.
  intros Hpath He. cbn zeta.
  unfold Persistent_Dict_save, save_object, open_wb. rewrite He, Hpath.
  cbn [fst snd].
  assert (Hl : load_object expanduser pickle_load_raw
                 (<[expanduser (expanduser path) := []]> fs) (expanduser path) false
               = (Raise ValueError, [])).
  { unfold load_object, open_rb. now rewrite lookup_insert_eq. }
  repeat split; try done.
  - now rewrite lookup_insert_eq.
  - unfold Persistent_Dict___init__. now rewrite Hl.
Qed.

(** X12.  Where there is no file, [load_object] raises IOError, with the
    legacy fallback allowed or not: the fallback is for a file that is
    there and does not decode.  Persistent_Dict then holds the
    constructor's mapping and logs at debug level only. *)
Theorem missing_file (fs : files) (path : string) (init : list (string * pyval))
    (allow_legacy : bool) :
  fs !! expanduser (expanduser path) = None ->
  load_object expanduser pickle_load_raw fs (expanduser path) allow_legacy
  = (Raise IOError, [])
  /\ Persistent_Dict___init__ expanduser pickle_load_raw fs path init
     = ({| items := init; file_path := expanduser path |},
        [Debug_settings_not_found (expanduser path)]).
Proof.
  intros Hnone.
  assert (Hl : forall al, load_object expanduser pickle_load_raw fs (expanduser path) al
                          = (Raise IOError, [])).
  { intros al. unfold load_object, open_rb. now rewrite Hnone. }
  split; [apply Hl|]. unfold Persistent_Dict___init__. now rewrite Hl.
Qed.

(** X13.  Settings survive a restart.  After [close], a Persistent_Dict
    opened on the same path logs nothing and has, under every key, the
    value that was stored; under a key that was not stored it has what
    its constructor was given. *)
Theorem settings_survive_a_restart (self : Persistent_Dict) (path : string)
    (fs : files) (init : list (string * pyval)) :
  file_path self = expanduser path ->
  plain (PDict (items self)) = true -> wf (PDict (items self)) = true ->
  packable true (PDict (items self)) = true ->
  let saved := Persistent_Dict_close expanduser self fs in
  let reopened := Persistent_Dict___init__ expanduser pickle_load_raw saved.2 path init in
  saved.1 = Ok ()
  /\ reopened.2 = []
  /\ file_path reopened.1 = expanduser path
  /\ forall k, dict_get (items reopened.1) k
               = match dict_get (items self) k with
                 | Some v => Some v
                 | None => dict_get init k
                 end.
Proof.
  intros Hpath Hplain Hwf Hp. cbn zeta.
  unfold Persistent_Dict_close, Persistent_Dict_save.
  assert (Hnd : NoDup (map fst (items self))).
  { simpl in Hwf. apply andb_true_iff in Hwf as [Hk _].
    now apply keys_distinct_NoDup. }
  assert (Hd : dict_update [] (items self) = items self).
  { rewrite dict_update_fresh; [done|]. now simpl. }
  rewrite Hd, Hpath.
  destruct (load_object_save_object_plain expanduser pickle_load_raw
              (PDict (items self)) (expanduser path) fs false Hplain Hwf Hp)
    as [H1 H2].
  split; [done|].
  unfold Persistent_Dict___init__. rewrite H2. cbn [fst snd items file_path].
  repeat split. intros k. now apply dict_get_update.
Qed.
End Settings.

(** A settings file of one entry, and a mapping with the integer 2^64. *)
Lemma failed_save_empties_the_file_witness :
  let self := {| items := [("count", PInt (2 ^ 64))]; file_path := "user_settings" |} in
  let fs : files := {[ "user_settings" := [x81; xa5; "c"; "o"; "u"; "n"; "t"; x01]%byte ]} in
  let saved := Persistent_Dict_save (fun p => p) self fs in
  saved.1 = Raise OverflowError
  /\ saved.2 !! "user_settings" = Some []
  /\ load_object (fun p => p) pickle_load saved.2 "user_settings" false
     = (Raise ValueError, [])
  /\ Persistent_Dict___init__ (fun p => p) pickle_load saved.2 "user_settings" []
     = ({| items := []; file_path := "user_settings" |},
        [Warning_settings_could_not_be_read "user_settings"; Debug_traceback]).
Proof.
  apply (failed_save_empties_the_file (fun p => p) pickle_load
           {| items := [("count", PInt (2 ^ 64))]; file_path := "user_settings" |}
           "user_settings").
  - reflexivity.
  - vm_compute. reflexivity.
Defined.

(** No file at all. *)
Lemma missing_file_witness :
  load_object (fun p => p) pickle_load ∅ "user_settings" true
  = (Raise IOError, [])
  /\ Persistent_Dict___init__ (fun p => p) pickle_load ∅ "user_settings"
       [("a", PInt 1)]
     = ({| items := [("a", PInt 1)]; file_path := "user_settings" |},
        [Debug_settings_not_found "user_settings"]).
Proof.
  apply (missing_file (fun p => p) pickle_load ∅ "user_settings").
  apply lookup_empty.
Defined.

(** Two entries stored; the next run is started with other defaults. *)
Lemma settings_survive_a_restart_witness :
  let self := {| items := [("a", PInt 1); ("b", PStr "x")]; file_path := "user_settings" |} in
  let saved := Persistent_Dict_close (fun p => p) self ∅ in
  let reopened := Persistent_Dict___init__ (fun p => p) pickle_load saved.2
                    "user_settings" [("b", PStr "y"); ("c", PNone)] in
  saved.1 = Ok ()
  /\ reopened.2 = []
  /\ file_path reopened.1 = "user_settings"
  /\ forall k, dict_get (items reopened.1) k
               = match dict_get (items self) k with
                 | Some v => Some v
                 | None => dict_get [("b", PStr "y"); ("c", PNone)] k
                 end.
Proof.
  apply (settings_survive_a_restart (fun p => p) pickle_load
           {| items := [("a", PInt 1); ("b", PStr "x")]; file_path := "user_settings" |}
           "user_settings" ∅); reflexivity.
Defined.

(** ** Pupil data files, further *)

Section Truncated.
Local Open Scope Z_scope.
Variable use_list : bool.
Variable object_hook : option (pyval -> pyval).
Local Abbreviation unpack := (msgpack.unpack use_list object_hook).

Lemma read_n_short n (bs : list byte) :
  (length bs < n)%nat -> msgpack.read_n n bs = Raise OutOfData.
Proof.
  intros H. unfold msgpack.read_n.
  now destruct (Nat.ltb_spec (length bs) n); [|lia].
Qed.

(** A length of [w] bytes and as many bytes as it says, cut short. *)
Lemma blob_cut {A} (mk : list byte -> A) (w : nat) (raw : list byte) (k : nat) :
  Z.of_nat (length raw) < 256 ^ Z.of_nat w ->
  (k < w + length raw)%nat ->
  ('(n, r') ← msgpack.read_uint w (take k (be_bytes w (Z.of_nat (length raw)) ++ raw));
   '(s, r'') ← msgpack.read_n (Z.to_nat n) r'; Ok (mk s, r''))
  = Raise OutOfData.
Proof.
  intros Hlen Hk. destruct (decide (k < w)%nat) as [Hlow|Hhigh].
  - unfold msgpack.read_uint. rewrite read_n_short; [done|].
    rewrite length_take. lia.
  - rewrite take_app_ge by (rewrite be_bytes_length; lia).
    rewrite be_bytes_length, read_uint_small by lia.
    cbn [mbind result_bind]. rewrite Nat2Z.id, read_n_short; [done|].
    rewrite length_take. lia.
Qed.

Lemma pack_str_cut s bs fuel k :
  msgpack.pack_str s = Ok bs -> (k < length bs)%nat ->
  unpack (S fuel) (take k bs) = Raise OutOfData.
Proof.
  unfold msgpack.pack_str, msgpack.pack_str_header.
  set (raw := list_byte_of_string s).
  split_ltb; intros Hbs; try discriminate; apply Ok_inj in Hbs; subst bs.
  - change (be_bytes 1 (0xa0 + Z.of_nat (length raw)) ++ raw)
      with (byte_of_Z (0xa0 + Z.of_nat (length raw)) :: raw).
    destruct k as [|k]; [reflexivity|]. cbn [length take]. intros Hk.
    rewrite unpack_tag. cbv zeta. rewrite Z_of_byte_of_Z, Z.mod_small by lia. zb.
    replace (Z.to_nat _) with (length raw) by lia.
    rewrite read_n_short; [done|]. rewrite length_take. lia.
  - destruct k as [|k]; [reflexivity|]. rewrite length_app. cbn [length app take].
    rewrite be_bytes_length. intros Hk.
    apply (blob_cut (fun s => PStr (string_of_list_byte s)) 1); lia.
  - destruct k as [|k]; [reflexivity|]. rewrite length_app. cbn [length app take].
    rewrite be_bytes_length. intros Hk.
    apply (blob_cut (fun s => PStr (string_of_list_byte s)) 2); lia.
  - destruct k as [|k]; [reflexivity|]. rewrite length_app. cbn [length app take].
    rewrite be_bytes_length. intros Hk.
    apply (blob_cut (fun s => PStr (string_of_list_byte s)) 4); lia.
Qed.

Lemma pack_bin_cut b bs fuel k :
  msgpack.pack_bin b = Ok bs -> (k < length bs)%nat ->
  unpack (S fuel) (take k bs) = Raise OutOfData.
Proof.
  unfold msgpack.pack_bin, msgpack.pack_bin_header.
  split_ltb; intros Hbs; try discriminate; apply Ok_inj in Hbs; subst bs;
    (destruct k as [|k]; [reflexivity|]); rewrite length_app; cbn [length app take];
    rewrite be_bytes_length; intros Hk.
  - apply (blob_cut PBytes 1); lia.
  - apply (blob_cut PBytes 2); lia.
  - apply (blob_cut PBytes 4); lia.
Qed.

End Truncated.

Section ReaderEdges.

Lemma frame_bytes_eq frame :
  frame_bytes frame
  = (body ← (a ← msgpack.pack_str frame.1;
             b ← (a0 ← msgpack.pack_bin frame.2; b0 ← Ok []; Ok (a0 ++ b0));
             Ok (a ++ b));
     Ok ([x92] ++ body)).
Proof. reflexivity. Qed.

Lemma frame_cut frame a k fuel :
  frame_bytes frame = Ok a -> k < length a -> length (take k a) < fuel ->
  msgpack.unpack false None fuel (take k a) = Raise OutOfData.
Proof.
  rewrite frame_bytes_eq. intros Ha Hk Hfuel.
  apply bind_Ok in Ha as (body & Hbody & Ha). apply Ok_inj in Ha. subst a.
  apply bind_Ok in Hbody as (sb & Hsb & Hbody).
  apply bind_Ok in Hbody as (bb' & Hbb & Hbody). apply Ok_inj in Hbody. subst body.
  apply bind_Ok in Hbb as (bb & Hbb & Hbb'). apply Ok_inj in Hbb'. subst bb'.
  rewrite app_nil_r in *.
  destruct k as [|k]; [destruct fuel; [simpl in Hfuel; lia | reflexivity]|].
  cbn [app take length] in *.
  destruct fuel as [|[|fuel]]; [lia | lia |].
  change (msgpack.unpack false None (S (S fuel)) (x92 :: take k (sb ++ bb)))
    with ('(vs, r') ← msgpack.unpack_seq (msgpack.unpack false None (S fuel)) 2
                         (take k (sb ++ bb));
          Ok (msgpack.mk_array false vs, r')).
  cbn [msgpack.unpack_seq].
  rewrite length_app in Hk.
  destruct (decide (k < length sb)) as [Hlow|Hhigh].
  - rewrite take_app_le by lia.
    now rewrite (pack_str_cut false None _ _ fuel k Hsb Hlow).
  - rewrite take_app_ge by lia.
    rewrite (unpack_pack_str false None _ _ fuel _ Hsb). cbn [mbind result_bind].
    rewrite (pack_bin_cut false None _ _ fuel _ Hbb); [done | lia].
Qed.

Lemma load_frames_stream_cut frames : forall bs fuel (m : groups) tail,
  stream_bytes frames = Ok bs -> length frames <= fuel ->
  msgpack.unpack false None (S (length tail)) tail = Raise OutOfData ->
  load_frames fuel (bs ++ tail) m = Ok (foldl add_frame m frames).
Proof.
  induction frames as [|f frames IH]; cbn [stream_bytes foldl length];
    intros bs fuel m tail Hs Hfuel Htail.
  - apply Ok_inj in Hs. subst bs. cbn [app].
    destruct fuel; cbn [load_frames]; now rewrite Htail.
  - inv_bind Hs. subst bs.
    destruct fuel as [|fuel]; [lia|]. cbn [load_frames].
    rewrite <- app_assoc.
    rewrite (frame_bytes_unpack f a (a0 ++ tail) _ Ha) by (rewrite length_app; lia).
    rewrite load_frame_frame. cbn [mbind result_bind].
    apply IH; [done | lia | done].
Qed.

(** X15.  A file that ends in the middle of a frame is read as if it
    ended before that frame: the frames that are complete are grouped as
    for the whole file, and nothing is raised. *)
Theorem reader_drops_an_incomplete_last_frame (fs : files) (file_path : string)
    (frames : list (string * list byte)) (bs : list byte)
    (frame : string * list byte) (a : list byte) (n : nat) :
  stream_bytes frames = Ok bs -> frame_bytes frame = Ok a -> n < length a ->
  fs !! file_path = Some (bs ++ take n a) ->
  load_pupil_data_file fs file_path = Ok (foldl add_frame ∅ frames)
  /\ forall g, foldl add_frame ∅ frames !! g
               = match records_of g frames with
                 | [] => None
                 | l => Some l
                 end.
Proof.
  intros Hs Ha Hn Hf. split; [|intros g; apply groups_of_frames].
  unfold load_pupil_data_file, open_rb. rewrite Hf. cbn [mbind result_bind].
  apply load_frames_stream_cut; [done | |].
  - rewrite length_app. pose proof (stream_bytes_length _ _ Hs). lia.
  - apply (frame_cut frame a n _ Ha Hn). lia.
Qed.
End ReaderEdges.

Section ReaderShape.
Import Serialized_Dict.

Lemma first_segment_no_dot topic :
  str_split "." (first_segment topic) = [first_segment topic].
Proof.
  unfold first_segment. induction topic as [|c t IH]; [reflexivity|].
  cbn [str_split]. destruct (Ascii.eqb c ".") eqn:Hc; [reflexivity|].
  pose proof (str_split_nonempty "." t) as Hne.
  destruct (str_split "." t) as [|h tl]; [done|].
  cbn [str_split]. rewrite Hc. now rewrite IH.
Qed.

(** What [load_pupil_data_file] keeps true of the groups while it reads. *)
Local Abbreviation shaped m :=
  (forall g l, (m : groups) !! g = Some l ->
     l <> [] /\ str_split "." g = [g] /\ Forall (fun r => _data r = PNone) l).

Lemma load_frame_shaped item (m m' : groups) :
  shaped m -> load_frame item m = Ok m' -> shaped m'.
Proof.
  intros Hm H. unfold load_frame in H.
  apply bind_Ok in H as ([topic payload] & _ & H).
  apply bind_Ok in H as (g & Hg & H).
  apply bind_Ok in H as (sd & Hsd & H). apply Ok_inj in H. subst m'.
  assert (Hdot : str_split "." g = [g]).
  { destruct topic; try discriminate.
    rewrite item0_split in Hg. apply Ok_inj in Hg. subst g.
    apply first_segment_no_dot. }
  assert (Hnone : _data sd = PNone) by (now apply (init_data PNone payload)).
  intros g' l Hl.
  apply lookup_insert_Some in Hl as [[<- <-]|[Hne Hl]].
  - split; [now destruct (default [] _)|]. split; [done|].
    apply Forall_app. split; [|now constructor].
    destruct (m !! g) as [l0|] eqn:Hl0.
    + rewrite Hl0. simpl. now apply (Hm g l0).
    + rewrite lookup_insert_eq. simpl. constructor.
  - destruct (m !! g) as [l0|] eqn:Hl0.
    + now apply (Hm g' l).
    + rewrite lookup_insert_ne in Hl by done. now apply (Hm g' l).
Qed.

Lemma load_frames_shaped fuel : forall bs (m m' : groups),
  shaped m -> load_frames fuel bs m = Ok m' -> shaped m'.
Proof.
  induction fuel as [|fuel IH]; intros bs m m' Hm; cbn [load_frames].
  - destruct (msgpack.unpack false None (S (length bs)) bs) as [[item rest]|e].
    + now intros [= <-].
    + destruct e; try discriminate. now intros [= <-].
  - destruct (msgpack.unpack false None (S (length bs)) bs) as [[item rest]|e].
    + intros H. apply bind_Ok in H as (m1 & Hm1 & H).
      apply (IH rest m1 m'); [|done]. now apply (load_frame_shaped item m).
    + destruct e; try discriminate. now intros [= <-].
Qed.

(** X14.  Whatever the file holds, when [load_pupil_data_file] returns,
    every group it has bound is non-empty, no group name has a dot in
    it, and no record has been decoded. *)
Theorem reader_leaves_records_undecoded (fs : files) (file_path : string)
    (m : groups) :
  load_pupil_data_file fs file_path = Ok m ->
  forall g l, m !! g = Some l ->
    l <> [] /\ str_split "." g = [g] /\ Forall (fun r => _data r = PNone) l.
Proof.
  unfold load_pupil_data_file. intros H.
  apply bind_Ok in H as (fh & _ & H).
  apply (load_frames_shaped (length fh) fh ∅ m); [|done].
  intros g l Hl. now rewrite lookup_empty in Hl.
Qed.
End ReaderShape.

Lemma save_frames_app good frames :
  Forall2 framed good frames ->
  forall rest written, exists bs,
    stream_bytes frames = Ok bs
    /\ save_frames (good ++ rest) written = save_frames rest (written ++ bs).
Proof.
  induction 1 as [|datum frame data frames (Ht & Hd & Hf) _ IH]; intros rest written.
  - exists []. now rewrite app_nil_r.
  - apply is_Ok_true in Hf as [a Ha].
    destruct (IH rest (written ++ a)) as (bs & Hbs & Hsave).
    exists (a ++ bs). cbn [stream_bytes save_frames app]. rewrite Ha, Hbs.
    split; [done|].
    unfold save_frame. rewrite Ht, Hd. cbn [mbind result_bind].
    unfold frame_bytes in Ha. rewrite Ha. now rewrite Hsave, <- app_assoc.
Qed.

(** X17.  When a datum cannot be framed (it has no 'topic', say, which
    raises KeyError), [save_pupil_data_file] raises at that datum; the
    frames of the data before it have been written and the file
    "file_path" holds exactly these, so the reader finds them. *)
Theorem writer_keeps_the_frames_before_a_failure (file_path : string)
    (good rest : list pyval) (bad : pyval) (frames : list (string * list byte))
    (fs : files) (e : exn) :
  Forall2 framed good frames -> save_frame bad = Raise e ->
  let saved := save_pupil_data_file file_path (good ++ bad :: rest) fs in
  saved.1 = Raise e
  /\ (exists bs, stream_bytes frames = Ok bs /\ saved.2 !! "file_path" = Some bs)
  /\ load_pupil_data_file saved.2 "file_path" = Ok (foldl add_frame ∅ frames).
Proof.
  intros Hgood Hbad. cbn zeta. unfold save_pupil_data_file.
  destruct (save_frames_app good frames Hgood (bad :: rest) []) as (bs & Hbs & Hsave).
  rewrite Hsave. cbn [save_frames app]. rewrite Hbad. cbn [fst snd].
  split; [done|]. split.
  - exists bs. now rewrite lookup_insert_eq.
  - apply (load_pupil_data_file_stream _ _ frames bs Hbs).
    now rewrite lookup_insert_eq.
Qed.

Section ReaderWriterWitnesses.
Import Serialized_Dict.

Local Abbreviation sample_frame :=
  ("pupil.0", match msgpack.dumps sample_datum with Ok b => b | Raise _ => [] end).

Lemma sample_framed : Forall2 framed [sample_datum] [sample_frame].
Proof. repeat constructor. Qed.

(** The file of the three frames "gaze.0", "gaze.1", "pupil.0". *)
Lemma reader_leaves_records_undecoded_witness :
  [record_of [x80]; record_of [x81]] <> []
  /\ str_split "." "gaze" = ["gaze"]
  /\ Forall (fun r => _data r = PNone) [record_of [x80]; record_of [x81]].
Proof.
  apply (reader_leaves_records_undecoded
           {[ "pupil_data" :=
                [x92; xa6; "g"; "a"; "z"; "e"; "."; "0"; xc4; x01; x80;
                 x92; xa6; "g"; "a"; "z"; "e"; "."; "1"; xc4; x01; x81;
                 x92; xa7; "p"; "u"; "p"; "i"; "l"; "."; "0"; xc4; x01; x82]%byte ]}
           "pupil_data"
           {[ "gaze" := [record_of [x80]; record_of [x81]];
              "pupil" := [record_of [x82]] ]}).
  - vm_compute. reflexivity.
  - vm_compute. reflexivity.
Defined.

(** One frame, and the first five bytes of a second one. *)
Lemma reader_drops_an_incomplete_last_frame_witness :
  load_pupil_data_file
    {[ "pupil_data" :=
         [x92; xa6; "g"; "a"; "z"; "e"; "."; "0"; xc4; x01; x80;
          x92; xa7; "p"; "u"; "p"]%byte ]}
    "pupil_data"
  = Ok (foldl add_frame ∅ [("gaze.0", [x80])])
  /\ forall g, foldl add_frame ∅ [("gaze.0", [x80])] !! g
               = match records_of g [("gaze.0", [x80])] with
                 | [] => None
                 | l => Some l
                 end.
Proof.
  apply (reader_drops_an_incomplete_last_frame _ "pupil_data"
           [("gaze.0", [x80])]
           [x92; xa6; "g"; "a"; "z"; "e"; "."; "0"; xc4; x01; x80]%byte
           ("pupil.0", [x82])
           [x92; xa7; "p"; "u"; "p"; "i"; "l"; "."; "0"; xc4; x01; x82]%byte
           5).
  - reflexivity.
  - reflexivity.
  - simpl. lia.
  - reflexivity.
Defined.

(** One datum with a topic. *)
Lemma writer_then_reader_on_constant_name_witness :
  let saved := save_pupil_data_file "recording/pupil_data" [sample_datum] ∅ in
  saved.1 = Ok ()
  /\ (exists m : groups,
        load_pupil_data_file saved.2 "file_path" = Ok m
        /\ forall g, m !! g = match records_of g [sample_frame] with
                              | [] => None
                              | l => Some l
                              end)
  /\ Forall2 (fun datum frame =>
        wf datum = true ->
        msgpack.loads false (Some _object_hook) frame.2
        = Ok (decoded false (Some _object_hook) datum))
       [sample_datum] [sample_frame].
Proof.
  apply (writer_then_reader_on_constant_name "recording/pupil_data"
           [sample_datum] [sample_frame] ∅ sample_framed).
Defined.

(** A datum with a topic, one without, and a third. *)
Lemma writer_keeps_the_frames_before_a_failure_witness :
  let saved := save_pupil_data_file "recording/pupil_data"
                 ([sample_datum] ++ PDict [("confidence", PInt 1)] :: [sample_datum]) ∅ in
  saved.1 = Raise KeyError
  /\ (exists bs, stream_bytes [sample_frame] = Ok bs
                 /\ saved.2 !! "file_path" = Some bs)
  /\ load_pupil_data_file saved.2 "file_path" = Ok (foldl add_frame ∅ [sample_frame]).
Proof.
  apply (writer_keeps_the_frames_before_a_failure "recording/pupil_data"
           [sample_datum] [sample_datum] (PDict [("confidence", PInt 1)])
           [sample_frame] ∅ KeyError sample_framed).
  reflexivity.
Defined.
End ReaderWriterWitnesses.

(** ** next_export_sub_dir *)

Section ExportDirs.
Variable listdir : string -> list string.

Lemma append_nil (b : string) : ("" ++ b)%string = b.
Proof. reflexivity. Qed.

Lemma append_cons x (a b : string) : (String x a ++ b)%string = String x (a ++ b).
Proof. reflexivity. Qed.

Lemma str_split_app_sep sep a b :
  str_split sep (a ++ String sep b) = str_split sep a ++ str_split sep b.
Proof.
  induction a as [|c a IH]; rewrite ?append_nil, ?append_cons; cbn [str_split app].
  - now rewrite Ascii.eqb_refl.
  - destruct (Ascii.eqb c sep); [now rewrite IH|].
    rewrite IH. pose proof (str_split_nonempty sep a).
    now destruct (str_split sep a).
Qed.

Lemma string_app_assoc (a b c : string) : ((a ++ b) ++ c = a ++ (b ++ c))%string.
Proof.
  induction a as [|x a IH]; rewrite ?append_nil, ?append_cons; [done | now rewrite IH].
Qed.

Lemma string_of_list_ascii_app l1 l2 :
  string_of_list_ascii (l1 ++ l2)
  = (string_of_list_ascii l1 ++ string_of_list_ascii l2)%string.
Proof.
  induction l1 as [|x l1 IH]; cbn [app string_of_list_ascii];
    rewrite ?append_nil, ?append_cons; [done | now rewrite IH].
Qed.

Lemma ends_with_slash_inv d :
  ends_with_slash d = true -> exists a, d = (a ++ "/")%string.
Proof.
  unfold ends_with_slash. intros H.
  destruct (rev (list_ascii_of_string d)) as [|c l] eqn:Hr; [discriminate|].
  apply Ascii.eqb_eq in H. subst c.
  exists (string_of_list_ascii (rev l)).
  rewrite <- (string_of_list_ascii_of_string d), <- (rev_involutive (list_ascii_of_string d)), Hr.
  cbn [rev]. now rewrite string_of_list_ascii_app.
Qed.

(** What [os.path.join] puts before a component that does not start
    with a slash. *)
Lemma join_shape d :
  exists pre, (pre = ""%string \/ exists a, pre = (a ++ "/")%string)
    /\ forall name, str_prefix "/" name = false ->
         os_path_join d name = (pre ++ name)%string.
Proof.
  unfold os_path_join.
  destruct (String.eqb_spec d "") as [->|Hd]; cbn [orb].
  - exists ""%string. split; [now left|]. intros name ->. reflexivity.
  - destruct (ends_with_slash d) eqn:He.
    + exists d. split; [right; now apply ends_with_slash_inv|].
      intros name ->. reflexivity.
    + exists (d ++ "/")%string. split; [right; eauto|].
      intros name ->. now rewrite string_app_assoc.
Qed.

Lemma split_tail_join d name :
  str_split "/" name = [name] ->
  (os_path_split (os_path_join d name)).2 = name.
Proof.
  intros Hname.
  assert (Hp : str_prefix "/" name = false).
  { destruct name as [|c name]; [done|]. cbn [str_prefix]. rewrite andb_true_r.
    destruct (Ascii.eqb "/" c) eqn:Hc; [|done].
    apply Ascii.eqb_eq in Hc. subst c. cbn [str_split] in Hname.
    rewrite Ascii.eqb_refl in Hname. injection Hname as Hn _. discriminate. }
  destruct (join_shape d) as (pre & Hpre & Hjoin). rewrite (Hjoin name Hp).
  unfold os_path_split. cbn [snd].
  destruct Hpre as [->|[a ->]].
  - rewrite append_nil. now rewrite Hname.
  - rewrite string_app_assoc, append_cons, append_nil.
    rewrite str_split_app_sep, Hname. apply last_last.
Qed.

Lemma compare_app p x y :
  String.compare (p ++ x) (p ++ y) = String.compare x y.
Proof.
  induction p as [|c p IH]; rewrite ?append_nil, ?append_cons; [done|].
  cbn [String.compare]. unfold Ascii.compare. now rewrite N.compare_refl.
Qed.

Lemma str_le_join d x y :
  str_prefix "/" x = false -> str_prefix "/" y = false ->
  str_le (os_path_join d x) (os_path_join d y) -> str_le x y.
Proof.
  intros Hx Hy. destruct (join_shape d) as (pre & _ & Hjoin).
  rewrite (Hjoin x Hx), (Hjoin y Hy). unfold str_le, String.leb.
  now rewrite compare_app.
Qed.

Lemma str_le_total : Total str_le.
Proof. intros a b. apply String.leb_total. Qed.

Lemma str_le_trans : Transitive str_le.
Proof.
  unfold str_le, String.leb. intros a.
  induction a as [|x a IH]; intros [|y b] [|z c]; cbn [String.compare]; try done.
  unfold Ascii.compare.
  destruct (N.compare_spec (N_of_ascii x) (N_of_ascii y)) as [Hxy|Hxy|Hxy];
    destruct (N.compare_spec (N_of_ascii y) (N_of_ascii z)) as [Hyz|Hyz|Hyz];
    destruct (N.compare_spec (N_of_ascii x) (N_of_ascii z)) as [Hxz|Hxz|Hxz];
    try done; try lia.
  apply IH.
Qed.

(** The last of a sorted list is a greatest item of the list. *)
Lemma sorted_last l :
  l <> [] ->
  exists x, last (sorted l) = Some x /\ x ∈ l /\ forall y, y ∈ l -> str_le y x.
Proof.
  intros Hl. unfold sorted.
  pose proof (merge_sort_Permutation str_le l) as Hperm.
  pose proof (@StronglySorted_merge_sort _ str_le _ str_le_trans str_le_total l)
    as Hsorted.
  destruct (last (merge_sort str_le l)) as [x|] eqn:Hlast.
  - exists x. split; [done|]. split.
    + rewrite <- Hperm. now apply last_Some_elem_of.
    + intros y Hy. rewrite <- Hperm in Hy.
      apply last_Some in Hlast as [l' Hl']. rewrite Hl' in Hsorted, Hy.
      apply elem_of_app in Hy as [Hy|Hy].
      * apply (StronglySorted_app_1_elem_of _ _ _ _ _ Hsorted Hy).
        apply list_elem_of_singleton. reflexivity.
      * apply list_elem_of_singleton in Hy. subst y.
        destruct (str_le_total x x); done.
  - apply last_None in Hlast. rewrite Hlast in Hperm.
    apply Permutation_nil_l in Hperm. congruence.
Qed.

Lemma is_digit_not_slash c : is_digit c = true -> Ascii.eqb c "/" = false.
Proof.
  intros H. destruct (Ascii.eqb_spec c "/") as [->|]; [discriminate | done].
Qed.

Ltac three_chars name H :=
  destruct name as [|?a [|?b [|?c [|? ?]]]]; try discriminate H;
  cbn [three_digits] in H;
  apply andb_true_iff in H as [H ?]; apply andb_true_iff in H as [? ?].

Lemma three_digits_no_slash name :
  three_digits name = true -> str_split "/" name = [name].
Proof.
  intros H. three_chars name H. cbn [str_split].
  now rewrite !is_digit_not_slash by done.
Qed.

Lemma three_digits_int name :
  three_digits name = true -> exists n, py_int name = Ok n /\ (0 <= n <= 999)%Z.
Proof.
  intros H. three_chars name H. unfold py_int.
  cbn [list_ascii_of_string forallb String.eqb negb andb fold_left].
  repeat match goal with Hd : is_digit _ = true |- _ => rewrite Hd end.
  cbn [andb]. eexists. split; [reflexivity|].
  unfold is_digit in *.
  repeat match goal with
  | Hd : (_ && _)%bool = true |- _ =>
      apply andb_true_iff in Hd as [?%N.leb_le ?%N.leb_le]
  end. lia.
Qed.

(** Among names of three digits, the order of the strs is the order of
    the numbers. *)
Lemma three_digits_order x y n m :
  three_digits x = true -> three_digits y = true ->
  py_int x = Ok n -> py_int y = Ok m -> str_le x y -> (n <= m)%Z.
Proof.
  intros Hx Hy. three_chars x Hx. three_chars y Hy. unfold py_int.
  cbn [list_ascii_of_string forallb String.eqb negb andb fold_left].
  repeat match goal with Hd : is_digit _ = true |- _ => rewrite Hd end.
  cbn [andb]. intros [= <-] [= <-].
  unfold str_le, String.leb. cbn [String.compare]. unfold Ascii.compare.
  unfold is_digit in *.
  repeat match goal with
  | Hd : (_ && _)%bool = true |- _ =>
      apply andb_true_iff in Hd as [?%N.leb_le ?%N.leb_le]
  end.
  repeat match goal with
  | |- context [(?p ?= ?q)%N] => destruct (N.compare_spec p q)
  end; intros Hle; try discriminate Hle; lia.
Qed.

Lemma format_03d_small n :
  (0 <= n < 1000)%Z ->
  three_digits (format_03d n) = true /\ py_int (format_03d n) = Ok n.
Proof.
  intros Hn.
  assert (Hall : forallb (fun k => three_digits (format_03d (Z.of_nat k))
                           && match py_int (format_03d (Z.of_nat k)) with
                              | Ok v => (v =? Z.of_nat k)%Z
                              | Raise _ => false
                              end)
                         (seq 0 1000) = true) by (vm_compute; reflexivity).
  rewrite forallb_forall in Hall.
  specialize (Hall (Z.to_nat n) ltac:(apply in_seq; lia)).
  rewrite Z2Nat.id in Hall by lia.
  apply andb_true_iff in Hall as [H1 H2]. split; [done|].
  destruct (py_int (format_03d n)) as [v|]; [|discriminate].
  apply Z.eqb_eq in H2. now subst v.
Qed.

Lemma three_digits_no_prefix name :
  three_digits name = true -> str_prefix "/" name = false.
Proof.
  intros H. three_chars name H. cbn [str_prefix]. rewrite andb_true_r.
  destruct (Ascii.eqb_spec "/" a) as [<-|]; [discriminate | done].
Qed.

Lemma three_digits_int_inj x y n :
  three_digits x = true -> three_digits y = true ->
  py_int x = Ok n -> py_int y = Ok n -> x = y.
Proof.
  intros Hx Hy. three_chars x Hx. three_chars y Hy. unfold py_int.
  cbn [list_ascii_of_string forallb String.eqb negb andb fold_left].
  repeat match goal with Hd : is_digit _ = true |- _ => rewrite Hd end.
  cbn [andb]. intros [= <-] [= Heq].
  unfold is_digit in *.
  repeat match goal with
  | Hd : (_ && _)%bool = true |- _ =>
      apply andb_true_iff in Hd as [?%N.leb_le ?%N.leb_le]
  end.
  assert (Ea : N_of_ascii a = N_of_ascii a0) by lia.
  assert (Eb : N_of_ascii b = N_of_ascii b0) by lia.
  assert (Ec : N_of_ascii c = N_of_ascii c0) by lia.
  rewrite <- (ascii_N_embedding a), <- (ascii_N_embedding b), <- (ascii_N_embedding c).
  rewrite Ea, Eb, Ec. now rewrite !ascii_N_embedding.
Qed.

Local Abbreviation pattern_dir root :=
  (os_path_split (os_path_join root "[0-9][0-9][0-9]")).1.

Local Abbreviation numbered dir :=
  (filter (fun name => three_digits name = true) (listdir dir)).

(** The two ways through [next_export_sub_dir]. *)
Lemma next_export_sub_dir_cases root :
  has_magic (pattern_dir root) = false ->
  (numbered (pattern_dir root) = []
   /\ next_export_sub_dir listdir root = Ok (os_path_join root "000"))
  \/ (exists latest n,
        latest ∈ numbered (pattern_dir root) /\ py_int latest = Ok n
        /\ (forall name m, name ∈ numbered (pattern_dir root) ->
              py_int name = Ok m -> (m <= n)%Z)
        /\ next_export_sub_dir listdir root
           = Ok (os_path_join root (format_03d (n + 1)))).
Proof.
  intros Hmagic. unfold next_export_sub_dir, iglob.
  pose proof (split_tail_join root "[0-9][0-9][0-9]" eq_refl) as Hbase.
  destruct (os_path_split (os_path_join root "[0-9][0-9][0-9]"))
    as [dirname basename] eqn:Hsplit.
  cbn [fst snd] in *. subst basename. rewrite Hmagic. cbn [orb negb String.eqb Ascii.eqb Bool.eqb].
  cbn [mbind result_bind].
  destruct (numbered dirname) as [|name0 names0] eqn:Hnames.
  - left. split; [done|]. reflexivity.
  - right. rewrite <- Hnames.
    destruct (sorted_last (map (os_path_join dirname) (numbered dirname)))
      as (path & Hlast & Hin & Hmax).
    { rewrite Hnames. discriminate. }
    rewrite Hlast.
    apply list_elem_of_fmap in Hin as (latest & -> & Hin).
    pose proof Hin as Hlatest. apply list_elem_of_filter in Hlatest as [Hlatest _].
    rewrite (split_tail_join dirname latest (three_digits_no_slash _ Hlatest)).
    destruct (three_digits_int latest Hlatest) as (n & Hn & _).
    rewrite Hn. cbn [mbind result_bind].
    exists latest, n. repeat split; try done.
    intros name m Hname Hm.
    pose proof Hname as Hd. apply list_elem_of_filter in Hd as [Hd _].
    apply (three_digits_order name latest m n Hd Hlatest Hm Hn).
    apply (str_le_join dirname); try (now apply three_digits_no_prefix).
    apply Hmax. apply list_elem_of_fmap. eauto.
Qed.

(** X18.  Where the export directory holds no entry named by three
    digits (or does not exist), [next_export_sub_dir] answers with the
    sub-directory "000" of it; entries with other names, "0100" or
    "notes", do not count. *)
Theorem first_export_sub_dir (root : string) :
  has_magic (pattern_dir root) = false ->
  (forall name, name ∈ listdir (pattern_dir root) -> three_digits name = false) ->
  next_export_sub_dir listdir root = Ok (os_path_join root "000").
Proof.
  intros Hmagic Hnone.
  destruct (next_export_sub_dir_cases root Hmagic)
    as [[_ H]|(latest & n & Hin & _)]; [done|].
  apply list_elem_of_filter in Hin as [Hd Hin].
  rewrite (Hnone latest Hin) in Hd. discriminate.
Qed.

(** X19.  Where the export directory holds entries named by three
    digits, none of them "999", [next_export_sub_dir] answers with the
    number after the greatest of them, written with three digits, and
    that name is not taken by any entry of the directory. *)
Theorem next_export_sub_dir_is_new (root : string) (name : string) :
  has_magic (pattern_dir root) = false ->
  name ∈ listdir (pattern_dir root) -> three_digits name = true ->
  "999"%string ∉ listdir (pattern_dir root) ->
  exists latest n,
    latest ∈ listdir (pattern_dir root) /\ three_digits latest = true
    /\ py_int latest = Ok n
    /\ (forall other m, other ∈ listdir (pattern_dir root) ->
          three_digits other = true -> py_int other = Ok m -> (m <= n)%Z)
    /\ next_export_sub_dir listdir root
       = Ok (os_path_join root (format_03d (n + 1)))
    /\ three_digits (format_03d (n + 1)) = true
    /\ py_int (format_03d (n + 1)) = Ok (n + 1)%Z
    /\ format_03d (n + 1) ∉ listdir (pattern_dir root).
Proof.
  intros Hmagic Hname Hd H999.
  destruct (next_export_sub_dir_cases root Hmagic)
    as [[Hnil _]|(latest & n & Hin & Hn & Hmax & Hnext)].
  { assert (Hin : name ∈ numbered (pattern_dir root))
      by (apply list_elem_of_filter; done).
    rewrite Hnil in Hin. now apply elem_of_nil in Hin. }
  apply list_elem_of_filter in Hin as [Hlatest Hin].
  destruct (three_digits_int latest Hlatest) as (n' & Hn' & Hrange).
  assert (n' = n) as -> by congruence.
  assert (Hlt : (n < 999)%Z).
  { destruct (decide (n = 999%Z)) as [->|]; [|lia]. exfalso. apply H999.
    now rewrite <- (three_digits_int_inj latest "999" 999%Z Hlatest eq_refl Hn eq_refl). }
  destruct (format_03d_small (n + 1) ltac:(lia)) as [H3 Hint].
  exists latest, n. repeat split; try done.
  - intros other m Ho Hdo Hm. apply (Hmax other m); [|done].
    apply list_elem_of_filter. done.
  - intros Hold.
    assert (Hle : (n + 1 <= n)%Z); [|lia].
    apply (Hmax (format_03d (n + 1))); [|done].
    apply list_elem_of_filter. done.
Qed.

(** X20.  Once "999" is there, [next_export_sub_dir] answers "1000",
    a name the three-digit pattern does not match: whatever else the
    directory holds, "1000" included, the answer stays the same. *)
Theorem export_sub_dirs_end_at_999 (root : string) :
  has_magic (pattern_dir root) = false ->
  "999"%string ∈ listdir (pattern_dir root) ->
  next_export_sub_dir listdir root = Ok (os_path_join root "1000")
  /\ three_digits "1000" = false.
Proof.
  intros Hmagic H999. split; [|reflexivity].
  destruct (next_export_sub_dir_cases root Hmagic)
    as [[Hnil _]|(latest & n & Hin & Hn & Hmax & Hnext)].
  { assert (Hin : "999"%string ∈ numbered (pattern_dir root))
      by (apply list_elem_of_filter; done).
    rewrite Hnil in Hin. now apply elem_of_nil in Hin. }
  apply list_elem_of_filter in Hin as [Hlatest Hin].
  destruct (three_digits_int latest Hlatest) as (n' & Hn' & Hrange).
  assert (n' = n) as -> by congruence.
  assert (Hge : (999 <= n)%Z).
  { apply (Hmax "999"%string); [|reflexivity]. apply list_elem_of_filter. done. }
  assert (n = 999%Z) as -> by lia.
  exact Hnext.
Qed.

End ExportDirs.

Section ExportDirsWitnesses.

Local Abbreviation sample_listdir :=
  (fun d : string =>
     if String.eqb d "exports" then ["001"; "notes"; "010"; "002"; "0100"]%string
     else if String.eqb d "" then ["999"; "1000"]%string
     else []).

(** A directory that is not there. *)
Lemma first_export_sub_dir_witness :
  next_export_sub_dir sample_listdir "recordings/" = Ok "recordings/000"%string.
Proof.
  apply (first_export_sub_dir sample_listdir "recordings/").
  - reflexivity.
  - intros name H. now apply elem_of_nil in H.
Defined.

(** A directory with "001", "002", "010" and two other entries. *)
Lemma next_export_sub_dir_is_new_witness :
  exists latest n,
    latest ∈ sample_listdir "exports" /\ three_digits latest = true
    /\ py_int latest = Ok n
    /\ (forall other m, other ∈ sample_listdir "exports" ->
          three_digits other = true -> py_int other = Ok m -> (m <= n)%Z)
    /\ next_export_sub_dir sample_listdir "exports"
       = Ok (os_path_join "exports" (format_03d (n + 1)))
    /\ three_digits (format_03d (n + 1)) = true
    /\ py_int (format_03d (n + 1)) = Ok (n + 1)%Z
    /\ format_03d (n + 1) ∉ sample_listdir "exports".
Proof.
  apply (next_export_sub_dir_is_new sample_listdir "exports" "001").
  - reflexivity.
  - apply (bool_decide_unpack _). vm_compute. exact I.
  - reflexivity.
  - apply (bool_decide_unpack _). vm_compute. exact I.
Defined.

(** The current directory, with "999" and "1000" in it. *)
Lemma export_sub_dirs_end_at_999_witness :
  next_export_sub_dir sample_listdir "" = Ok "1000"%string
  /\ three_digits "1000" = false.
Proof.
  apply (export_sub_dirs_end_at_999 sample_listdir "").
  - reflexivity.
  - apply (bool_decide_unpack _). vm_compute. exact I.
Defined.

End ExportDirsWitnesses.

(** ** Serialized_Dict: records of mappings, and nested mappings *)

Section RecordsOfMappings.
Import Serialized_Dict.
Local Abbreviation loads_frozen := (msgpack.loads false (Some _object_hook)).
Local Abbreviation freeze := (decoded false (Some _object_hook)).

Lemma dict_get_map {A B} (f : A -> B) (d : list (string * A)) k :
  dict_get (map (fun '(k, v) => (k, f v)) d) k = f <$> dict_get d k.
Proof.
  induction d as [|[k' v] d IH]; simpl; [done|].
  destruct (String.eqb k' k); [done | apply IH].
Qed.

(** The cache refers to instances that exist. *)
Lemma run_cache_refers actions : forall k,
  Dict_object k ∈ _cache_ref (run actions initial) ->
  is_Some (heap (run actions initial) !! k).
Proof.
  induction actions as [|a actions IH] using rev_ind; intros k.
  - unfold run. cbn [foldl initial _cache_ref]. intros H.
    apply elem_of_replicate in H as [? _]. discriminate.
  - rewrite run_snoc.
    destruct (run_invariant actions initial) as [Ht Hl];
      [apply tracked_initial | reflexivity |].
    set (s := run actions initial) in *.
    destruct a as [m p|self|self]; simpl.
    + unfold new. destruct (__init__ m p) as [obj|e]; [|apply IH].
      cbn [snd heap _cache_ref]. intros H.
      destruct (decide (k = fresh (dom (heap s)))) as [->|Hne].
      * rewrite lookup_insert_eq. eauto.
      * rewrite lookup_insert_ne by done. now apply IH.
    + destruct (deser_cases s self) as [-> | [-> | (v & e & s' & Hm)]].
      * intros Hc. now rewrite Hc in Hl.
      * apply IH.
      * apply IH.
      * rewrite (miss_result _ _ _ _ _ Hm). cbn [snd].
        rewrite (miss_cache _ _ _ _ _ Hm), (miss_heap _ _ _ _ _ Hm).
        intros H. rewrite fmap_is_Some.
        apply elem_of_app in H as [H|H].
        -- apply IH. destruct (_cache_ref s); [done|].
           apply elem_of_cons. now right.
        -- apply list_elem_of_singleton in H. injection H as ->.
           destruct (miss_loads _ _ _ _ _ Hm) as (obj & Hobj & _). eauto.
    + unfold purge_cache, set_data. cbn [heap _cache_ref]. intros H.
      rewrite lookup_alter. case_decide; [subst; rewrite fmap_is_Some|]; now apply IH.
Qed.

(** X21.  A record built from a mapping reads as that mapping.  In any
    state of the process, the constructor takes a dict the packer takes
    and makes an undecoded instance; its [len] is the number of items,
    its [keys], [values], [items] and iteration follow the mapping in its
    order, [r[key]] is the value stored under [key], or KeyError where
    the mapping has no such key, and [key in r] and [has_key] tell which;
    the values come with lists turned into tuples and dicts into
    FrozenDicts. *)
Theorem record_reads_as_its_mapping (actions : list action)
    (d : list (string * pyval)) :
  wf (PDict d) = true -> packable false (PDict d) = true ->
  let s := run actions initial in
  exists self s1,
    new (PDict d) PNone s = (Ok self, s1)
    /\ data_of self s1 = PNone
    /\ (__len__ self s1).1 = Ok (length d)
    /\ (keys self s1).1 = Ok (map fst d)
    /\ (values self s1).1 = Ok (map (fun kv => freeze kv.2) d)
    /\ (items self s1).1 = Ok (map (fun '(k, v) => (k, freeze v)) d)
    /\ (__iter__ self s1).1 = Ok (map PStr (map fst d))
    /\ forall key,
         (__getitem__ self key s1).1
         = match dict_get d key with
           | Some v => Ok (freeze v)
           | None => Raise KeyError
           end
         /\ (__contains__ self key s1).1 = Ok (bool_decide (is_Some (dict_get d key)))
         /\ (has_key self key s1).1 = Ok (bool_decide (is_Some (dict_get d key))).
Proof.
  intros Hwf Hp. cbn zeta. set (s := run actions initial).
  destruct (pack_packable false (PDict d) Hp) as [bs Hbs].
  unfold new, __init__, msgpack.dumps. rewrite Hbs. cbn [mbind result_bind].
  set (self := fresh (dom (heap s))).
  eexists self, _. split; [reflexivity|].
  set (s1 := {| heap := _; _cache_ref := _ |}).
  assert (Hobj : heap s1 !! self = Some {| _ser_data := bs; _data := PNone |})
    by apply lookup_insert_eq.
  split; [now rewrite (data_of_lookup _ _ _ Hobj)|].
  set (fd := map (fun '(k, v) => (k, freeze v)) d).
  assert (Hv : loads_frozen bs = Ok (PFrozenDict fd)).
  { unfold msgpack.loads.
    now rewrite (unpackb_packb false (Some _object_hook) false (PDict d) bs Hwf Hbs). }
  destruct (run_invariant actions initial) as [_ Hl];
    [apply tracked_initial | reflexivity |]. fold s in Hl.
  destruct (_cache_ref s) as [|e rest] eqn:Hcache; [discriminate|].
  assert (He : e <> Dict_object self).
  { intros ->.
    destruct (run_cache_refers actions self) as [o Ho].
    { fold s. rewrite Hcache. apply elem_of_cons. now left. }
    fold s in Ho. apply (is_fresh (dom (heap s))). fold self.
    apply elem_of_dom. eauto. }
  destruct (deser_miss s1 self _ _ e rest Hobj eq_refl Hv eq_refl)
    as (s2 & Hd & _ & _ & Hh).
  assert (Hdata : data_of self s2 = PFrozenDict fd).
  { unfold data_of. rewrite Hh, Hobj. simpl.
    rewrite decide_False by done. now rewrite decide_True. }
  assert (Hread : forall A (op : pyval -> result A),
            (reading op self s1).1 = op (PFrozenDict fd)).
  { intros A op. unfold reading. now rewrite Hd, Hdata. }
  assert (Hkeys : map fst fd = map fst d).
  { unfold fd. rewrite map_map. apply map_ext. now intros [k v]. }
  unfold __len__, keys, values, items, __iter__, __getitem__, __contains__, has_key.
  rewrite !Hread. cbn [py_len py_keys py_values py_items py_iter]. unfold dict_keys.
  rewrite Hkeys. unfold fd at 1 2. rewrite length_map, map_map.
  split; [done|]. split; [done|]. split.
  { f_equal. apply map_ext. now intros [k v]. }
  split; [done|]. split; [done|].
  intros key. rewrite !Hread. cbn [py_getitem py_contains].
  unfold fd. rewrite dict_get_map. destruct (dict_get d key); simpl; repeat split; done.
Qed.
End RecordsOfMappings.

Section NestedMappings.
Import Serialized_Dict.
Local Abbreviation loads_frozen := (msgpack.loads false (Some _object_hook)).

Lemma nested_replace_nested path : forall o y x,
  nested o path = Some y -> nested (replace_nested o path x) path = Some x.
Proof.
  induction path as [|[k|i] path IH]; intros o y x; simpl.
  - done.
  - destruct o as [| | | | | |l|l|d|d|l|x0]; try done;
      destruct (dict_get d k) as [v|] eqn:Hk; try done;
      intros H; simpl; rewrite dict_get_set, String.eqb_refl; now apply (IH v y).
  - destruct o as [| | | | | |l|l|d|d|l|x0]; try done;
      destruct (l !! i) as [v|] eqn:Hi; try done;
      intros H; simpl;
      (rewrite list_lookup_insert_eq by (now apply lookup_lt_Some in Hi));
      now apply (IH v y).
Qed.

(** X23.  What a removal through a nested FrozenDict changes is the
    decoded value only, never the stored bytes: [del m[key]] on a mapping
    [m] nested in the value of a record succeeds and the key is gone from
    the value, but once the record has been purged from the cache, the
    next read decodes the bytes again and works on the value as it was
    before the removal. *)
Theorem nested_removal_is_undone_by_eviction {A} (op : pyval -> result A)
    (s : state) (self : nat) (obj : instance) (path : list selector)
    (d : list (string * pyval)) (key : string) (x : pyval)
    (e : cache_entry) (rest : list cache_entry) :
  heap s !! self = Some obj ->
  loads_frozen (_ser_data obj) = Ok (_data obj) ->
  nested (_data obj) path = Some (PFrozenDict d) ->
  dict_get d key = Some x ->
  _cache_ref s = e :: rest -> e <> Dict_object self ->
  let removed := on_nested (fun m => FrozenDict.__delitem__ m key) self path s in
  removed.1 = Ok ()
  /\ nested (data_of self removed.2) path = Some (PFrozenDict (dict_del d key))
  /\ exists s',
       reading op self (purge_cache self removed.2) = (op (_data obj), s')
       /\ data_of self s' = _data obj.
Proof.
  intros Hobj Hv Hn Hx Hc He. cbn zeta.
  unfold on_nested, FrozenDict.__delitem__.
  rewrite (data_of_lookup _ _ _ Hobj), Hn, Hx. cbn [fst snd].
  split; [done|].
  set (s1 := set_data self _ s).
  split.
  - unfold s1. rewrite data_of_set_data by eauto.
    now apply (nested_replace_nested path _ (PFrozenDict d)).
  - assert (Hp : heap (purge_cache self s1) !! self
                 = Some {| _ser_data := _ser_data obj; _data := PNone |}).
    { unfold purge_cache, s1, set_data. cbn [heap].
      now rewrite !lookup_alter_eq, Hobj. }
    destruct (deser_miss (purge_cache self s1) self _ _ e rest Hp eq_refl Hv Hc)
      as (s' & Hd & _ & _ & Hh).
    assert (Hdata : data_of self s' = _data obj).
    { unfold data_of. rewrite Hh, Hp. simpl.
      rewrite decide_False by done. now rewrite decide_True. }
    exists s'. split; [|done]. unfold reading. now rewrite Hd, Hdata.
Qed.
End NestedMappings.

Section NestedWitnesses.
Import Serialized_Dict.

(** The record built from [{"a": {"b": 1}}], read once. *)
Local Abbreviation nested_state :=
  (__getitem__ 0 "a" (one_record (PDict [("a", PDict [("b", PInt 1)])]))).2.

(** The first record of a process, built from [{"a": [1]}]. *)
Lemma record_reads_as_its_mapping_witness :
  exists self s1,
    new (PDict [("a", PList [PInt 1])]) PNone (run [] initial) = (Ok self, s1)
    /\ data_of self s1 = PNone
    /\ (__len__ self s1).1 = Ok 1
    /\ (keys self s1).1 = Ok ["a"%string]
    /\ (values self s1).1 = Ok [PTuple [PInt 1]]
    /\ (items self s1).1 = Ok [("a"%string, PTuple [PInt 1])]
    /\ (__iter__ self s1).1 = Ok [PStr "a"]
    /\ forall key,
         (__getitem__ self key s1).1
         = match dict_get [("a", PList [PInt 1])] key with
           | Some v => Ok (decoded false (Some _object_hook) v)
           | None => Raise KeyError
           end
         /\ (__contains__ self key s1).1
            = Ok (bool_decide (is_Some (dict_get [("a", PList [PInt 1])] key)))
         /\ (has_key self key s1).1
            = Ok (bool_decide (is_Some (dict_get [("a", PList [PInt 1])] key))).
Proof.
  apply (record_reads_as_its_mapping [] [("a", PList [PInt 1])]); reflexivity.
Defined.


(** The same record: ['b'] removed from the nested mapping, then the
    record purged and read. *)
Lemma nested_removal_is_undone_by_eviction_witness :
  let s := nested_state in
  let removed := on_nested (fun m => FrozenDict.__delitem__ m "b") 0 [Key "a"] s in
  removed.1 = Ok ()
  /\ nested (data_of 0 removed.2) [Key "a"] = Some (PFrozenDict (dict_del [("b", PInt 1)] "b"))
  /\ exists s',
       reading (fun o => py_getitem o "a") 0 (purge_cache 0 removed.2)
       = (py_getitem (PFrozenDict [("a", PFrozenDict [("b", PInt 1)])]) "a", s')
       /\ data_of 0 s' = PFrozenDict [("a", PFrozenDict [("b", PInt 1)])].
Proof.
  apply (nested_removal_is_undone_by_eviction (fun o => py_getitem o "a")
           nested_state 0
           {| _ser_data := [x81; xa1; "a"; x81; xa1; "b"; x01]%byte;
              _data := PFrozenDict [("a", PFrozenDict [("b", PInt 1)])] |}
           [Key "a"] [("b", PInt 1)] "b" (PInt 1) Empty_object
           (replicate 98 Empty_object ++ [Dict_object 0])).
  - vm_compute. reflexivity.
  - vm_compute. reflexivity.
  - reflexivity.
  - reflexivity.
  - vm_compute. reflexivity.
  - discriminate.
Defined.
End NestedWitnesses.

(** ** Serialized_Dict: reading in a cycle *)

Section RoundRobin.
Import Serialized_Dict.

Local Abbreviation loads_frozen := (msgpack.loads false (Some _object_hook)).

Lemma rotating_step a rest s :
  rotating (a :: rest) s ->
  rotating (rest ++ [a]) (_deser a s).2
  /\ loads_calls (_deser a s).2 = S (loads_calls s).
Proof.
  intros (Hnd & Hc & Hne & Hall). cbn [tail head] in *.
  destruct rest as [|r1 rest']; [done|]. cbn [map] in Hc.
  destruct (Hall a) as (obj & v & Hobj & Hv & Htv & Hd); [apply elem_of_cons; now left|].
  rewrite bool_decide_eq_true_2 in Hd by done. cbn [negb] in Hd.
  destruct (deser_miss s a obj v _ _ Hobj Hd Hv Hc) as (s' & Hdes & Hc' & Hl' & Hh').
  rewrite Hdes. cbn [snd]. split; [|done].
  apply NoDup_cons in Hnd as [Ha Hnd]. pose proof Hnd as Hnd'.
  apply NoDup_cons in Hnd' as [Hr1 Hnd'].
  repeat split.
  - rewrite <- app_comm_cons. apply NoDup_cons. split.
    + intros [Hin| ->%list_elem_of_singleton]%elem_of_app; [done|].
      apply Ha. apply elem_of_cons. now left.
    + apply NoDup_app. split; [done|]. split; [|apply NoDup_singleton].
      intros x Hx ->%list_elem_of_singleton. apply Ha. apply elem_of_cons. now right.
  - rewrite Hc'. cbn [app tail]. now rewrite map_app.
  - cbn [app tail]. now destruct rest'.
  - intros k Hk. cbn [app head].
    assert (Hk' : k ∈ a :: r1 :: rest').
    { rewrite <- app_comm_cons in Hk.
      apply elem_of_cons in Hk as [->|Hk]; [apply elem_of_cons; right; apply elem_of_cons; now left|].
      apply elem_of_app in Hk as [Hk| ->%list_elem_of_singleton].
      - apply elem_of_cons; right; apply elem_of_cons; now right.
      - apply elem_of_cons; now left. }
    destruct (Hall k Hk') as (o & w & Ho & Hw & Htw & Hdw).
    rewrite Hh', Ho. cbn [fmap option_fmap option_map].
    eexists _, w. split; [reflexivity|]. cbn [_ser_data _data after_decode].
    split; [done|]. split; [done|].
    destruct (decide (k = r1)) as [->|Hkr].
    + rewrite decide_True by done. now rewrite bool_decide_eq_true_2.
    + rewrite decide_False by congruence.
      rewrite (bool_decide_eq_false_2 (Some r1 = Some k)) by congruence. cbn [negb].
      destruct (decide (k = a)) as [->|Hka].
      * assert (w = v) as -> by congruence. done.
      * rewrite Hdw. rewrite bool_decide_eq_false_2 by congruence. done.
Qed.

Lemma rotating_run m : forall l s,
  rotating (m ++ l) s -> m ++ l <> [] ->
  rotating (l ++ m) (decode_all m s)
  /\ loads_calls (decode_all m s) = loads_calls s + length m.
Proof.
  induction m as [|x m IH]; intros l s Hr Hne.
  - rewrite app_nil_r. cbn. split; [done | lia].
  - rewrite <- app_comm_cons in Hr.
    destruct (rotating_step x (m ++ l) s Hr) as [Hr1 Hl1].
    rewrite <- app_assoc in Hr1.
    destruct (IH (l ++ [x]) (_deser x s).2 Hr1) as [Hr2 Hl2].
    { destruct m; [destruct l|]; done. }
    rewrite <- app_assoc in Hr2. cbn [app] in Hr2.
    unfold decode_all in *. cbn [foldl]. split; [done|].
    rewrite Hl2, Hl1. cbn [length]. lia.
Qed.

Lemma decode_all_rounds rounds : forall ids s,
  rotating ids s -> ids <> [] ->
  loads_calls (decode_all (concat (replicate rounds ids)) s)
  = loads_calls s + rounds * length ids.
Proof.
  induction rounds as [|n IH]; intros ids s Hr Hne; [cbn; lia|].
  cbn [replicate concat]. rewrite decode_all_app.
  destruct (rotating_run ids [] s) as [Hr1 Hl1].
  { now rewrite app_nil_r. }
  { now rewrite app_nil_r. }
  cbn [app] in Hr1. rewrite (IH ids _ Hr1 Hne), Hl1. lia.
Qed.

(** X24.  With one record more than the cache has slots, reading the
    records in turn, round after round, never finds a decoded value:
    each access evicts the record that is read next.  From a fresh
    cache, [rounds] rounds over 101 records with non-empty mappings call
    [msgpack.loads] 101 times per round. *)
Theorem round_robin_over_101_records_never_hits (s : state) (ids : list nat)
    (rounds : nat) :
  length (_cache_ref s) = cache_len -> NoDup ids ->
  forallb (ready s) ids = true -> length ids = S cache_len ->
  (forall self, self ∈ ids -> Dict_object self ∉ _cache_ref s) ->
  (forall self obj v, self ∈ ids -> heap s !! self = Some obj ->
     loads_frozen (_ser_data obj) = Ok v -> truthy v = true) ->
  loads_calls (decode_all (concat (replicate rounds ids)) s)
  = loads_calls s + rounds * length ids.
Proof.
  intros Hl Hnd Hr Hlen Hout Htrue.
  destruct rounds as [|n]; [cbn; lia|].
  cbn [replicate concat]. rewrite decode_all_app.
  assert (Hc : _cache_ref s <> []) by (intros Hc; now rewrite Hc in Hl).
  assert (Hcl : cache_len = 100) by reflexivity.
  destruct (decode_all_fresh ids s Hc Hnd Hr)
    as (Hcache & Hcalls & Hser & _ & _ & Hpop & Hkeep).
  pose proof (recent_slot_free s ids) as Hfree.
  set (s1 := decode_all ids s) in *.
  destruct ids as [|a rest]; [discriminate|].
  cbn [length] in Hlen. assert (Hrest : length rest = cache_len) by lia.
  assert (Hrot : rotating (a :: rest) s1).
  { split; [done|]. split.
    - rewrite Hcache. cbn [tail length map].
      rewrite drop_app_ge by lia. rewrite Hl, Hrest.
      replace (S cache_len - cache_len) with 1 by lia.
      reflexivity.
    - split; [cbn [tail]; destruct rest; [discriminate | done]|].
      intros k Hk. rewrite forallb_forall in Hr.
      pose proof (Hr k ltac:(now apply list_elem_of_In)) as Hrk.
      apply ready_inv in Hrk as (obj & Hobj & Hnone & Hok).
      apply is_Ok_true in Hok as [v Hv].
      specialize (Hser k). rewrite Hobj in Hser.
      destruct (heap s1 !! k) as [obj1|] eqn:Hobj1; [|done].
      injection Hser as Hser.
      exists obj1, v. split; [done|]. rewrite Hser. split; [done|].
      assert (Htv : truthy v = true) by now apply (Htrue k obj v).
      split; [done|].
      cbn [head]. destruct (decide (k = a)) as [->|Hka].
      + rewrite bool_decide_eq_true_2 by done. cbn [negb].
        assert (Hd : data_of a s1 = PNone).
        { apply (Hpop a cache_len); [| cbn [length]; lia |].
          - rewrite lookup_app_r by lia. now rewrite Hl, Nat.sub_diag.
          - rewrite drop_ge by (cbn [length]; lia). apply not_elem_of_nil. }
        rewrite (data_of_lookup _ _ _ Hobj1) in Hd. now rewrite Hd.
      + rewrite bool_decide_eq_false_2 by congruence. cbn [negb].
        apply list_elem_of_lookup in Hk as [j Hj].
        destruct j as [|j]; [cbn in Hj; congruence|].
        assert (Hd : data_of k s1 = v).
        { apply (Hkeep k (S j) obj v Hj Hobj Hv).
          apply Hfree; [done | done | done | done | cbn [length]; lia]. }
        rewrite (data_of_lookup _ _ _ Hobj1) in Hd. now rewrite Hd. }
  rewrite (decode_all_rounds n _ _ Hrot) by done. rewrite Hcalls. lia.
Qed.
End RoundRobin.

(** 101 records of a fresh process, read in turn three times over. *)
Lemma round_robin_over_101_records_never_hits_witness :
  Serialized_Dict.loads_calls
    (Serialized_Dict.decode_all (concat (replicate 3 (seq 0 101))) (loaded 101))
  = Serialized_Dict.loads_calls (loaded 101) + 3 * length (seq 0 101).
Proof.
  apply (round_robin_over_101_records_never_hits (loaded 101) (seq 0 101) 3).
  - reflexivity.
  - apply (bool_decide_unpack _). vm_compute. exact I.
  - vm_compute. reflexivity.
  - reflexivity.
  - intros self _. apply (bool_decide_unpack _). vm_compute. exact I.
  - intros self obj v Hin Hobj Hv.
    assert (Hobj' : obj = record_of sample_payload).
    { revert Hobj. apply list_elem_of_In in Hin.
      unfold loaded, Serialized_Dict.heap. intros Hobj.
      apply elem_of_list_to_map_2 in Hobj.
      apply list_elem_of_fmap in Hobj as (i & [= _ ->] & _). reflexivity. }
    subst obj. vm_compute in Hv. injection Hv as <-. reflexivity.
Defined.

(** ** Pupil data files: appending *)

Lemma stream_bytes_app frames1 : forall frames2 bs1 bs2,
  stream_bytes frames1 = Ok bs1 -> stream_bytes frames2 = Ok bs2 ->
  stream_bytes (frames1 ++ frames2) = Ok (bs1 ++ bs2).
Proof.
  induction frames1 as [|f frames1 IH]; intros frames2 bs1 bs2 H1 H2.
  - apply Ok_inj in H1. now subst bs1.
  - cbn [stream_bytes app] in *. inv_bind H1. subst bs1.
    rewrite Ha, (IH frames2 a0 bs2 Ha0 H2). cbn [mbind result_bind].
    now rewrite app_assoc.
Qed.

(** X25.  The log is append-only for the reader as well: when frames are
    added at the end of a file, every group keeps the records it had, in
    their order, followed by the records of the new frames of that
    group; groups of new first segments are added. *)
Theorem appended_frames_append_records (fs : files) (file_path : string)
    (frames1 frames2 : list (string * list byte)) (bs1 bs2 : list byte) :
  stream_bytes frames1 = Ok bs1 -> stream_bytes frames2 = Ok bs2 ->
  fs !! file_path = Some (bs1 ++ bs2) ->
  exists before after : groups,
    load_pupil_data_file (<[file_path := bs1]> fs) file_path = Ok before
    /\ load_pupil_data_file fs file_path = Ok after
    /\ forall g, after !! g
                 = match records_of g frames2 with
                   | [] => before !! g
                   | l => Some (default [] (before !! g) ++ l)
                   end.
Proof.
  intros H1 H2 Hf.
  exists (foldl add_frame ∅ frames1), (foldl add_frame ∅ (frames1 ++ frames2)).
  split; [|split].
  - apply (load_pupil_data_file_stream _ _ frames1 bs1 H1). apply lookup_insert_eq.
  - apply (load_pupil_data_file_stream _ _ _ _ (stream_bytes_app _ _ _ _ H1 H2) Hf).
  - intros g. rewrite foldl_app. apply foldl_add_frame.
Qed.

Section AppendedWitness.

Local Abbreviation first_bytes :=
  ([x92; xa6; "g"; "a"; "z"; "e"; "."; "0"; xc4; x01; x80]%byte : list byte).

Local Abbreviation more_bytes :=
  ([x92; xa6; "g"; "a"; "z"; "e"; "."; "1"; xc4; x01; x81;
    x92; xa7; "p"; "u"; "p"; "i"; "l"; "."; "0"; xc4; x01; x82]%byte : list byte).

(** A file of one frame, and the same file with two more frames. *)
Lemma appended_frames_append_records_witness :
  exists before after : groups,
    load_pupil_data_file
      (<["pupil_data" := first_bytes]> {[ "pupil_data" := first_bytes ++ more_bytes ]})
      "pupil_data" = Ok before
    /\ load_pupil_data_file {[ "pupil_data" := first_bytes ++ more_bytes ]} "pupil_data"
       = Ok after
    /\ forall g, after !! g
                 = match records_of g [("gaze.1", [x81]); ("pupil.0", [x82])] with
                   | [] => before !! g
                   | l => Some (default [] (before !! g) ++ l)
                   end.
Proof.
  apply (appended_frames_append_records _ "pupil_data"
           [("gaze.0", [x80])] [("gaze.1", [x81]); ("pupil.0", [x82])]
           first_bytes more_bytes).
  - reflexivity.
  - reflexivity.
  - reflexivity.
Defined.

End AppendedWitness.
